(** * Cookbook notebooks: request composer, service client, response presenter

    A shallow embedding of the code cells of three notebooks,

    - [examples/chatgpt/gpt_actions_library/gpt_action_sql_database.ipynb],
    - [examples/vector_databases/redis/redisjson/redisjson.ipynb],
    - [examples/multimodal/image_understanding_with_rag.ipynb],

    and of the Python library routines those cells call ([csv.writer],
    [base64.b64encode], [base64.b64decode], [hash], [set]).  A notebook cell
    becomes a computation in a state-and-exception monad over a [world]
    (files on disk, the cell's output area, the log of external calls); the
    external services are an oracle the computation is run against. *)

From Stdlib Require Import ZArith Lia Ascii String.
From stdpp Require Import base option list gmap strings pretty.

Local Open Scope string_scope.
Local Open Scope list_scope.
Local Open Scope Z_scope.

(* ================================================================== *)
(** * Part I.  Definitions                                             *)
(* ================================================================== *)

(** ** Python values *)

(** A Python [str] is carried as a [string]: the bytes of its UTF-8
    encoding.  [bytes] objects and file contents are [list ascii]. *)
Abbreviation bytes := (list ascii).

Definition encode_utf8 (s : string) : bytes := list_ascii_of_string s.
Definition decode_utf8 (b : bytes) : string := string_of_list_ascii b.

(** Scalars: what a JSON document or a database column holds.  A float is
    carried by the text [str()] gives it; none of the cells computes with
    one. *)
Inductive scalar :=
| SNone
| SBool (b : bool)
| SInt (z : Z)
| SFloat (repr : string)
| SStr (s : string).

(** [str(v)]. *)
Definition py_str (v : scalar) : string :=
  match v with
  | SNone => "None"
  | SBool true => "True"
  | SBool false => "False"
  | SInt z => pretty z
  | SFloat r => r
  | SStr s => s
  end.

(** Structured payloads: what [json.loads] returns and what the client
    libraries send and receive. *)
#[warnings="-register-all"]
Inductive json :=
| JVal (v : scalar)
| JArr (items : list json)
| JObj (fields : list (string * json)).

(** A [dict] with string keys, in insertion order. *)
Abbreviation dict V := (list (string * V)).

Definition keys {V} (d : dict V) : list string := d.*1.
Definition values {V} (d : dict V) : list V := d.*2.

Fixpoint dict_get {V} (d : dict V) (k : string) : option V :=
  match d with
  | [] => None
  | (k', v) :: d' => if decide (k' = k) then Some v else dict_get d' k
  end.

(** ** Exceptions, external services, the world *)

Inductive exn :=
| IndexError
| KeyError (key : string)
| AttributeError (name : string)
| TypeError
| FileNotFoundError (path : string)
| BinasciiError (msg : string)
| CsvError (msg : string)
| ValueError (msg : string)
| ExternalError (detail : string).

Inductive result (A : Type) :=
| Ok (a : A)
| Raised (e : exn).
Global Arguments Ok {A} a.
Global Arguments Raised {A} e.

Global Instance result_ret : MRet result := λ A a, Ok a.
Global Instance result_bind : MBind result := λ A B k r,
  match r with
  | Ok a => k a
  | Raised e => Raised e
  end.
Global Instance result_fmap : FMap result := λ A B f r,
  match r with
  | Ok a => Ok (f a)
  | Raised e => Raised e
  end.

(** One call that leaves the process: a client-library method with its
    keyword arguments, or a shell-escape line. *)
Record request := Request { endpoint : string; payload : json }.

(** What came back: the parsed response, or the text of the failure. *)
Inductive outcome :=
| Returned (response : json)
| Failed (detail : string).

Abbreviation event := (request * outcome)%type.

(** The services are not part of the repository: they are an oracle that
    answers a request given everything that was asked before. *)
Definition service : Type := list event → request → outcome.

(** What one item of a cell's output area is. *)
Inductive out_item :=
| Printed (line : string)
| DisplayedImage (path : string)
| DisplayedTable (rows : list (list string)).

Record world := World {
  files : gmap string bytes;
  output : list out_item;
  calls : list event
}.

Definition empty_world : world := World ∅ [] [].

(** A cell, or a function a cell calls. *)
Definition M (A : Type) : Type := service → world → world * result A.

Global Instance M_ret : MRet M := λ A a _ w, (w, Ok a).
Global Instance M_bind : MBind M := λ A B k m svc w,
  match m svc w with
  | (w', Ok a) => k a svc w'
  | (w', Raised e) => (w', Raised e)
  end.

Definition raise {A} (e : exn) : M A := λ _ w, (w, Raised e).

(** [try: body except: handler], the handler taking whatever was raised. *)
Definition try_except {A} (body : M A) (handler : exn → M A) : M A :=
  λ svc w,
    match body svc w with
    | (w', Ok a) => (w', Ok a)
    | (w', Raised e) => handler e svc w'
    end.

Definition lift {A} (r : result A) : M A := λ _ w, (w, r).

Fixpoint for_each {A} (l : list A) (body : A → M unit) : M unit :=
  match l with
  | [] => mret ()
  | x :: l' => body x;; for_each l' body
  end.

(** [print(line)]. *)
Definition print (line : string) : M unit :=
  λ _ w, (World (files w) (output w ++ [Printed line]) (calls w), Ok ()).

(** [display(Image(path))]. *)
Definition display_image (path : string) : M unit :=
  λ _ w, (World (files w) (output w ++ [DisplayedImage path]) (calls w), Ok ()).

(** A call to an external service: the oracle is asked, the exchange is
    logged, a failure is raised as an exception. *)
Definition call (ep : string) (args : json) : M json :=
  λ svc w,
    let req := Request ep args in
    let o := svc (calls w) req in
    let w' := World (files w) (output w) (calls w ++ [(req, o)]) in
    match o with
    | Returned r => (w', Ok r)
    | Failed d => (w', Raised (ExternalError d))
    end.

(** Files. *)

(** [open(path, 'w')]: the file is created or truncated. *)
Definition open_w (path : string) : M unit :=
  λ _ w, (World (<[path := []]> (files w)) (output w) (calls w), Ok ()).

(** [f.write(data)] on a file opened for writing. *)
Definition write (path : string) (data : bytes) : M unit :=
  λ _ w, (World (<[path := default [] (files w !! path) ++ data]> (files w))
                (output w) (calls w), Ok ()).

(** [open(path, 'rb').read()]. *)
Definition read_rb (path : string) : M bytes :=
  λ _ w,
    match files w !! path with
    | Some b => (w, Ok b)
    | None => (w, Raised (FileNotFoundError path))
    end.

(** [os.path.exists(path)]. *)
Definition path_exists (path : string) : M bool :=
  λ _ w, (w, Ok (bool_decide (is_Some (files w !! path)))).

(** [l[i]] on a list. *)
Definition getitem {A} (l : list A) (i : nat) : M A :=
  match l !! i with
  | Some x => mret x
  | None => raise IndexError
  end.

(** Reading a response: objects and dictionaries are [JObj], lists are
    [JArr]. *)

(** [obj.name]. *)
Definition getattr (obj : json) (name : string) : result json :=
  match obj with
  | JObj fields =>
      match dict_get fields name with
      | Some v => Ok v
      | None => Raised (AttributeError name)
      end
  | _ => Raised (AttributeError name)
  end.

(** [d[key]] on a dictionary. *)
Definition subscript (d : json) (key : string) : result json :=
  match d with
  | JObj fields =>
      match dict_get fields key with
      | Some v => Ok v
      | None => Raised (KeyError key)
      end
  | _ => Raised TypeError
  end.

(** [l[i]] on a list. *)
Definition index (l : json) (i : nat) : result json :=
  match l with
  | JArr items =>
      match items !! i with
      | Some v => Ok v
      | None => Raised IndexError
      end
  | _ => Raised TypeError
  end.

(** A value used where only a string will do. *)
Definition as_str (v : json) : result string :=
  match v with
  | JVal (SStr s) => Ok s
  | _ => Raised TypeError
  end.

(** The items of a value that is iterated over. *)
Definition as_list (v : json) : result (list json) :=
  match v with
  | JArr items => Ok items
  | _ => Raised TypeError
  end.

Definition jstr (s : string) : json := JVal (SStr s).

(** [for x in v]: the items of a list, the keys of a dictionary, the
    characters of a string. *)
Definition py_iter (v : json) : result (list json) :=
  match v with
  | JArr items => Ok items
  | JObj fields => Ok (jstr <$> keys fields)
  | JVal (SStr s) => Ok ((λ c, jstr (String c "")) <$> list_ascii_of_string s)
  | JVal _ => Raised TypeError
  end.

(** [v[i]], [i] a non-negative integer. *)
Definition item_at (v : json) (i : nat) : result json :=
  match v with
  | JArr items =>
      match items !! i with
      | Some x => Ok x
      | None => Raised IndexError
      end
  | JObj _ => Raised (KeyError (pretty (Z.of_nat i)))
  | JVal (SStr s) =>
      match list_ascii_of_string s !! i with
      | Some c => Ok (jstr (String c ""))
      | None => Raised IndexError
      end
  | JVal _ => Raised TypeError
  end.

(** A loop that carries a variable along. *)
Fixpoint for_fold {A S} (l : list A) (s : S) (body : S → A → M S) : M S :=
  match l with
  | [] => mret s
  | x :: l' => s' ← body s x; for_fold l' s' body
  end.

(** A shell-escape line ([! command], [%pip ...]): the command runs in a
    subprocess and its exit status is not looked at. *)
Definition shell (command : string) : M unit :=
  λ svc w,
    let req := Request "shell" (jstr command) in
    let o := svc (calls w) req in
    (World (files w) (output w) (calls w ++ [(req, o)]), Ok ()).

(** [! wget url -O path]: the file is truncated at once and holds what
    was downloaded, if anything was. *)
Definition wget (url path : string) : M unit :=
  λ svc w,
    let req := Request "shell" (jstr ("wget " +:+ url +:+ " -O " +:+ path)) in
    let o := svc (calls w) req in
    let body := match o with
                | Returned (JVal (SStr b)) => encode_utf8 b
                | _ => []
                end in
    (World (<[path := body]> (files w)) (output w) (calls w ++ [(req, o)]), Ok ()).

(** Requests that by design do not stop a cell when they fail: the shell
    lines, and the index drop that the Redis notebook wraps in
    [try: ... except: pass]. *)
Definition forgiven (req : request) : bool :=
  bool_decide (endpoint req = "shell")
  || bool_decide (endpoint req = "ft.dropindex").

(** ** [csv.writer], default dialect

    Delimiter [,], quote character the double quote, [QUOTE_MINIMAL],
    [doublequote] on, no escape character, line terminator CR LF. *)
Module csv.

Definition delimiter : ascii := ","%char.
Definition quotechar : ascii := "034"%char.
Definition CR : ascii := "013"%char.
Definition LF : ascii := "010"%char.
Definition lineterminator : bytes := [CR; LF].

(** Characters that force a field into quotes. *)
Definition special (c : ascii) : bool :=
  Ascii.eqb c delimiter || Ascii.eqb c quotechar
  || existsb (Ascii.eqb c) lineterminator.

(** The field's characters as they are copied into the record, quote
    characters doubled, and whether a special character was met. *)
Fixpoint join_append_data (field : bytes) : bytes * bool :=
  match field with
  | [] => ([], false)
  | c :: rest =>
      let '(copied, quoted) := join_append_data rest in
      if special c then
        ((if Ascii.eqb c quotechar then [quotechar; c] else [c]) ++ copied, true)
      else (c :: copied, quoted)
  end.

Definition join_append (field : bytes) : bytes :=
  let '(copied, quoted) := join_append_data field in
  if quoted then quotechar :: copied ++ [quotechar] else copied.

Fixpoint join_fields (fields : list bytes) : bytes :=
  match fields with
  | [] => []
  | [f] => join_append f
  | f :: rest => join_append f ++ delimiter :: join_fields rest
  end.

(** One record of the file.  A record that came out empty although it has
    a field (a single empty field) is written as a pair of quotes. *)
Definition record_text (fields : list bytes) : bytes :=
  let rec := join_fields fields in
  match fields, rec with
  | _ :: _, [] => [quotechar; quotechar] ++ lineterminator
  | _, _ => rec ++ lineterminator
  end.

(** What the writer makes of one item of a row: [None] is the empty field,
    a string is itself, anything else goes through [str()]. *)
Definition field_text (v : scalar) : string :=
  match v with
  | SNone => ""
  | _ => py_str v
  end.

(** [csvwriter.writerow(row)] on the writer of the file at [path]. *)
Definition writerow (path : string) (row : list scalar) : M unit :=
  write path (record_text (encode_utf8 ∘ field_text <$> row)).

(** *** [csv.reader], same dialect

    Modelled from the spec: the repository writes the table and never reads
    it; "converting to tabular form and back" is read as what Python's
    [csv.reader] makes of the written file (opened with [newline='']), the
    reader the [csv] module pairs with its writer.  The states and the
    transitions are those of the reader's character automaton; the states
    that only an escape character reaches are left out, the dialect having
    none. *)
Inductive parser_state :=
| START_RECORD
| START_FIELD
| IN_FIELD
| IN_QUOTED_FIELD
| QUOTE_IN_QUOTED_FIELD
| EAT_CRNL.

Global Instance parser_state_eq_dec : EqDecision parser_state.
Proof. solve_decision. Defined.

Record reader := Reader {
  state : parser_state;
  field : bytes;            (* the field being collected *)
  fields : list bytes       (* the fields of the record so far *)
}.

Definition parse_reset : reader := Reader START_RECORD [] [].

Definition parse_save_field (r : reader) (st : parser_state) : reader :=
  Reader st [] (fields r ++ [field r]).

Definition parse_add_char (r : reader) (c : ascii) (st : parser_state) : reader :=
  Reader st (field r ++ [c]) (fields r).

Definition goto (r : reader) (st : parser_state) : reader :=
  Reader st (field r) (fields r).

Definition is_newline (c : ascii) : bool := Ascii.eqb c LF || Ascii.eqb c CR.

(** The input of one step: a character, or the end of a line ([None]). *)
Definition start_field (r : reader) (c : option ascii) : reader :=
  match c with
  | None => parse_save_field r START_RECORD
  | Some ch =>
      if is_newline ch then parse_save_field r EAT_CRNL
      else if Ascii.eqb ch quotechar then goto r IN_QUOTED_FIELD
      else if Ascii.eqb ch delimiter then parse_save_field r START_FIELD
      else parse_add_char r ch IN_FIELD
  end.

Definition parse_process_char (r : reader) (c : option ascii) : result reader :=
  match state r with
  | START_RECORD =>
      match c with
      | None => Ok r
      | Some ch =>
          if is_newline ch then Ok (goto r EAT_CRNL)
          else Ok (start_field r c)
      end
  | START_FIELD => Ok (start_field r c)
  | IN_FIELD =>
      match c with
      | None => Ok (parse_save_field r START_RECORD)
      | Some ch =>
          if is_newline ch then Ok (parse_save_field r EAT_CRNL)
          else if Ascii.eqb ch delimiter then Ok (parse_save_field r START_FIELD)
          else Ok (parse_add_char r ch IN_FIELD)
      end
  | IN_QUOTED_FIELD =>
      match c with
      | None => Ok r
      | Some ch =>
          if Ascii.eqb ch quotechar then Ok (goto r QUOTE_IN_QUOTED_FIELD)
          else Ok (parse_add_char r ch IN_QUOTED_FIELD)
      end
  | QUOTE_IN_QUOTED_FIELD =>
      match c with
      | None => Ok (parse_save_field r START_RECORD)
      | Some ch =>
          if Ascii.eqb ch quotechar then Ok (parse_add_char r ch IN_QUOTED_FIELD)
          else if Ascii.eqb ch delimiter then Ok (parse_save_field r START_FIELD)
          else if is_newline ch then Ok (parse_save_field r EAT_CRNL)
          else Ok (parse_add_char r ch IN_FIELD)
      end
  | EAT_CRNL =>
      match c with
      | None => Ok (goto r START_RECORD)
      | Some ch =>
          if is_newline ch then Ok r
          else Raised (CsvError "new-line character seen in unquoted field")
      end
  end.

(** Whether the file object ends a line after [c], the rest of the file
    being [rest]: after LF, after a CR that no LF follows, and at the end
    of the file. *)
Definition line_ends (c : ascii) (rest : bytes) : bool :=
  match rest with
  | [] => true
  | c' :: _ => Ascii.eqb c LF || (Ascii.eqb c CR && negb (Ascii.eqb c' LF))
  end.

(** The records of a file: the automaton is stepped through the
    characters of each line and then once for the end of the line; a
    record is complete when that leaves it in [START_RECORD].  At the end
    of the file an unfinished quoted field is kept as it stands. *)
Fixpoint read_from (r : reader) (text : bytes) : result (list (list bytes)) :=
  match text with
  | [] =>
      if bool_decide (field r ≠ [] ∨ state r = IN_QUOTED_FIELD)
      then Ok [fields r ++ [field r]]
      else Ok []
  | c :: rest =>
      r1 ← parse_process_char r (Some c);
      if line_ends c rest then
        r2 ← parse_process_char r1 None;
        if decide (state r2 = START_RECORD)
        then (fields r2 ::.) <$> read_from parse_reset rest
        else read_from r2 rest
      else read_from r1 rest
  end.

(** A field is over when the reader sits in one of these states. *)
Definition field_over (st : parser_state) (cur : bytes) : Prop :=
  st = IN_FIELD ∨ st = QUOTE_IN_QUOTED_FIELD ∨ (st = START_FIELD ∧ cur = []).

(** [list(csv.reader(f))]. *)
Definition read (text : bytes) : result (list (list bytes)) :=
  read_from parse_reset text.

(** The table as records: the first row names the fields, every later row
    is paired with those names position by position. *)
Definition records_of_table (table : list (list string)) : list (dict string) :=
  match table with
  | [] => []
  | header :: rows => zip header <$> rows
  end.

Definition read_records (text : bytes) : result (list (dict string)) :=
  (λ table : list (list bytes),
     records_of_table ((λ row : list bytes, decode_utf8 <$> row) <$> table))
    <$> read text.

End csv.

(** ** [base64.b64encode], [base64.b64decode]

    The two loops of [binascii] behind them: [b2a_base64] without the
    trailing newline, and [a2b_base64] in its default, non-strict mode. *)
Module base64.

Definition byte_val (c : ascii) : Z := Z.of_N (N_of_ascii c).

(** Storing into an [unsigned char] keeps the low eight bits. *)
Definition to_byte (z : Z) : ascii := ascii_of_N (Z.to_N (z mod 256)).

(** [unsigned int] arithmetic wraps at 32 bits. *)
Definition wrap32 (z : Z) : Z := z mod 2^32.

Definition BASE64_PAD : ascii := "="%char.

Definition table_b2a_base64 : bytes :=
  list_ascii_of_string
    "ABCDEFGHIJKLMNOPQRSTUVWXYZabcdefghijklmnopqrstuvwxyz0123456789+/".

Definition b2a (this_ch : Z) : ascii :=
  default BASE64_PAD (table_b2a_base64 !! Z.to_nat this_ch).

(** [while (leftbits >= 6)]: the six-bit groups that are ready.  The loop
    takes six bits off [leftbits] each turn, so [leftbits] turns are
    enough. *)
Fixpoint drain (turns : nat) (leftchar leftbits : Z) : bytes * Z :=
  match turns with
  | O => ([], leftbits)
  | S turns' =>
      if (6 <=? leftbits)%Z then
        let this_ch := Z.land (Z.shiftr leftchar (leftbits - 6)) 63 in
        let '(out, leftbits') := drain turns' leftchar (leftbits - 6) in
        (b2a this_ch :: out, leftbits')
      else ([], leftbits)
  end.

Fixpoint b2a_loop (leftchar leftbits : Z) (bin_data : bytes) : bytes :=
  match bin_data with
  | [] =>
      if (leftbits =? 2)%Z then
        [b2a (Z.shiftl (Z.land leftchar 3) 4); BASE64_PAD; BASE64_PAD]
      else if (leftbits =? 4)%Z then
        [b2a (Z.shiftl (Z.land leftchar 15) 2); BASE64_PAD]
      else []
  | c :: rest =>
      let leftchar := wrap32 (Z.lor (Z.shiftl leftchar 8) (byte_val c)) in
      let leftbits := leftbits + 8 in
      let '(out, leftbits) := drain (Z.to_nat leftbits) leftchar leftbits in
      out ++ b2a_loop leftchar leftbits rest
  end.

(** [base64.b64encode(s)]. *)
Definition b64encode (s : bytes) : bytes := b2a_loop 0 0 s.

(** [table_a2b_base64]: the value of an alphabet character, 255 (the
    table's -1 in an [unsigned char]) for any other. *)
Definition a2b (c : ascii) : Z :=
  let n := byte_val c in
  if (65 <=? n)%Z && (n <=? 90)%Z then n - 65
  else if (97 <=? n)%Z && (n <=? 122)%Z then n - 71
  else if (48 <=? n)%Z && (n <=? 57)%Z then n + 4
  else if (n =? 43)%Z then 62
  else if (n =? 47)%Z then 63
  else 255.

Record decoder := Decoder {
  quad_pos : Z;
  leftchar : Z;
  pads : Z;
  bin_data : bytes
}.

Definition decode_char (d : decoder) (this_ch : Z) : decoder :=
  if (quad_pos d =? 0)%Z then Decoder 1 this_ch 0 (bin_data d)
  else if (quad_pos d =? 1)%Z then
    Decoder 2 (Z.land this_ch 15) 0
      (bin_data d ++ [to_byte (Z.lor (Z.shiftl (leftchar d) 2) (Z.shiftr this_ch 4))])
  else if (quad_pos d =? 2)%Z then
    Decoder 3 (Z.land this_ch 3) 0
      (bin_data d ++ [to_byte (Z.lor (Z.shiftl (leftchar d) 4) (Z.shiftr this_ch 2))])
  else
    Decoder 0 0 0
      (bin_data d ++ [to_byte (Z.lor (Z.shiftl (leftchar d) 6) this_ch)]).

Fixpoint a2b_loop (d : decoder) (ascii_data : bytes) : result bytes :=
  match ascii_data with
  | [] =>
      if (quad_pos d =? 0)%Z then Ok (bin_data d)
      else if (quad_pos d =? 1)%Z then
        Raised (BinasciiError
          ("Invalid base64-encoded string: number of data characters ("
           +:+ pretty (Z.of_nat (length (bin_data d)) / 3 * 4 + 1)
           +:+ ") cannot be 1 more than a multiple of 4"))
      else Raised (BinasciiError "Incorrect padding")
  | c :: rest =>
      if Ascii.eqb c BASE64_PAD then
        if (2 <=? quad_pos d)%Z then
          let pads' := pads d + 1 in
          if (4 <=? quad_pos d + pads')%Z then Ok (bin_data d)
          else a2b_loop (Decoder (quad_pos d) (leftchar d) pads' (bin_data d)) rest
        else a2b_loop d rest
      else
        let this_ch := a2b c in
        if (64 <=? this_ch)%Z then a2b_loop d rest
        else a2b_loop (decode_char d this_ch) rest
  end.

Definition a2b_base64 (data : bytes) : result bytes :=
  a2b_loop (Decoder 0 0 0 []) data.

(** [base64.b64decode(s)] on a [str]: the string must be ASCII. *)
Definition b64decode (s : string) : result bytes :=
  let data := encode_utf8 s in
  if forallb (λ c, (byte_val c <? 128)%Z) data then a2b_base64 data
  else Raised (ValueError "string argument should contain only ASCII characters").

End base64.

(** ** [hash] of a [str], and [set]

    The interpreter keys its string hash (SipHash-1-3) with a secret it
    draws when it starts, so the hash of a string is a function of the
    string and of the session.  [PYTHONHASHSEED=n] fixes the secret. *)
Module pyhash.

Definition u64 (z : Z) : Z := z mod 2^64.
Definition u32 (z : Z) : Z := z mod 2^32.

(** The two 64-bit words of the session's secret. *)
Record secret := Secret { k0 : Z; k1 : Z }.

Definition ROTATE (x b : Z) : Z :=
  u64 (Z.lor (Z.shiftl x b) (Z.shiftr x (64 - b))).

Record sipstate := Sip { v0 : Z; v1 : Z; v2 : Z; v3 : Z }.

(** [HALF_ROUND(a,b,c,d,s,t)], returning the new [a], [b], [c], [d]. *)
Definition HALF_ROUND (a b c d s t : Z) : Z * Z * Z * Z :=
  let a := u64 (a + b) in
  let c := u64 (c + d) in
  let b := Z.lxor (ROTATE b s) a in
  let d := Z.lxor (ROTATE d t) c in
  let a := ROTATE a 32 in
  (a, b, c, d).

Definition SINGLE_ROUND (v : sipstate) : sipstate :=
  let '(a, b, c, d) := HALF_ROUND (v0 v) (v1 v) (v2 v) (v3 v) 13 16 in
  let '(c, b, a, d) := HALF_ROUND c b a d 17 21 in
  Sip a b c d.

(** Up to eight bytes as a little-endian word. *)
Fixpoint le_word (src : bytes) : Z :=
  match src with
  | [] => 0
  | c :: rest => Z.lor (Z.of_N (N_of_ascii c)) (Z.shiftl (le_word rest) 8)
  end.

(** The loop over the full eight-byte words, then the last, partial word
    with the length in its top byte. *)
Fixpoint sip_words (words : nat) (v : sipstate) (src : bytes) (src_sz : Z) : sipstate :=
  match words with
  | S words' =>
      let mi := le_word (take 8 src) in
      let v := Sip (v0 v) (v1 v) (v2 v) (Z.lxor (v3 v) mi) in
      let v := SINGLE_ROUND v in
      let v := Sip (Z.lxor (v0 v) mi) (v1 v) (v2 v) (v3 v) in
      sip_words words' v (drop 8 src) src_sz
  | O =>
      let b := Z.lor (u64 (Z.shiftl src_sz 56)) (le_word src) in
      let v := Sip (v0 v) (v1 v) (v2 v) (Z.lxor (v3 v) b) in
      let v := SINGLE_ROUND v in
      let v := Sip (Z.lxor (v0 v) b) (v1 v) (Z.lxor (v2 v) 255) (v3 v) in
      SINGLE_ROUND (SINGLE_ROUND (SINGLE_ROUND v))
  end.

Definition siphash13 (k : secret) (src : bytes) : Z :=
  let v := Sip (Z.lxor (k0 k) 0x736f6d6570736575)
               (Z.lxor (k1 k) 0x646f72616e646f6d)
               (Z.lxor (k0 k) 0x6c7967656e657261)
               (Z.lxor (k1 k) 0x7465646279746573) in
  let v := sip_words (length src / 8) v src (Z.of_nat (length src)) in
  Z.lxor (Z.lxor (v0 v) (v1 v)) (Z.lxor (v2 v) (v3 v)).

(** A 64-bit word read as a [Py_hash_t]. *)
Definition signed64 (z : Z) : Z := if z <? 2^63 then z else z - 2^64.

(** [hash(s)] for an ASCII [str] (one byte a character in the
    interpreter, as in UTF-8): zero for the empty string, -2 instead of
    -1. *)
Definition hash (k : secret) (s : string) : Z :=
  match encode_utf8 s with
  | [] => 0
  | src => let x := signed64 (siphash13 k src) in if x =? -1 then -2 else x
  end.

(** The secret [PYTHONHASHSEED=seed] gives: all zero for seed 0, else the
    first sixteen bytes of a linear congruential generator. *)
Fixpoint lcg_urandom (x : Z) (size : nat) : bytes :=
  match size with
  | O => []
  | S size' =>
      let x := u32 (u32 (x * 214013) + 2531011) in
      ascii_of_N (Z.to_N (Z.land (Z.shiftr x 16) 255)) :: lcg_urandom x size'
  end.

Definition secret_of_seed (seed : Z) : secret :=
  if seed =? 0 then Secret 0 0
  else
    let buffer := lcg_urandom seed 24 in
    Secret (le_word (take 8 buffer)) (le_word (take 8 (drop 8 buffer))).

(** *** [set] of strings

    An open-addressing table; nothing is ever removed from the sets the
    notebooks build, so a slot is unused or active. *)
Inductive slot :=
| Unused
| Active (h : Z) (key : string).

Record pyset := PySet {
  table : list slot;
  mask : Z;
  fill : Z;
  used : Z
}.

Definition LINEAR_PROBES : Z := 9.
Definition PERTURB_SHIFT : Z := 5.
Definition PySet_MINSIZE : Z := 8.

Definition empty_set : pyset :=
  PySet (replicate (Z.to_nat PySet_MINSIZE) Unused) (PySet_MINSIZE - 1) 0 0.

Inductive probe :=
| FoundUnused (i : nat)
| FoundActive
| NotFound.

(** The entry at [i] and the [probes] entries after it. *)
Fixpoint scan (t : list slot) (i : nat) (probes : nat) (h : Z) (key : string) : probe :=
  match t !! i with
  | None => NotFound
  | Some Unused => FoundUnused i
  | Some (Active h' key') =>
      if (h' =? h) && bool_decide (key' = key) then FoundActive
      else match probes with
           | O => NotFound
           | S probes' => scan t (S i) probes' h key
           end
  end.

(** The probe sequence of [set_add_entry].  It visits every slot of a
    table that has a free one; [turns] bounds the visits. *)
Fixpoint lookkey (turns : nat) (t : list slot) (mask i perturb h : Z) (key : string) : probe :=
  match turns with
  | O => NotFound
  | S turns' =>
      let probes := if i + LINEAR_PROBES <=? mask then LINEAR_PROBES else 0 in
      match scan t (Z.to_nat i) (Z.to_nat probes) h key with
      | NotFound =>
          let perturb := Z.shiftr perturb PERTURB_SHIFT in
          let i := Z.land (u64 (i * 5 + 1 + perturb)) mask in
          lookkey turns' t mask i perturb h key
      | found => found
      end
  end.

(** The first free slot on the probe sequence, no key compared. *)
Fixpoint scan_clean (t : list slot) (i : nat) (probes : nat) : option nat :=
  match t !! i with
  | None => None
  | Some Unused => Some i
  | Some (Active _ _) =>
      match probes with
      | O => None
      | S probes' => scan_clean t (S i) probes'
      end
  end.

Fixpoint set_insert_clean_at (turns : nat) (t : list slot) (mask i perturb : Z) : option nat :=
  match turns with
  | O => None
  | S turns' =>
      let probes := if i + LINEAR_PROBES <=? mask then LINEAR_PROBES else 0 in
      match scan_clean t (Z.to_nat i) (Z.to_nat probes) with
      | Some j => Some j
      | None =>
          let perturb := Z.shiftr perturb PERTURB_SHIFT in
          let i := Z.land (u64 (i * 5 + 1 + perturb)) mask in
          set_insert_clean_at turns' t mask i perturb
      end
  end.

Definition probe_turns (t : list slot) : nat := (length t + 64)%nat.

Definition set_insert_clean (t : list slot) (mask : Z) (e : slot) : list slot :=
  match e with
  | Unused => t
  | Active h key =>
      match set_insert_clean_at (probe_turns t) t mask
              (Z.land (u64 h) mask) (u64 h) with
      | Some j => <[j := e]> t
      | None => t
      end
  end.

(** [while (newsize <= minused) newsize <<= 1]. *)
Fixpoint grow (turns : nat) (newsize minused : Z) : Z :=
  match turns with
  | O => newsize
  | S turns' =>
      if newsize <=? minused then grow turns' (Z.shiftl newsize 1) minused
      else newsize
  end.

Definition set_table_resize (so : pyset) (minused : Z) : pyset :=
  let newsize := grow 64 PySet_MINSIZE minused in
  let newmask := newsize - 1 in
  let newtable :=
    foldl (λ t e, set_insert_clean t newmask e)
          (replicate (Z.to_nat newsize) Unused) (table so) in
  PySet newtable newmask (used so) (used so).

Definition set_add_entry (so : pyset) (key : string) (h : Z) : pyset :=
  match lookkey (probe_turns (table so)) (table so) (mask so)
          (Z.land (u64 h) (mask so)) (u64 h) h key with
  | FoundActive | NotFound => so
  | FoundUnused j =>
      let so := PySet (<[j := Active h key]> (table so)) (mask so)
                      (fill so + 1) (used so + 1) in
      if fill so * 5 <? mask so * 3 then so
      else set_table_resize so
             (if 50000 <? used so then used so * 2 else used so * 4)
  end.

(** [{x for x in items}]. *)
Definition set_of (k : secret) (items : list string) : pyset :=
  foldl (λ so x, set_add_entry so x (hash k x)) empty_set items.

Definition slot_key (e : slot) : option string :=
  match e with Active _ key => Some key | Unused => None end.

Definition keys_of (t : list slot) : list string := omap slot_key t.

(** [for x in s]: the active slots in table order. *)
Definition iterate (so : pyset) : list string := keys_of (table so).

(** *** What the table of a set is

    The vocabulary of the proof that a set holds what was added to it. *)

(** The next slot and the linear probes of a turn of [lookkey]. *)
Definition next_probe (mask i perturb : Z) : Z :=
  Z.land (u64 (i * 5 + 1 + Z.shiftr perturb PERTURB_SHIFT)) mask.

Definition probes_at (mask i : Z) : nat :=
  Z.to_nat (if i + LINEAR_PROBES <=? mask then LINEAR_PROBES else 0).

(** The recurrence [i = i * 5 + 1] of the probe sequence in a table of
    [2 ^ n] slots, once [perturb] is used up. *)
Definition lcg (n : nat) (i : Z) : Z := (i * 5 + 1) mod 2 ^ Z.of_nat n.

(** [1 + 5 + ... + 5 ^ (j - 1)]. *)
Definition geometric (j : nat) : Z := Nat.iter j (λ s, 5 * s + 1) 0.

(** A table of [2 ^ n] slots and its mask; indices are 64-bit words. *)
Definition sized (n : nat) (t : list slot) (mask : Z) : Prop :=
  (n ≤ 64)%nat ∧ mask = 2 ^ Z.of_nat n - 1 ∧ length t = (2 ^ n)%nat.

(** Every entry is found again from its hash. *)
Definition findable (t : list slot) (mask : Z) : Prop :=
  ∀ i h key, t !! i = Some (Active h key) →
    lookkey (probe_turns t) t mask (Z.land (u64 h) mask) (u64 h) h key = FoundActive.

(** Every entry is stored with the hash of its key. *)
Definition hashed (hf : string → Z) (t : list slot) : Prop :=
  ∀ i h key, t !! i = Some (Active h key) → h = hf key.

Record table_ok (hf : string → Z) (n : nat) (t : list slot) (mask : Z) : Prop := {
  ok_sized : sized n t mask;
  ok_hashed : hashed hf t;
  ok_findable : findable t mask;
  ok_NoDup : NoDup (keys_of t)
}.

(** The invariant of a set without deletions: the counters count the
    entries, and a slot is free. *)
Definition set_ok (hf : string → Z) (so : pyset) : Prop :=
  ∃ n, table_ok hf n (table so) (mask so)
       ∧ used so = Z.of_nat (length (keys_of (table so)))
       ∧ fill so = used so
       ∧ (length (keys_of (table so)) < length (table so))%nat.

End pyhash.

(** ** Strings *)

Definition NL : string := String "010" "".

(** [text.replace("\n", " ")]. *)
Fixpoint replace_newlines (text : string) : string :=
  match text with
  | "" => ""
  | String c rest =>
      String (if Ascii.eqb c "010" then " "%char else c) (replace_newlines rest)
  end.

(** ASCII white space, as [str.isspace] has it (the other Unicode spaces,
    several bytes each in UTF-8, are not recognised). *)
Definition is_space (c : ascii) : bool :=
  let n := Z.of_N (N_of_ascii c) in
  ((9 <=? n) && (n <=? 13)) || ((28 <=? n) && (n <=? 32)).

Fixpoint lstrip (s : bytes) : bytes :=
  match s with
  | c :: rest => if is_space c then lstrip rest else s
  | [] => []
  end.

(** [s.strip()]. *)
Definition strip (s : string) : string :=
  decode_utf8 (rev (lstrip (rev (lstrip (encode_utf8 s))))).


(** ** Data frames *)

(** A missing value is the float [nan]. *)
Definition NaN : scalar := SFloat "nan".

(** [pd.isna(v)]. *)
Definition isna (v : scalar) : bool :=
  match v with
  | SNone => true
  | SFloat r => bool_decide (r = "nan")
  | _ => false
  end.

(** A frame with the default index: the label of a row is its position.
    A row holds the values that are present; a column's value that a row
    does not hold is missing. *)
Record dataframe := DataFrame {
  columns : list string;
  rows : list (gmap string scalar)
}.

(** A row as [iterrows] hands it out: a copy, with the frame's columns of
    that moment. *)
Record series := Series {
  labels : list string;
  data : gmap string scalar
}.

(** [df.iterrows()]. *)
Definition iterrows (df : dataframe) : list (nat * series) :=
  imap (λ i r, (i, Series (columns df) r)) (rows df).

(** [row[col]]. *)
Definition series_item (row : series) (col : string) : result scalar :=
  if bool_decide (col ∈ labels row) then Ok (default NaN (data row !! col))
  else Raised (KeyError col).

(** [row.get(col, fallback)]. *)
Definition series_get (row : series) (col : string) (fallback : scalar) : scalar :=
  if bool_decide (col ∈ labels row) then default NaN (data row !! col)
  else fallback.

(** [df[col]]: the column, row by row. *)
Definition column (df : dataframe) (col : string) : result (list scalar) :=
  if bool_decide (col ∈ columns df)
  then Ok ((λ r : gmap string scalar, default NaN (r !! col)) <$> rows df)
  else Raised (KeyError col).

(** [df.at[idx, col] = v], [idx] a label of the frame: a column that is
    not there yet is added, missing in every other row. *)
Definition at_set (df : dataframe) (idx : nat) (col : string) (v : scalar) : dataframe :=
  if bool_decide (col ∈ columns df) then
    DataFrame (columns df)
              (alter (λ r : gmap string scalar, <[col := v]> r) idx (rows df))
  else
    DataFrame (columns df ++ [col])
              (alter (λ r : gmap string scalar, <[col := v]> r) idx
                     (delete col <$> rows df)).

(** [df[col] = values], the values row by row. *)
Definition set_column (df : dataframe) (col : string) (vs : list scalar) : dataframe :=
  DataFrame
    (if bool_decide (col ∈ columns df) then columns df else columns df ++ [col])
    (zip_with (λ (r : gmap string scalar) v, <[col := v]> r) (rows df) vs).

(** [a.fillna(b)], two columns of one frame. *)
Definition fillna (a b : list scalar) : list scalar :=
  zip_with (λ x y, if isna x then y else x) a b.

(** ** What the libraries do that is not reconstructed

    Floating point ([numpy]'s packing of a vector into 32-bit floats, the
    rounding of a distance), the text Python prints for a list or a
    dictionary, [pandas]' CSV serialiser and [pathlib]'s joining of path
    segments are taken as they come. *)
Record library := Library {
  float32_tobytes : json → result bytes;
  round3 : json → result string;
  repr : json → string;
  to_csv : dataframe → bytes;
  path_join : string → string → string
}.

(** [str(v)], [f"{v}"]. *)
Definition format_value (lib : library) (v : json) : string :=
  match v with
  | JVal x => py_str x
  | _ => repr lib v
  end.

(** ** The Redis notebook *)
Module redisjson.

Definition install_cell : M unit :=
  shell "pip install redis openai python-dotenv openai[datalib]".

(** [get_vector(text)]. *)
Definition get_vector (text : string) : M json :=
  let text := replace_newlines text in
  r ← call "openai.Embedding.create"
         (JObj [("input", JArr [jstr text]);
                ("model", jstr "text-embedding-3-small")]);
  lift (d ← subscript r "data"; d0 ← index d 0; subscript d0 "embedding").

Definition make_doc (text : string) : M json :=
  v ← get_vector text;
  mret (JObj [("content", jstr text); ("vector", v)]).

(** The cell "Create Text Vectors", from the three texts on. *)
Definition create_vectors_cell (text_1 text_2 text_3 : string) : M (json * json * json) :=
  doc_1 ← make_doc text_1;
  doc_2 ← make_doc text_2;
  doc_3 ← make_doc text_3;
  mret (doc_1, doc_2, doc_3).

Definition docker_cell : M unit := shell "docker compose up -d".

(** The cell "Connect Redis client". *)
Definition connect_cell : M json :=
  call "redis.ping" (JObj [("url", jstr "redis://localhost:6379")]).

(** The cell "Create Index". *)
Definition create_index_cell (doc_1 : json) : M json :=
  dim ← lift (v ← subscript doc_1 "vector"; items ← as_list v; Ok (length items));
  let schema :=
    JArr [JObj [("field", jstr "$.vector"); ("algorithm", jstr "FLAT");
                ("TYPE", jstr "FLOAT32"); ("DIM", JVal (SInt (Z.of_nat dim)));
                ("DISTANCE_METRIC", jstr "COSINE"); ("as_name", jstr "vector")];
          JObj [("field", jstr "$.content"); ("as_name", jstr "content")]] in
  let idx_def := JObj [("index_type", jstr "JSON"); ("prefix", JArr [jstr "doc:"])] in
  try_except (call "ft.dropindex" (JObj [("index", jstr "idx")]);; mret ())
             (λ _, mret ());;
  call "ft.create_index"
       (JObj [("index", jstr "idx"); ("schema", schema); ("definition", idx_def)]).

(** The cell "Load Data into Redis as JSON objects". *)
Definition load_data_cell (doc_1 doc_2 doc_3 : json) : M json :=
  let set key doc :=
    call "json.set" (JObj [("key", jstr key); ("path", jstr "$"); ("value", doc)]) in
  set "doc:1" doc_1;;
  set "doc:2" doc_2;;
  set "doc:3" doc_3.

(** The two search cells: they differ in the text and in the query. *)
Definition search_cell (lib : library) (text query : string) : M unit :=
  v ← get_vector text;
  vec ← lift (float32_tobytes lib v);
  results ← call "ft.search"
    (JObj [("index", jstr "idx"); ("query", jstr query);
           ("sort_by", jstr "vector_score");
           ("return_fields", JArr [jstr "vector_score"; jstr "content"]);
           ("dialect", JVal (SInt 2));
           ("query_params", JObj [("query_vec", jstr (decode_utf8 vec))])]);
  docs ← lift (d ← getattr results "docs"; as_list d);
  for_each docs (λ doc,
    distance ← lift (score ← subscript doc "vector_score"; round3 lib score);
    content ← lift (subscript doc "content");
    print ("distance:" +:+ distance +:+ " content:" +:+ format_value lib content +:+ NL)).

Definition semantic_search_cell (lib : library) (text_4 : string) : M unit :=
  search_cell lib text_4 "*=>[KNN 3 @vector $query_vec AS vector_score]".

Definition hybrid_search_cell (lib : library) (text_5 : string) : M unit :=
  search_cell lib text_5 "@content:recession => [KNN 3 @vector $query_vec AS vector_score]".

(** The two requests of the cell "Create Index", for a vector of [dim]
    components. *)
Definition drop_request : request :=
  Request "ft.dropindex" (JObj [("index", jstr "idx")]).

Definition create_request (dim : nat) : request :=
  Request "ft.create_index"
    (JObj [("index", jstr "idx");
           ("schema",
            JArr [JObj [("field", jstr "$.vector"); ("algorithm", jstr "FLAT");
                        ("TYPE", jstr "FLOAT32"); ("DIM", JVal (SInt (Z.of_nat dim)));
                        ("DISTANCE_METRIC", jstr "COSINE"); ("as_name", jstr "vector")];
                  JObj [("field", jstr "$.content"); ("as_name", jstr "content")]]);
           ("definition",
            JObj [("index_type", jstr "JSON"); ("prefix", JArr [jstr "doc:"])])]).

(** The line a search cell prints for a document. *)
Definition result_line (lib : library) (doc : json) : result string :=
  distance ← (score ← subscript doc "vector_score"; round3 lib score);
  content ← subscript doc "content";
  Ok ("distance:" +:+ distance +:+ " content:" +:+ format_value lib content +:+ NL).

End redisjson.

(** ** The image-understanding notebook *)
Module image_rag.

Definition install_cell : M unit :=
  shell "pip install openai evals pandas numpy matplotlib tqdm ipython --upgrade --quiet".

(** *** Example generations *)

Definition prompt : string :=
  "Gourmet pasta neatly plated with garnish and sides on a white ceramic plate, "
  +:+ "photographed from above on a restaurant table. Soft shadows and vibrant colors.".

(** [f".local_cache/{hash(prompt)}.png"], in a session with secret [k]. *)
Definition cache_path (k : pyhash.secret) : string :=
  ".local_cache/" +:+ pretty (pyhash.hash k prompt) +:+ ".png".

Definition generate_request : json :=
  JObj [("model", jstr "gpt-image-1"); ("prompt", jstr prompt);
        ("size", jstr "1024x1024")].

(** The cell that generates the example image, or takes it from the
    cache.  The file is opened before the response is decoded. *)
Definition generate_image_cell (k : pyhash.secret) : M unit :=
  cached ← path_exists (cache_path k);
  (if negb cached then
     response ← call "images.generate" generate_request;
     open_w (cache_path k);;
     image ← lift (d ← getattr response "data"; d0 ← index d 0;
                   b ← getattr d0 "b64_json"; b64 ← as_str b;
                   base64.b64decode b64);
     write (cache_path k) image;;
     print ("Generated and cached: " +:+ cache_path k)
   else
     print ("Loading from cache: " +:+ cache_path k));;
  display_image (cache_path k).

(** What the cell reads out of the response of the image service. *)
Definition image_of (response : json) : result bytes :=
  d ← getattr response "data"; d0 ← index d 0;
  b ← getattr d0 "b64_json"; b64 ← as_str b;
  base64.b64decode b64.

(** [generate_food_delivery_review(sentiment)]. *)
Definition generate_food_delivery_review (sentiment : string) : M json :=
  let prompt :=
    "Write a very concise, realistic customer review for a recent food delivery."
    +:+ " The review should reflect a " +:+ sentiment +:+ " experience." in
  response ← call "responses.create"
    (JObj [("model", jstr "gpt-4.1");
           ("input", JArr [JObj [("role", jstr "user"); ("content", jstr prompt)]])]);
  lift (getattr response "output_text").

Definition review_cell (lib : library) : M unit :=
  review ← generate_food_delivery_review "positive";
  print (format_value lib review).

(** *** Data processing *)

Definition dataset_url : string :=
  "https://raw.githubusercontent.com/robtinn/image_understanding_rag_dataset/main/data/".

(** The cell "Download the dataset". *)
Definition download_cell : M unit :=
  shell "mkdir -p .local_cache/images";;
  wget (dataset_url +:+ "df.csv") ".local_cache/df.csv";;
  for_each ["1"; "2"; "3"; "4"; "5"; "6"; "7"] (λ n,
    wget (dataset_url +:+ "images/" +:+ n +:+ ".png")
         (".local_cache/images/" +:+ n +:+ ".png")).

(** [encode_image(image_path)]. *)
Definition encode_image (image_path : string) : M string :=
  content ← read_rb image_path;
  mret (decode_utf8 (base64.b64encode content)).

Definition sentiment_request (base64_image : string) : json :=
  JObj [("model", jstr "gpt-4.1");
        ("input", JArr [JObj [("role", jstr "user");
          ("content", JArr [
             JObj [("type", jstr "input_text");
                   ("text", jstr ("Analyze this food delivery image. Respond with a brief "
                                  +:+ "description and sentiment (positive/negative) in one line."))];
             JObj [("type", jstr "input_image");
                   ("image_url", jstr ("data:image/jpeg;base64," +:+ base64_image))]])]]);
        ("max_output_tokens", JVal (SInt 50));
        ("temperature", JVal (SFloat "0.2"))].

(** [analyze_image_sentiment(image_path)]. *)
Definition analyze_image_sentiment (image_path : string) : M string :=
  base64_image ← encode_image image_path;
  response ← call "responses.create" (sentiment_request base64_image);
  lift (text ← getattr response "output_text";
        match text with
        | JVal (SStr s) => Ok (strip s)
        | _ => Raised (AttributeError "strip")
        end).

(** A value used as a path segment. *)
Definition as_segment (v : scalar) : result string :=
  match v with
  | SStr s => Ok s
  | _ => Raised TypeError
  end.

Definition has_image (row : nat * series) : bool :=
  negb (isna (default NaN (data row.2 !! "image_path"))).

(** The text that is stored for a row with an image. *)
Definition merged_text (text : scalar) (sentiment : string) : string :=
  if negb (isna text) then py_str text +:+ " " +:+ sentiment else sentiment.

Definition image_file (lib : library) (name : string) : string :=
  path_join lib (path_join lib ".local_cache" "images") name.

(** The body of the loop over the rows that have an image. *)
Definition merge_row (lib : library) (df : dataframe) (ir : nat * series) : M dataframe :=
  name ← lift (v ← series_item ir.2 "image_path"; as_segment v);
  let image_path := image_file lib name in
  sentiment ← analyze_image_sentiment image_path;
  text ← lift (series_item ir.2 "text");
  let df := at_set df ir.1 "full_sentiment" (SStr (merged_text text sentiment)) in
  shown ← lift (series_item ir.2 "image_path");
  print ("Processed " +:+ py_str shown);;
  mret df.

(** A row's [full_sentiment] is the row's text and the sentiment that
    [analyze_image_sentiment] returned for its image, in some run against
    the service. *)
Definition merged (lib : library) (svc : service) (row : series)
    (full_sentiment : option scalar) : Prop :=
  ∃ name sentiment text wa wb,
    series_item row "image_path" = Ok (SStr name)
    ∧ analyze_image_sentiment (image_file lib name) svc wa = (wb, Ok sentiment)
    ∧ series_item row "text" = Ok text
    ∧ full_sentiment = Some (SStr (merged_text text sentiment)).

(** The cell that merges the image sentiments into the frame, from the
    frame [pd.read_csv] returned on. *)
Definition merge_cell (lib : library) (df : dataframe) : M dataframe :=
  lift (column df "image_path");;
  df ← for_fold (List.filter has_image (iterrows df)) df (merge_row lib);
  full ← lift (column df "full_sentiment");
  text ← lift (column df "text");
  let df := set_column df "full_sentiment" (fillna full text) in
  let output_path := path_join lib ".local_cache" "df_full_sentiment.csv" in
  open_w output_path;;
  write output_path (to_csv lib df);;
  print (NL +:+ "Saved results to " +:+ output_path);;
  mret df.

(** *** Populating the vector stores *)

Definition create_store (name purpose : string) : M json :=
  store ← call "vector_stores.create"
    (JObj [("name", jstr name);
           ("metadata", JObj [("purpose", jstr purpose);
                              ("created_by", jstr "notebook");
                              ("version", jstr "1.0")])]);
  lift (getattr store "id").

Definition create_stores_cell (lib : library) : M (json * json) :=
  text_vector_store_id ← create_store "food_delivery_reviews_text" "text_understanding";
  text_image_vector_store_id ←
    create_store "food_delivery_reviews_text_image" "text_image_understanding";
  print "Vector Store IDs:";;
  print ("  Text:       " +:+ format_value lib text_vector_store_id);;
  print ("  Text+Image: " +:+ format_value lib text_image_vector_store_id);;
  mret (text_vector_store_id, text_image_vector_store_id).

Definition placeholder : string := "No information available.".

(** The content of the file uploaded for a row. *)
Definition context_of (v : scalar) : result bytes :=
  if isna v then Ok (encode_utf8 placeholder)
  else match v with
       | SStr s => Ok (encode_utf8 s)
       | _ => Raised (AttributeError "encode")
       end.

Definition context_name (ir : nat * series) : string :=
  "context_" +:+ py_str (series_get ir.2 "id" (SInt (Z.of_nat ir.1)))
  +:+ "_" +:+ py_str (series_get ir.2 "month" (SStr "")) +:+ ".txt".

Definition upload_request (vector_store_id : json) (name : string) (content : bytes) : json :=
  JObj [("vector_store_id", vector_store_id);
        ("file", JObj [("name", jstr name); ("content", jstr (decode_utf8 content))])].

Definition upload_row (vector_store_id : json) (column_name : string)
    (file_ids : list json) (ir : nat * series) : M (list json) :=
  content ← lift (v ← series_item ir.2 column_name; context_of v);
  file ← call "vector_stores.files.upload"
              (upload_request vector_store_id (context_name ir) content);
  id ← lift (getattr file "id");
  mret (file_ids ++ [id]).

Definition update_row (vector_store_id : json) (file_ids : list json)
    (ir : nat * series) : M unit :=
  file_id ← getitem file_ids ir.1;
  month ← lift (series_item ir.2 "month");
  call "vector_stores.files.update"
       (JObj [("vector_store_id", vector_store_id); ("file_id", file_id);
              ("attributes", JObj [("month", JVal month)])]);;
  mret ().

(** The request [update_row] sends for a file. *)
Definition update_request (vector_store_id file_id : json) (month : scalar) : request :=
  Request "vector_stores.files.update"
    (JObj [("vector_store_id", vector_store_id); ("file_id", file_id);
           ("attributes", JObj [("month", JVal month)])]).

(** [upload_files_to_vector_store(vector_store_id, df, column_name)]. *)
Definition upload_files_to_vector_store (vector_store_id : json) (df : dataframe)
    (column_name : string) : M unit :=
  file_ids ← for_fold (iterrows df) [] (upload_row vector_store_id column_name);
  for_each (iterrows df) (update_row vector_store_id file_ids).

Definition upload_cell (text_vector_store_id text_image_vector_store_id : json)
    (df : dataframe) : M unit :=
  upload_files_to_vector_store text_image_vector_store_id df "full_sentiment";;
  upload_files_to_vector_store text_vector_store_id df "text".

(** *** Retrieval and filtering *)

Definition dashes : string := "----------------------------------------".

(** The three query cells: they differ in the store, the query and the
    month. *)
Definition query_cell (lib : library) (vector_store_id : json) (query month : string) : M json :=
  print ("🔍 Query: " +:+ query +:+ NL);;
  response ← call "responses.create"
    (JObj [("model", jstr "gpt-4.1"); ("input", jstr query);
           ("tools", JArr [JObj [("type", jstr "file_search");
                                 ("vector_store_ids", JArr [vector_store_id]);
                                 ("filters", JObj [("type", jstr "eq");
                                                   ("key", jstr "month");
                                                   ("value", jstr month)])]])]);
  print "📝 Response:";;
  print dashes;;
  text ← lift (getattr response "output_text");
  print (format_value lib text);;
  mret response.

Definition spaghetti : string := "Where there any comments about the 'spaghetti'?".
Definition pizza : string :=
  "Were there any negative reviews for pizza, and if so, was the pizza burnt?".

(** [d[key] = v] on a dictionary in insertion order. *)
Fixpoint dict_set {V} (d : dict V) (key : string) (v : V) : dict V :=
  match d with
  | [] => [(key, v)]
  | (k', v') :: d' =>
      if decide (k' = key) then (k', v) :: d' else (k', v') :: dict_set d' key v
  end.

(** [IMAGE_ID_MAPPING]. *)
Definition image_id_mapping (df : dataframe) : result (dict scalar) :=
  column df "image_path" ≫= λ _,
  foldl (λ (acc : result (dict scalar)) (ir : nat * series),
           m ← acc;
           id ← series_item ir.2 "id";
           month ← series_item ir.2 "month";
           path ← series_item ir.2 "image_path";
           Ok (dict_set m ("context_" +:+ py_str id +:+ "_" +:+ py_str month +:+ ".txt") path))
        (Ok []) (List.filter has_image (iterrows df)).

(** The image a row names. *)
Definition image_of_row (ir : nat * series) : scalar :=
  default NaN (data ir.2 !! "image_path").

(** One entry of the comprehension that builds [IMAGE_ID_MAPPING]. *)
Definition mapping_step (acc : result (dict scalar)) (ir : nat * series)
    : result (dict scalar) :=
  m ← acc;
  id ← series_item ir.2 "id";
  month ← series_item ir.2 "month";
  path ← series_item ir.2 "image_path";
  Ok (dict_set m ("context_" +:+ py_str id +:+ "_" +:+ py_str month +:+ ".txt") path).

(** Whether a value counts as true in a condition. *)
Definition truthy (v : scalar) : bool :=
  match v with
  | SNone => false
  | SBool b => b
  | SInt z => negb (z =? 0)
  | SFloat r => negb (bool_decide (r = "0.0") || bool_decide (r = "-0.0"))
  | SStr s => negb (bool_decide (s = ""))
  end.

(** The file names of the annotations of a response; file names are
    strings. *)
Definition annotation_files (response : json) : result (list string) :=
  output ← getattr response "output";
  message ← index output 1;
  content ← getattr message "content";
  part ← index content 0;
  annotations ← getattr part "annotations";
  items ← as_list annotations;
  foldr (λ item (acc : result (list string)),
           name ← (f ← getattr item "filename"; as_str f);
           names ← acc;
           Ok (name :: names)) (Ok []) items.

(** The body of the loop over the retrieved files. *)
Definition display_file (lib : library) (mapping : dict scalar) (cache_dir : string)
    (displayed_images : dict string) (file : string) : M (dict string) :=
  match dict_get mapping file with
  | Some v =>
      if truthy v then
        name ← lift (as_segment v);
        let image_path := path_join lib (path_join lib cache_dir "images") name in
        print ("Displaying image for " +:+ file +:+ ":");;
        display_image image_path;;
        mret (dict_set displayed_images file image_path)
      else mret displayed_images
  | None => mret displayed_images
  end.

(** [display_retrieved_images(response)], in a session with secret [k]:
    the retrieved files are a set, gone through in the order the set
    gives them. *)
Definition display_retrieved_images (k : pyhash.secret) (lib : library)
    (mapping : dict scalar) (response : json) : M (dict string) :=
  retrieved ← try_except
    (files ← lift (annotation_files response);
     mret (Some (pyhash.set_of k files)))
    (λ e, match e with
          | AttributeError _ | IndexError =>
              print "No search results found in the response.";; mret None
          | _ => raise e
          end);
  match retrieved with
  | None => mret []
  | Some retrieved_files =>
      for_fold (pyhash.iterate retrieved_files) []
               (display_file lib mapping ".local_cache")
  end.

Definition display_cell (k : pyhash.secret) (lib : library) (mapping : dict scalar)
    (response : json) : M (dict string) :=
  displayed ← display_retrieved_images k lib mapping response;
  print ("Displayed " +:+ pretty (Z.of_nat (length displayed)) +:+ " images");;
  mret displayed.


(** What a turn of the loop of [display_retrieved_images] that completes
    adds for a file: nothing, or the file with the path of its image. *)
Definition displayed_entry (lib : library) (mapping : dict scalar) (cache_dir : string)
    (file : string) : option (string * string) :=
  match dict_get mapping file with
  | Some (SStr name) =>
      if truthy (SStr name)
      then Some (file, path_join lib (path_join lib cache_dir "images") name)
      else None
  | _ => None
  end.

Definition displayed_items (e : string * string) : list out_item :=
  [Printed ("Displaying image for " +:+ e.1 +:+ ":"); DisplayedImage e.2].

(** [displayed_images[file] = image_path], for an entry. *)
Definition add_entry (d : dict string) (e : string * string) : dict string :=
  dict_set d e.1 e.2.

(** *** Evaluation *)

(** [prepare_evaluation_data(df, text_col, label_col)]. *)
Definition prepare_evaluation_data (df : dataframe)
    (text_col label_col : string) : result (list json) :=
  foldr (λ (ir : nat * series) (acc : result (list json)),
           text ← series_item ir.2 text_col;
           label ← series_item ir.2 label_col;
           items ← acc;
           Ok (JObj [("item", JObj [("input", jstr (py_str text));
                                    ("ground_truth", JVal label)])] :: items))
        (Ok []) (iterrows df).

(** The item [prepare_evaluation_data] makes of a row. *)
Definition evaluation_item (text_col label_col : string) (row : gmap string scalar) : json :=
  JObj [("item", JObj [("input", jstr (py_str (default NaN (row !! text_col))));
                       ("ground_truth", JVal (default NaN (row !! label_col)))])].

(** [create_eval_run(evaluation_data, eval_id)]. *)
Definition create_eval_run (lib : library) (evaluation_data : list json) (eval_id : json) : M json :=
  let eval_config :=
    JObj [("type", jstr "completions"); ("model", jstr "gpt-4.1");
          ("input_messages", JObj [("type", jstr "template");
             ("template", JArr [JObj [("type", jstr "message"); ("role", jstr "user");
                ("content", JObj [("type", jstr "input_text");
                   ("text", jstr ("Classify the sentiment of this food delivery review: {{ item.input }}. "
                      +:+ "Categorize the request into one of " +:+ String "034" "positive"
                      +:+ String "034" ", " +:+ String "034" "negative" +:+ String "034" " or "
                      +:+ String "034" "unclear" +:+ String "034" ". "
                      +:+ "Respond with only one of those words."))])]])]);
          ("source", JObj [("type", jstr "file_content");
                           ("content", JArr evaluation_data)])] in
  run ← call "evals.runs.create"
             (JObj [("eval_id", eval_id); ("data_source", eval_config)]);
  print "✅ Evaluation run created successfully";;
  id ← lift (getattr run "id");
  print ("Run ID: " +:+ format_value lib id);;
  mret id.

Definition create_eval_cell : M json :=
  eval_obj ← call "evals.create"
    (JObj [("name", jstr "food-categorization-eval");
           ("data_source_config", JObj [("type", jstr "custom");
              ("item_schema", JObj [("type", jstr "object");
                 ("properties", JObj [("input", JObj [("type", jstr "string")]);
                                      ("ground_truth", JObj [("type", jstr "string")])]);
                 ("required", JArr [jstr "input"; jstr "ground_truth"])]);
              ("include_sample_schema", JVal (SBool true))]);
           ("testing_criteria", JArr [JObj [("type", jstr "string_check");
              ("name", jstr "Match output to human label");
              ("input", jstr "{{sample.output_text}}");
              ("reference", jstr "{{item.ground_truth}}");
              ("operation", jstr "eq")]])]);
  lift (getattr eval_obj "id").

Definition report_url (lib : library) (eval_id run_id : json) : M unit :=
  run ← call "evals.runs.retrieve" (JObj [("eval_id", eval_id); ("run_id", run_id)]);
  url ← lift (subscript run "report_url");
  print (format_value lib url).

(** The cell "create evaluation runs". *)
Definition eval_runs_cell (lib : library) (df : dataframe) (eval_id : json) : M (json * json) :=
  evaluation_data ← lift (prepare_evaluation_data df "text" "label");
  text_only_run_id ← create_eval_run lib evaluation_data eval_id;
  evaluation_data ← lift (prepare_evaluation_data df "full_sentiment" "label");
  text_image_run_id ← create_eval_run lib evaluation_data eval_id;
  report_url lib eval_id text_only_run_id;;
  report_url lib eval_id text_image_run_id;;
  mret (text_only_run_id, text_image_run_id).

Definition output_items_cell (eval_id text_only_run_id text_image_run_id : json) : M (json * json) :=
  text_only ← call "evals.runs.output_items.list"
                   (JObj [("eval_id", eval_id); ("run_id", text_only_run_id)]);
  text_image ← call "evals.runs.output_items.list"
                    (JObj [("eval_id", eval_id); ("run_id", text_image_run_id)]);
  mret (text_only, text_image).

(** The cells that read the output items of a run, from
    [run_output_items.to_dict()] on.  The average of the token counts and
    the plot are floating point and are not reconstructed. *)

(** Whether a value counts as true in a condition. *)
Definition json_truthy (v : json) : bool :=
  match v with
  | JVal x => truthy x
  | JArr [] | JObj [] => false
  | JArr _ | JObj _ => true
  end.

(** [output_item['results'][0]['passed']], as a condition. *)
Definition passed (output_item : json) : result bool :=
  results ← subscript output_item "results";
  first ← item_at results 0;
  p ← subscript first "passed";
  Ok (json_truthy p).

(** [sum(1 for output_item in data if output_item['results'][0]['passed'])]. *)
Definition count_passed (data : list json) : result Z :=
  foldr (λ output_item (acc : result Z),
           p ← passed output_item;
           (λ n : Z, if p : bool then 1 + n else n) <$> acc) (Ok 0) data.

(** The passed and the total of a run. *)
Definition passed_and_total (output_items : json) : result (Z * Z) :=
  data ← subscript output_items "data";
  data ← py_iter data;
  p ← count_passed data;
  Ok (p, Z.of_nat (length data)).

(** What [failed_samples] holds for a sample: nothing when it passed. *)
Definition failed_row (sample : json) : result (option json) :=
  passed sample ≫= λ p : bool,
  if p then Ok None
  else s ← subscript sample "sample";
       input ← subscript s "input";
       s ← subscript sample "sample";
       output ← subscript s "output";
       Ok (Some (JObj [("Input", input); ("Model Output", output)])).

(** The rows of [failed_samples]. *)
Definition failed_samples (output_items : json) : result (list json) :=
  data ← subscript output_items "data";
  data ← py_iter data;
  foldr (λ sample (acc : result (list json)),
           row ← failed_row sample;
           (λ rows, option_list row ++ rows) <$> acc) (Ok []) data.

(** The cell that cleans up. *)
Definition delete_cell (lib : library) (text_vector_store_id text_image_vector_store_id : json) : M unit :=
  deleted ← call "vector_stores.delete" (JObj [("vector_store_id", text_vector_store_id)]);
  print (format_value lib deleted);;
  deleted ← call "vector_stores.delete"
                 (JObj [("vector_store_id", text_image_vector_store_id)]);
  print (format_value lib deleted).

End image_rag.

(** ** SQL notebook: records to CSV, CSV to base64 *)

(** A database record as [json.loads] returns it. *)
Abbreviation record := (dict scalar).

Definition csv_file : string := "output.csv".

(** The cell "Convert records into a CSV format", from [data] on. *)
Definition json_to_csv_cell (data : list record) : M unit :=
  open_w csv_file;;
  first ← getitem data 0;
  csv.writerow csv_file (SStr <$> keys first);;
  for_each data (λ row, csv.writerow csv_file (values row));;
  print ("JSON data has been written to " +:+ csv_file).

(** The cell "Base64-encode the CSV file". *)
Definition encode_csv_cell : M string :=
  content ← read_rb csv_file;
  let encoded_string := decode_utf8 (base64.b64encode content) in
  print "Base64 Encoded CSV:";;
  print encoded_string;;
  mret encoded_string.

(** The response body the middleware returns: the file in its envelope. *)
Definition file_response (encoded_string : string) : json :=
  JObj [("openaiFileResponse",
         JArr [JObj [("name", jstr csv_file); ("mime_type", jstr "text/csv");
                     ("content", jstr encoded_string)]])].

(** *** The action's endpoint *)
Module gateway.

(** The responses the OpenAPI schema of [POST /api/query] declares. *)
Definition declared_responses : list (Z * string) :=
  [ (200, "database records");
    (400, "Bad Request. Invalid input.");
    (401, "Unauthorized. Invalid or missing API key.") ].

Record http_response := HttpResponse { status_code : Z; body : json }.

Inductive category :=
| ClientError
| AuthError
| OtherFailure.

Record ServiceError := { status : Z; kind : category }.

Definition is_success (status : Z) : bool := (200 <=? status) && (status <? 300).

(** Modelled from the spec: the category of a non-success status.  The
    spec names two, the client error of a malformed query (400) and the
    auth error of a missing or invalid credential (401). *)
Definition category_of (status : Z) : category :=
  if status =? 401 then AuthError
  else if (400 <=? status) && (status <? 500) then ClientError
  else OtherFailure.

(** Modelled from the spec: the External Service Client for the action
    gateway, of which the repository holds only the endpoint's schema.  It
    returns the parsed response, or fails with a [ServiceError] when the
    endpoint returns a non-success status. *)
Definition client (r : http_response) : ServiceError + json :=
  if is_success (status_code r) then inr (body r)
  else inl {| status := status_code r; kind := category_of (status_code r) |}.

End gateway.

(** What the claims about the table speak of. *)

(** Every record has a field, and no field has an empty name or an empty
    text. *)
Definition nonempty_fields (data : list record) : bool :=
  forallb (λ r : record,
    negb (bool_decide (r = []))
    && forallb (λ kv : string * scalar,
         negb (bool_decide (kv.1 = "")) &&
         negb (bool_decide (csv.field_text kv.2 = ""))) r) data.

(** Every record has the field names of the first, in the same order. *)
Definition uniform_keys (data : list record) : bool :=
  match data with
  | [] => true
  | first :: _ => forallb (λ r : record, bool_decide (keys r = keys first)) data
  end.

(** The records with every value as the text the writer gives it. *)
Definition record_texts (data : list record) : list (dict string) :=
  (λ r : record, prod_map id csv.field_text <$> r) <$> data.

(** The rows the cell hands to the writer: the header, then the records. *)
Definition table_of (first : record) (data : list record) : list (list bytes) :=
  (encode_utf8 <$> keys first)
  :: ((λ r : record, encode_utf8 ∘ csv.field_text <$> values r) <$> data).

(** The two records of the cell's [json_data]. *)
Definition sample_data : list record :=
  [ [("account_id", SInt 1); ("number_of_users", SInt 10);
     ("total_revenue", SFloat "43803.96"); ("revenue_per_user", SFloat "4380.4")];
    [("account_id", SInt 2); ("number_of_users", SInt 12);
     ("total_revenue", SFloat "77814.84"); ("revenue_per_user", SFloat "6484.57")] ].

(** ** What the claims about failures speak of *)

(** A failure of an external call propagates out of [c] at once: in every
    run of [c], a logged call that failed, unless [exempt], is the last
    call of the run, and the run ends raising that failure. *)
Definition propagates_except (exempt : request → bool) {A} (c : M A) : Prop :=
  ∀ svc w, ∃ evs,
    calls (c svc w).1 = calls w ++ evs
    ∧ ∀ i req d,
        evs !! i = Some (req, Failed d) → exempt req = false →
        S i = length evs ∧ (c svc w).2 = Raised (ExternalError d).

(** Computations that make no external call. *)
Definition silent {A} (c : M A) : Prop := ∀ svc w, calls (c svc w).1 = calls w.

(** A computation that only writes to the output area: what it appends
    and what it returns depend neither on the world nor on the services. *)
Definition writer {A} (c : M A) : Prop :=
  ∃ out r, ∀ svc w, c svc w = (World (files w) (output w ++ out) (calls w), r).

(** The code cells of the three notebooks, and the functions they define,
    for all the values of the variables they read. *)
Inductive notebook_cell : ∀ A : Type, M A → Prop :=
| sql_json_to_csv data : notebook_cell _ (json_to_csv_cell data)
| sql_encode_csv : notebook_cell _ encode_csv_cell
| redis_install : notebook_cell _ redisjson.install_cell
| redis_get_vector text : notebook_cell _ (redisjson.get_vector text)
| redis_create_vectors t1 t2 t3 : notebook_cell _ (redisjson.create_vectors_cell t1 t2 t3)
| redis_docker : notebook_cell _ redisjson.docker_cell
| redis_connect : notebook_cell _ redisjson.connect_cell
| redis_create_index doc : notebook_cell _ (redisjson.create_index_cell doc)
| redis_load_data d1 d2 d3 : notebook_cell _ (redisjson.load_data_cell d1 d2 d3)
| redis_semantic_search lib text : notebook_cell _ (redisjson.semantic_search_cell lib text)
| redis_hybrid_search lib text : notebook_cell _ (redisjson.hybrid_search_cell lib text)
| rag_install : notebook_cell _ image_rag.install_cell
| rag_generate_image k : notebook_cell _ (image_rag.generate_image_cell k)
| rag_generate_review s : notebook_cell _ (image_rag.generate_food_delivery_review s)
| rag_review lib : notebook_cell _ (image_rag.review_cell lib)
| rag_download : notebook_cell _ image_rag.download_cell
| rag_encode_image path : notebook_cell _ (image_rag.encode_image path)
| rag_analyze path : notebook_cell _ (image_rag.analyze_image_sentiment path)
| rag_merge lib df : notebook_cell _ (image_rag.merge_cell lib df)
| rag_create_stores lib : notebook_cell _ (image_rag.create_stores_cell lib)
| rag_upload_files id df col :
    notebook_cell _ (image_rag.upload_files_to_vector_store id df col)
| rag_upload id1 id2 df : notebook_cell _ (image_rag.upload_cell id1 id2 df)
| rag_query lib id query month : notebook_cell _ (image_rag.query_cell lib id query month)
| rag_display_images k lib mapping response :
    notebook_cell _ (image_rag.display_retrieved_images k lib mapping response)
| rag_display k lib mapping response :
    notebook_cell _ (image_rag.display_cell k lib mapping response)
| rag_create_eval_run lib data id : notebook_cell _ (image_rag.create_eval_run lib data id)
| rag_create_eval : notebook_cell _ image_rag.create_eval_cell
| rag_eval_runs lib df id : notebook_cell _ (image_rag.eval_runs_cell lib df id)
| rag_output_items id r1 r2 : notebook_cell _ (image_rag.output_items_cell id r1 r2)
| rag_delete lib id1 id2 : notebook_cell _ (image_rag.delete_cell lib id1 id2).

(** A Redis that has no index yet: the drop fails, all else succeeds. *)
Definition fresh_redis : service := λ _ req,
  if bool_decide (endpoint req = "ft.dropindex") then Failed "Unknown Index name"
  else Returned (jstr "OK").

Definition sample_doc : json :=
  JObj [("content", jstr "Japan narrowly escapes recession");
        ("vector", JArr [JVal (SFloat "0.1"); JVal (SFloat "0.2")])].

(** A frame of one review that has a month and no text, and a store that
    numbers the files it is sent. *)
Definition textless_frame : dataframe :=
  DataFrame ["id"; "month"; "full_sentiment"]
            [ {[ "id" := SInt 1; "month" := SStr "july" ]} ].

Definition file_store : service := λ log _,
  Returned (JObj [("id", jstr ("file-" +:+ pretty (Z.of_nat (length log))))]).

(** An image service that answers every request with a three-byte image. *)
Definition image_service : service := λ _ _,
  Returned (JObj [("data", JArr [JObj [("b64_json", jstr "QUJD")]])]).

(** A stand-in for the libraries: paths are joined with a slash, the rest
    returns nothing of interest. *)
Definition plain_library : library :=
  {| float32_tobytes := λ _, Ok [];
     round3 := λ _, Ok "0.0";
     repr := λ _, "...";
     to_csv := λ _, [];
     path_join := λ a b, a +:+ "/" +:+ b |}.

(** Three reviews: a text with an image, an image alone, a text alone. *)
Definition reviews : dataframe :=
  DataFrame ["id"; "month"; "text"; "image_path"; "label"]
    [ {[ "id" := SInt 1; "month" := SStr "june"; "text" := SStr "The pizza was late.";
         "image_path" := SStr "1.png"; "label" := SStr "negative" ]};
      {[ "id" := SInt 2; "month" := SStr "july";
         "image_path" := SStr "2.png"; "label" := SStr "positive" ]};
      {[ "id" := SInt 3; "month" := SStr "july"; "text" := SStr "Great spaghetti!";
         "label" := SStr "positive" ]} ].

(** The two images on disk, and a model that finds every image burnt. *)
Definition stocked_world : world :=
  World {[ ".local_cache/images/1.png" := encode_utf8 "PNG1";
           ".local_cache/images/2.png" := encode_utf8 "PNG2" ]} [] [].

Definition sentiment_service : service := λ _ _,
  Returned (JObj [("output_text", jstr (" Burnt pizza, negative." +:+ NL))]).

(** A response that cites three files, and the images of those files. *)
Definition july_response : json :=
  let cite name := JObj [("type", jstr "file_citation"); ("filename", jstr name)] in
  JObj [("output",
         JArr [JObj [("type", jstr "file_search_call")];
               JObj [("type", jstr "message");
                     ("content",
                      JArr [JObj [("type", jstr "output_text");
                                  ("annotations",
                                   JArr [cite "context_1_july.txt";
                                         cite "context_2_july.txt";
                                         cite "context_3_july.txt"])]])]])].

Definition july_mapping : dict scalar :=
  [ ("context_1_july.txt", SStr "1.png");
    ("context_2_july.txt", SStr "2.png");
    ("context_3_july.txt", SStr "3.png") ].

(** An image service whose answer is not base64. *)
Definition broken_image_service : service := λ _ _,
  Returned (JObj [("data", JArr [JObj [("b64_json", jstr "QUJ")]])]).

(** Reviews without a single image. *)
Definition text_reviews : dataframe :=
  DataFrame ["id"; "month"; "text"; "image_path"; "label"]
    [ {[ "id" := SInt 3; "month" := SStr "july"; "text" := SStr "Great spaghetti!";
         "label" := SStr "positive" ]} ].

(** An embedding service and an index that holds one document. *)
Definition search_service : service := λ _ req,
  if bool_decide (endpoint req = "openai.Embedding.create")
  then Returned (JObj [("data", JArr [JObj [("embedding", JArr [JVal (SFloat "0.1")])]])])
  else Returned (JObj [("docs", JArr [JObj [("vector_score", jstr "0.188");
                                            ("content", jstr "Japan narrowly escapes recession")]])]).

(** The output items of a run of two samples, one passed. *)
Definition two_output_items : json :=
  let item ok input output :=
    JObj [("results", JArr [JObj [("passed", JVal (SBool ok))]]);
          ("sample", JObj [("input", jstr input); ("output", jstr output)])] in
  JObj [("data", JArr [item true "Great spaghetti!" "positive";
                       item false "nan" "unclear"])].

(** Two records with the same fields in different orders. *)
Definition reordered_data : list record :=
  [ [("a", SStr "1"); ("b", SStr "2")]; [("b", SStr "3"); ("a", SStr "4")] ].

Definition no_service : service := λ _ _, Failed "unreachable".

(* ================================================================== *)
(** * Part II.  Properties                                             *)
(* ================================================================== *)

(** ** Running cells *)

Lemma bind_run {A B} (m : M A) (k : A → M B) svc w :
  (m ≫= k) svc w
  = match m svc w with
    | (w', Ok a) => k a svc w'
    | (w', Raised e) => (w', Raised e)
    end.
Proof. done. Qed.

(** ** The CSV reader undoes the CSV writer *)

Section csv_round_trip.
Import csv.
Local Arguments Ascii.eqb : simpl never.

Lemma special_false c :
  special c = false → c ≠ delimiter ∧ c ≠ quotechar ∧ c ≠ CR ∧ c ≠ LF.
Proof.
  unfold special, lineterminator; simpl. intros H.
  repeat (apply orb_false_elim in H as [H ?]).
  repeat split; intros ->; discriminate.
Qed.

Lemma join_append_data_quoted f :
  (join_append_data f).2 = existsb special f.
Proof.
  induction f as [|c f IH]; [done|]. simpl.
  destruct (join_append_data f) as [copied quoted]; simpl in *.
  by destruct (special c).
Qed.

Lemma join_append_data_plain f :
  existsb special f = false → (join_append_data f).1 = f.
Proof.
  induction f as [|c f IH]; [done|]. simpl. intros [Hc Hf]%orb_false_elim.
  destruct (join_append_data f) as [copied quoted]; simpl in *.
  rewrite Hc. simpl. by rewrite IH.
Qed.

Lemma join_append_data_cons c f :
  (join_append_data (c :: f)).1
  = (if Ascii.eqb c quotechar then [quotechar; quotechar] else [c])
    ++ (join_append_data f).1.
Proof.
  simpl. destruct (join_append_data f) as [copied quoted]; simpl.
  destruct (Ascii.eqb c quotechar) eqn:Hq.
  - apply Ascii.eqb_eq in Hq as ->. done.
  - by destruct (special c).
Qed.

(** Steps of the reader. *)

Lemma read_from_cons r c rest :
  read_from r (c :: rest)
  = r1 ← parse_process_char r (Some c);
    if line_ends c rest then
      r2 ← parse_process_char r1 None;
      if decide (state r2 = START_RECORD)
      then (fields r2 ::.) <$> read_from parse_reset rest
      else read_from r2 rest
    else read_from r1 rest.
Proof. done. Qed.


Lemma read_from_next r c c' rest r1 :
  parse_process_char r (Some c) = Ok r1 →
  c ≠ LF → c ≠ CR →
  read_from r (c :: c' :: rest) = read_from r1 (c' :: rest).
Proof.
  intros Hstep HLF HCR. rewrite read_from_cons, Hstep.
  unfold mbind, result_bind, line_ends.
  apply Ascii.eqb_neq in HLF, HCR. by rewrite HLF, HCR.
Qed.

Lemma read_from_in_quoted cur fs c rest :
  c ≠ quotechar →
  read_from (Reader IN_QUOTED_FIELD cur fs) (c :: rest)
  = read_from (Reader IN_QUOTED_FIELD (cur ++ [c]) fs) rest.
Proof.
  intros Hq%Ascii.eqb_neq. rewrite read_from_cons. unfold parse_process_char. simpl state.
  rewrite Hq. unfold mbind, result_bind. 
  by destruct (line_ends c rest).
Qed.

Lemma read_quoted f : ∀ cur fs tail,
  tail ≠ [] →
  read_from (Reader IN_QUOTED_FIELD cur fs)
            ((join_append_data f).1 ++ quotechar :: tail)
  = read_from (Reader QUOTE_IN_QUOTED_FIELD (cur ++ f) fs) tail.
Proof.
  induction f as [|c f IH]; intros cur fs tail Htail.
  - destruct tail as [|t tail]; [done|]. rewrite app_nil_r.
    by apply read_from_next.
  - rewrite join_append_data_cons.
    replace (cur ++ c :: f) with ((cur ++ [c]) ++ f) by (by rewrite <- app_assoc).
    rewrite <- IH; [|done].
    destruct (Ascii.eqb c quotechar) eqn:Hq.
    + apply Ascii.eqb_eq in Hq as ->. simpl app.
      erewrite read_from_next; [|done..].
      destruct ((join_append_data f).1 ++ quotechar :: tail) as [|x rest] eqn:E.
      { by destruct ((join_append_data f).1). }
      by erewrite read_from_next.
    + apply Ascii.eqb_neq in Hq. simpl app. by apply read_from_in_quoted.
Qed.

Lemma read_plain f : ∀ cur fs tail,
  existsb special f = false → tail ≠ [] →
  read_from (Reader IN_FIELD cur fs) (f ++ tail)
  = read_from (Reader IN_FIELD (cur ++ f) fs) tail.
Proof.
  induction f as [|c f IH]; intros cur fs tail Hf Htail.
  - by rewrite app_nil_r.
  - simpl in Hf. apply orb_false_elim in Hf as [Hc Hf].
    apply special_false in Hc as (Hd & Hq & HCR & HLF).
    replace (cur ++ c :: f) with ((cur ++ [c]) ++ f) by (by rewrite <- app_assoc).
    rewrite <- IH; [|done..]. simpl app.
    destruct (f ++ tail) as [|x rest] eqn:E.
    { by destruct f. }
    apply read_from_next; [|done..].
    unfold parse_process_char, is_newline. simpl state.
    apply Ascii.eqb_neq in Hd, HCR, HLF.
    by rewrite HLF, HCR, Hd.
Qed.

Lemma read_field st fs f tail :
  st = START_RECORD ∨ st = START_FIELD →
  tail ≠ [] →
  ∃ st', read_from (Reader st [] fs) (join_append f ++ tail)
         = read_from (Reader st' f fs) tail
      ∧ (field_over st' f ∨ (st' = START_RECORD ∧ st = START_RECORD ∧ f = [])).
Proof.
  intros Hst Htail. unfold join_append.
  pose proof (join_append_data_quoted f) as Hquoted.
  destruct (join_append_data f) as [copied quoted] eqn:E. simpl in Hquoted. subst quoted.
  destruct (existsb special f) eqn:Hsp.
  - exists QUOTE_IN_QUOTED_FIELD. split; [|left; right; by left].
    replace copied with (join_append_data f).1 by (by rewrite E).
    rewrite <- app_comm_cons, <- app_assoc. simpl app.
    change f with ([] ++ f) at 2.
    rewrite <- (read_quoted f [] fs tail Htail).
    destruct ((join_append_data f).1 ++ quotechar :: tail) as [|x rest] eqn:E'.
    { by destruct ((join_append_data f).1). }
    apply read_from_next; [|done..]. by destruct Hst as [-> | ->].
  - pose proof (join_append_data_plain f Hsp) as Hcopied. rewrite E in Hcopied.
    simpl in Hcopied. subst copied.
    destruct f as [|c f].
    + exists st. split; [done|]. destruct Hst as [-> | ->]; [by right|].
      left. right. by right.
    + exists IN_FIELD. split; [|left; by left].
      simpl in Hsp. apply orb_false_elim in Hsp as [Hc Hf].
      apply special_false in Hc as (Hd & Hq & HCR & HLF).
      change (c :: f) with ([c] ++ f) at 2.
      rewrite <- (read_plain f [c] fs tail Hf Htail). simpl app.
      destruct (f ++ tail) as [|x rest] eqn:E'.
      { by destruct f. }
      apply read_from_next; [|done..].
      apply Ascii.eqb_neq in Hd, Hq, HCR, HLF.
      destruct Hst as [-> | ->];
        unfold parse_process_char, start_field, is_newline; simpl state;
        by rewrite ?HLF, ?HCR, ?Hq, ?Hd.
Qed.

Lemma read_delimiter st cur fs tail :
  field_over st cur ∨ (st = START_RECORD ∧ cur = []) → tail ≠ [] →
  read_from (Reader st cur fs) (delimiter :: tail)
  = read_from (Reader START_FIELD [] (fs ++ [cur])) tail.
Proof.
  intros Hst Htail. destruct tail as [|x rest]; [done|].
  apply read_from_next; [|done..].
  destruct Hst as [[-> | [-> | [-> ->]]] | [-> ->]]; done.
Qed.

Lemma line_ends_LF rest : line_ends LF rest = true.
Proof. by destruct rest. Qed.

Lemma read_lineterminator st cur fs rest :
  field_over st cur →
  read_from (Reader st cur fs) (lineterminator ++ rest)
  = ((fs ++ [cur]) ::.) <$> read_from parse_reset rest.
Proof.
  intros Hst. unfold lineterminator. simpl app.
  rewrite read_from_cons.
  replace (parse_process_char (Reader st cur fs) (Some CR))
    with (Ok (Reader EAT_CRNL [] (fs ++ [cur])))
    by (by destruct Hst as [-> | [-> | [-> ->]]]).
  unfold mbind at 1, result_bind at 1.
  change (line_ends CR (LF :: rest)) with false. cbv iota.
  rewrite read_from_cons, line_ends_LF. done.
Qed.

Lemma read_joined fields : ∀ st fs rest,
  fields ≠ [] →
  st = START_FIELD ∨ (st = START_RECORD ∧ join_fields fields ≠ []) →
  read_from (Reader st [] fs) (join_fields fields ++ lineterminator ++ rest)
  = ((fs ++ fields) ::.) <$> read_from parse_reset rest.
Proof.
  induction fields as [|f fields IH]; intros st fs rest Hne Hst; [done|].
  destruct fields as [|g fields].
  - simpl join_fields.
    destruct (read_field st fs f (lineterminator ++ rest)) as (st' & -> & Hst');
      [tauto|done|].
    destruct Hst' as [Hover | (-> & -> & ->)].
    + by apply read_lineterminator.
    + destruct Hst as [? | [_ H]]; done.
  - change (join_fields (f :: g :: fields))
      with (join_append f ++ delimiter :: join_fields (g :: fields)).
    rewrite <- app_assoc, <- app_comm_cons.
    destruct (read_field st fs f
                (delimiter :: join_fields (g :: fields) ++ lineterminator ++ rest))
      as (st' & -> & Hst'); [tauto|done|].
    rewrite read_delimiter.
    + rewrite IH; [|done|by left]. by rewrite <- app_assoc.
    + destruct Hst' as [? | (-> & _ & ->)]; [by left|by right].
    + unfold lineterminator. by destruct (join_fields (g :: fields)).
Qed.

(** One record written, one record read. *)
Lemma read_record_text fields rest :
  read_from parse_reset (record_text fields ++ rest)
  = (fields ::.) <$> read_from parse_reset rest.
Proof.
  unfold record_text.
  destruct fields as [|f fields].
  - simpl. by destruct rest.
  - destruct (join_fields (f :: fields)) as [|x text] eqn:E.
    + assert (f = [] ∧ fields = []) as [-> ->].
      { destruct fields as [|g fields].
        - simpl in E. unfold join_append in E.
          pose proof (join_append_data_quoted f) as Hq.
          destruct (join_append_data f) as [copied quoted] eqn:E'. simpl in Hq.
          destruct quoted; [done|]. subst copied.
          symmetry in Hq. apply join_append_data_plain in Hq.
          rewrite E' in Hq. by simpl in Hq.
        - exfalso. change (join_fields (f :: g :: fields))
            with (join_append f ++ delimiter :: join_fields (g :: fields)) in E.
          by destruct (join_append f). }
      simpl. by destruct rest.
    + rewrite <- E, <- app_assoc. unfold parse_reset at 1.
      rewrite read_joined; [done|done|].
      right. split; [done|]. by rewrite E.
Qed.

(** The reader undoes the writer, whatever the fields contain. *)
Lemma read_written (table : list (list bytes)) :
  read (concat (record_text <$> table)) = Ok table.
Proof.
  unfold read. induction table as [|fields table IH]; [done|].
  change (concat (record_text <$> fields :: table))
    with (record_text fields ++ concat (record_text <$> table)).
  by rewrite read_record_text, IH.
Qed.

End csv_round_trip.

(** ** The records-to-CSV cell *)

Lemma writerow_run path row svc w :
  csv.writerow path row svc w
  = (World (<[path := default [] (files w !! path)
                ++ csv.record_text (encode_utf8 ∘ csv.field_text <$> row)]> (files w))
           (output w) (calls w), Ok ()).
Proof. done. Qed.

Lemma for_each_writerow {A} path (f : A → list scalar) (rows : list A) :
  ∀ svc w content,
  files w !! path = Some content →
  for_each rows (λ row, csv.writerow path (f row)) svc w
  = (World (<[path := content
                ++ concat (csv.record_text
                   <$> ((λ row, encode_utf8 ∘ csv.field_text <$> f row) <$> rows))]>
              (files w))
           (output w) (calls w), Ok ()).
Proof.
  induction rows as [|row rows IH]; intros svc w content Hc.
  - simpl. rewrite app_nil_r, insert_id by done. by destruct w.
  - simpl for_each. rewrite bind_run, writerow_run, Hc. simpl default.
    erewrite IH by (simpl; apply lookup_insert_eq).
    simpl. rewrite insert_insert_eq, <- app_assoc. done.
Qed.

Lemma bind_ok {A B} (m : M A) (k : A → M B) svc w w' a :
  m svc w = (w', Ok a) → (m ≫= k) svc w = k a svc w'.
Proof. intros H. by rewrite bind_run, H. Qed.

Lemma bind_raised {A B} (m : M A) (k : A → M B) svc w w' e :
  m svc w = (w', Raised e) → (m ≫= k) svc w = (w', Raised e).
Proof. intros H. by rewrite bind_run, H. Qed.

Lemma json_to_csv_cell_run first rest svc w :
  json_to_csv_cell (first :: rest) svc w
  = (World (<[csv_file := concat (csv.record_text <$> table_of first (first :: rest))]>
              (files w))
           (output w ++ [Printed ("JSON data has been written to " +:+ csv_file)])
           (calls w), Ok ()).
Proof.
  unfold json_to_csv_cell.
  erewrite bind_ok by reflexivity.
  erewrite bind_ok by reflexivity.
  erewrite bind_ok by apply writerow_run.
  erewrite bind_ok by (apply for_each_writerow; simpl; apply lookup_insert_eq).
  unfold print; simpl.
  rewrite lookup_insert_eq, !insert_insert_eq. simpl.
  unfold table_of. rewrite <- list_fmap_compose. done.
Qed.

Lemma json_to_csv_cell_empty svc w :
  json_to_csv_cell [] svc w
  = (World (<[csv_file := []]> (files w)) (output w) (calls w), Raised IndexError).
Proof. done. Qed.

Lemma decode_encode_utf8 s : decode_utf8 (encode_utf8 s) = s.
Proof. apply string_of_list_ascii_of_string. Qed.

Lemma zip_keys_texts (r : record) :
  zip (keys r) (csv.field_text <$> values r) = prod_map id csv.field_text <$> r.
Proof.
  induction r as [|[k v] r IH]; [done|]. unfold keys, values in *.
  rewrite !fmap_cons. simpl zip. by rewrite IH.
Qed.

Lemma table_lookup_header first data :
  table_of first data !! 0%nat = Some (encode_utf8 <$> keys first).
Proof. done. Qed.

Lemma table_lookup_row first data i :
  table_of first data !! S i
  = (λ r : record, encode_utf8 ∘ csv.field_text <$> values r) <$> (data !! i).
Proof. unfold table_of. simpl. by rewrite list_lookup_fmap. Qed.

(** C1.  For every non-empty response the cell presents as a CSV table,
    the cell succeeds and the file is the header record followed by one
    record per input record: read as a table, row 0 is the keys of the
    first record in their original order, and row [i+1] is the values of
    record [i] of the input sequence. *)
Theorem csv_header_and_rows_in_order first rest svc w :
  let data := first :: rest in
  let run := json_to_csv_cell data svc w in
  ∃ content table,
    run.2 = Ok ()
    ∧ files run.1 !! csv_file = Some content
    ∧ content = concat (csv.record_text <$> table)
    ∧ csv.read content = Ok table
    ∧ table !! 0%nat = Some (encode_utf8 <$> keys first)
    ∧ ∀ i, table !! S i
           = (λ r : record, encode_utf8 ∘ csv.field_text <$> values r) <$> (data !! i).
Proof.
  intros data run. subst run data. rewrite json_to_csv_cell_run.
  cbn [fst snd files]. eexists _, (table_of first (first :: rest)).
  split; [done|]. split; [apply lookup_insert_eq|]. split; [done|].
  split; [apply read_written|]. split; [done|]. apply table_lookup_row.
Qed.

(** C8.  Given the empty list of records the conversion raises
    [IndexError] at [data[0]]: the file has been opened (and is empty) but
    no row has been written and nothing has been printed.  The cell
    completes, with header and rows written, exactly for the non-empty
    record lists. *)
Theorem csv_of_no_records_raises svc w :
  let run := json_to_csv_cell [] svc w in
  run.2 = Raised IndexError
  ∧ files run.1 !! csv_file = Some []
  ∧ output run.1 = output w
  ∧ ∀ data, (json_to_csv_cell data svc w).2 = Ok () ↔ data ≠ [].
Proof.
  simpl. split; [done|]. split; [apply lookup_insert_eq|]. split; [done|].
  intros [|first rest].
  - by rewrite json_to_csv_cell_empty.
  - by rewrite json_to_csv_cell_run.
Qed.

Lemma uniform_keys_spec first rest :
  uniform_keys (first :: rest) = true →
  Forall (λ r : record, keys r = keys first) (first :: rest).
Proof.
  unfold uniform_keys. intros H. apply Forall_forall. intros r Hr.
  apply list_elem_of_In in Hr.
  rewrite forallb_forall in H. specialize (H r Hr). by apply bool_decide_eq_true in H.
Qed.

Lemma records_of_written first data :
  Forall (λ r : record, keys r = keys first) data →
  csv.records_of_table
    ((λ row : list bytes, decode_utf8 <$> row) <$> table_of first data)
  = record_texts data.
Proof.
  intros Hkeys. unfold table_of, csv.records_of_table, record_texts.
  rewrite fmap_cons, <- !list_fmap_compose.
  erewrite (list_fmap_ext _ (λ k, k) (keys first))
    by (intros; apply decode_encode_utf8).
  rewrite list_fmap_id.
  apply list_fmap_ext. intros i r Hr. simpl.
  rewrite <- list_fmap_compose.
  erewrite (list_fmap_ext _ csv.field_text (values r))
    by (intros; apply decode_encode_utf8).
  eapply Forall_lookup_1 in Hkeys; [|done]. simpl in Hkeys.
  rewrite <- Hkeys. apply zip_keys_texts.
Qed.

(** C2, amended.  For every non-empty list of records whose fields are
    non-empty and whose records all carry the field names of the first
    record in the same order, writing the records as CSV and reading the
    table back yields, for every record, the same field names and the
    same field values, each value as the text the writer gave it. *)
Theorem csv_round_trip_uniform data svc w :
  data ≠ [] →
  nonempty_fields data = true →
  uniform_keys data = true →
  ∃ content,
    files (json_to_csv_cell data svc w).1 !! csv_file = Some content
    ∧ csv.read_records content = Ok (record_texts data).
Proof.
  intros Hne _ Hkeys. destruct data as [|first rest]; [done|].
  rewrite json_to_csv_cell_run. cbn [fst snd files].
  eexists. split; [apply lookup_insert_eq|].
  unfold csv.read_records. rewrite read_written. cbn [fmap result_fmap].
  f_equal. by apply records_of_written, uniform_keys_spec.
Qed.

(** C2 as stated fails: the second record's values come back under the
    first record's field names. *)
Lemma csv_round_trip_reordered_keys :
  reordered_data ≠ []
  ∧ nonempty_fields reordered_data = true
  ∧ ∃ content,
      files (json_to_csv_cell reordered_data no_service empty_world).1 !! csv_file
      = Some content
      ∧ csv.read_records content
        = Ok [ [("a", "1"); ("b", "2")]; [("a", "3"); ("b", "4")] ]
      ∧ csv.read_records content ≠ Ok (record_texts reordered_data).
Proof.
  split; [done|]. split; [done|].
  eexists. split; [vm_compute; reflexivity|]. split; [vm_compute; reflexivity|].
  vm_compute. discriminate.
Qed.

Lemma csv_round_trip_uniform_witness :
  ∃ content,
    files (json_to_csv_cell sample_data no_service empty_world).1 !! csv_file
    = Some content
    ∧ csv.read_records content = Ok (record_texts sample_data).
Proof.
  apply csv_round_trip_uniform; [discriminate | vm_compute; reflexivity ..].
Defined.

(** ** Base64: decoding undoes encoding *)

Section base64_round_trip.
Import base64.

Lemma byte_val_range c : 0 ≤ byte_val c < 256.
Proof.
  unfold byte_val. pose proof (N_ascii_bounded c). lia.
Qed.

Lemma to_byte_val c : to_byte (byte_val c) = c.
Proof.
  unfold to_byte. rewrite Z.mod_small by apply byte_val_range.
  unfold byte_val. rewrite N2Z.id. apply ascii_N_embedding.
Qed.

(** The alphabet: sixty-four ASCII characters, none of them the pad, each
    looked up back to its index. *)
Lemma alphabet_checked :
  forallb (λ n : nat,
    let i := Z.of_nat n in
    (a2b (b2a i) =? i)%Z && negb (Ascii.eqb (b2a i) BASE64_PAD)
    && (byte_val (b2a i) <? 128)%Z) (seq 0 64) = true.
Proof. vm_compute. reflexivity. Qed.

Lemma alphabet i :
  0 ≤ i < 64 →
  a2b (b2a i) = i ∧ Ascii.eqb (b2a i) BASE64_PAD = false
  ∧ (byte_val (b2a i) <? 128)%Z = true.
Proof.
  intros Hi. pose proof alphabet_checked as H.
  rewrite forallb_forall in H.
  assert (Hin : In (Z.to_nat i) (seq 0 64)) by (apply in_seq; lia).
  specialize (H _ Hin). cbv zeta in H. rewrite Z2Nat.id in H by lia.
  apply andb_prop in H as [H H3]. apply andb_prop in H as [H1 H2].
  repeat split; [lia | by apply negb_true_iff | done].
Qed.

(** Bit operations as arithmetic. *)
Lemma lor_shiftl a k b :
  0 ≤ a → 0 ≤ k → 0 ≤ b < 2 ^ k → Z.lor (Z.shiftl a k) b = a * 2 ^ k + b.
Proof.
  intros Ha Hk Hb. rewrite Z.shiftl_mul_pow2 by done.
  assert (Hland : Z.land (a * 2 ^ k) b = 0).
  { apply Z.bits_inj'. intros n Hn. rewrite Z.land_spec, Z.bits_0.
    destruct (Z.lt_ge_cases n k).
    - by rewrite Z.mul_pow2_bits_low by lia.
    - destruct (Z.eq_dec b 0) as [->|].
      + by rewrite Z.bits_0, andb_false_r.
      + rewrite (Z.bits_above_log2 b n); [apply andb_false_r | lia |].
        apply Z.lt_le_trans with k; [apply Z.log2_lt_pow2; lia | lia]. }
  by rewrite <- Z.lxor_lor, <- Z.add_nocarry_lxor.
Qed.

Lemma land_mask a n : 0 ≤ n → Z.land a (2 ^ n - 1) = a mod 2 ^ n.
Proof.
  intros. replace (2 ^ n - 1) with (Z.ones n) by (rewrite Z.ones_equiv; lia).
  by apply Z.land_ones.
Qed.

(** Shifting a byte into the accumulator. *)
Lemma shift_in lc c :
  0 ≤ lc →
  wrap32 (Z.lor (Z.shiftl lc 8) (byte_val c)) = (lc mod 2 ^ 24) * 256 + byte_val c.
Proof.
  intros Hlc. pose proof (byte_val_range c).
  rewrite lor_shiftl by (try done; lia). unfold wrap32.
  change (2 ^ 8) with 256. change (2 ^ 32) with 4294967296.
  change (2 ^ 24) with 16777216.
  Z.div_mod_to_equations. lia.
Qed.


Lemma b2a_loop_cons lc lb c rest :
  b2a_loop lc lb (c :: rest)
  = let leftchar := wrap32 (Z.lor (Z.shiftl lc 8) (byte_val c)) in
    let '(out, leftbits) := drain (Z.to_nat (lb + 8)) leftchar (lb + 8) in
    out ++ b2a_loop leftchar leftbits rest.
Proof. done. Qed.

(** Bit operations on the accumulator, as arithmetic. *)
Ltac bits_to_arith :=
  rewrite ?Z.shiftr_div_pow2, ?Z.shiftl_mul_pow2 by done;
  rewrite ?(land_mask _ 6), ?(land_mask _ 2), ?(land_mask _ 4) by done;
  change (2 ^ 0) with 1; change (2 ^ 2) with 4; change (2 ^ 4) with 16;
  change (2 ^ 6) with 64; change (2 ^ 24) with 16777216.

(** One byte taken by the encoder, with no, two and four bits pending. *)
Lemma encode_step_0 lc c rest :
  0 ≤ lc →
  ∃ lc', 0 ≤ lc' ∧ lc' mod 4 = byte_val c mod 4
    ∧ b2a_loop lc 0 (c :: rest) = b2a (byte_val c / 4) :: b2a_loop lc' 2 rest.
Proof.
  intros Hlc. pose proof (byte_val_range c) as Hc.
  exists ((lc mod 2 ^ 24) * 256 + byte_val c).
  rewrite b2a_loop_cons, shift_in by done. cbv zeta.
  change (drain (Z.to_nat (0 + 8)) ?x (0 + 8))
    with ([b2a (Z.land (Z.shiftr x (8 - 6)) 63)], 2).
  change (8 - 6) with 2. change 63 with (2 ^ 6 - 1). cbn [app].
  split; [|split; [|f_equal; f_equal]]; bits_to_arith;
    Z.div_mod_to_equations; lia.
Qed.

Lemma encode_step_2 lc c rest :
  0 ≤ lc →
  ∃ lc', 0 ≤ lc' ∧ lc' mod 16 = byte_val c mod 16
    ∧ b2a_loop lc 2 (c :: rest)
      = b2a ((lc mod 4) * 16 + byte_val c / 16) :: b2a_loop lc' 4 rest.
Proof.
  intros Hlc. pose proof (byte_val_range c) as Hc.
  exists ((lc mod 2 ^ 24) * 256 + byte_val c).
  rewrite b2a_loop_cons, shift_in by done. cbv zeta.
  change (drain (Z.to_nat (2 + 8)) ?x (2 + 8))
    with ([b2a (Z.land (Z.shiftr x (10 - 6)) 63)], 4).
  change (10 - 6) with 4. change 63 with (2 ^ 6 - 1). cbn [app].
  split; [|split; [|f_equal; f_equal]]; bits_to_arith;
    Z.div_mod_to_equations; lia.
Qed.

Lemma encode_step_4 lc c rest :
  0 ≤ lc →
  ∃ lc', 0 ≤ lc'
    ∧ b2a_loop lc 4 (c :: rest)
      = b2a ((lc mod 16) * 4 + byte_val c / 64)
        :: b2a (byte_val c mod 64) :: b2a_loop lc' 0 rest.
Proof.
  intros Hlc. pose proof (byte_val_range c) as Hc.
  exists ((lc mod 2 ^ 24) * 256 + byte_val c).
  rewrite b2a_loop_cons, shift_in by done. cbv zeta.
  change (drain (Z.to_nat (4 + 8)) ?x (4 + 8))
    with ([b2a (Z.land (Z.shiftr x (12 - 6)) 63);
           b2a (Z.land (Z.shiftr x (12 - 6 - 6)) 63)], 0).
  change (12 - 6 - 6) with 0. change (12 - 6) with 6.
  change 63 with (2 ^ 6 - 1). cbn [app].
  split; [|f_equal; [|f_equal]; f_equal]; bits_to_arith;
    Z.div_mod_to_equations; lia.
Qed.

Lemma encode_end_2 lc :
  0 ≤ lc → b2a_loop lc 2 [] = [b2a ((lc mod 4) * 16); BASE64_PAD; BASE64_PAD].
Proof.
  intros Hlc. simpl. do 2 f_equal. change 3 with (2 ^ 2 - 1). by bits_to_arith.
Qed.

Lemma encode_end_4 lc :
  0 ≤ lc → b2a_loop lc 4 [] = [b2a ((lc mod 16) * 4); BASE64_PAD].
Proof.
  intros Hlc. simpl. do 2 f_equal. change 15 with (2 ^ 4 - 1). by bits_to_arith.
Qed.

(** One alphabet character taken by the decoder. *)
Lemma decode_sextet d s rest :
  0 ≤ s < 64 →
  a2b_loop d (b2a s :: rest) = a2b_loop (decode_char d s) rest.
Proof.
  intros Hs. destruct (alphabet s Hs) as (Ha2b & Hpad & _).
  simpl. rewrite Hpad, Ha2b.
  by destruct (Z.leb_spec 64 s); [lia|].
Qed.

(** The bytes the decoder puts together. *)
Lemma join_1 c s :
  s / 16 = byte_val c mod 4 →
  to_byte (Z.lor (Z.shiftl (byte_val c / 4) 2) (Z.shiftr s 4)) = c.
Proof.
  intros Hs. pose proof (byte_val_range c) as Hc.
  rewrite <- (to_byte_val c) at 2. f_equal.
  rewrite Z.shiftr_div_pow2 by done. change (2 ^ 4) with 16. rewrite Hs.
  rewrite lor_shiftl; change (2 ^ 2) with 4; Z.div_mod_to_equations; lia.
Qed.

Lemma join_2 c s :
  s / 4 = byte_val c mod 16 →
  to_byte (Z.lor (Z.shiftl (byte_val c / 16) 4) (Z.shiftr s 2)) = c.
Proof.
  intros Hs. pose proof (byte_val_range c) as Hc.
  rewrite <- (to_byte_val c) at 2. f_equal.
  rewrite Z.shiftr_div_pow2 by done. change (2 ^ 2) with 4. rewrite Hs.
  rewrite lor_shiftl; change (2 ^ 4) with 16; Z.div_mod_to_equations; lia.
Qed.

Lemma join_3 c :
  to_byte (Z.lor (Z.shiftl (byte_val c / 64) 6) (byte_val c mod 64)) = c.
Proof.
  pose proof (byte_val_range c) as Hc.
  rewrite <- (to_byte_val c) at 3. f_equal.
  rewrite lor_shiftl; change (2 ^ 6) with 64; Z.div_mod_to_equations; lia.
Qed.

(** The decoder, run on what the encoder writes, returns the bytes the
    encoder read: with the encoder between bytes holding no, two or four
    pending bits, the decoder is at the matching place of its quad. *)
Lemma decode_encode_loop data :
  (∀ lc out, 0 ≤ lc →
     a2b_loop (Decoder 0 0 0 out) (b2a_loop lc 0 data) = Ok (out ++ data))
  ∧ (∀ lc out c, 0 ≤ lc → lc mod 4 = byte_val c mod 4 →
     a2b_loop (Decoder 1 (byte_val c / 4) 0 out) (b2a_loop lc 2 data)
     = Ok (out ++ c :: data))
  ∧ (∀ lc out c, 0 ≤ lc → lc mod 16 = byte_val c mod 16 →
     a2b_loop (Decoder 2 (byte_val c / 16) 0 out) (b2a_loop lc 4 data)
     = Ok (out ++ c :: data)).
Proof.
  induction data as [|b data (IH0 & IH2 & IH4)]; repeat split.
  - intros lc out _. simpl. by rewrite app_nil_r.
  - intros lc out c Hlc Hmod. pose proof (byte_val_range c).
    rewrite encode_end_2, decode_sextet by (try done; Z.div_mod_to_equations; lia).
    unfold decode_char. simpl. rewrite join_1; [done|]. Z.div_mod_to_equations; lia.
  - intros lc out c Hlc Hmod. pose proof (byte_val_range c).
    rewrite encode_end_4, decode_sextet by (try done; Z.div_mod_to_equations; lia).
    unfold decode_char. simpl. rewrite join_2; [done|]. Z.div_mod_to_equations; lia.
  - intros lc out Hlc. pose proof (byte_val_range b).
    destruct (encode_step_0 lc b data Hlc) as (lc' & Hlc' & Hmod & ->).
    rewrite decode_sextet by (Z.div_mod_to_equations; lia). unfold decode_char. simpl.
    by apply IH2.
  - intros lc out c Hlc Hmod.
    pose proof (byte_val_range b). pose proof (byte_val_range c).
    destruct (encode_step_2 lc b data Hlc) as (lc' & Hlc' & Hmod' & ->).
    rewrite decode_sextet by (Z.div_mod_to_equations; lia). unfold decode_char. simpl quad_pos.
    simpl Z.eqb. cbv iota. simpl leftchar. simpl bin_data.
    rewrite join_1 by (Z.div_mod_to_equations; lia).
    replace (Z.land (lc mod 4 * 16 + byte_val b / 16) 15) with (byte_val b / 16).
    + rewrite IH4 by done. by rewrite <- app_assoc.
    + change 15 with (2 ^ 4 - 1). rewrite land_mask by done.
      change (2 ^ 4) with 16. Z.div_mod_to_equations; lia.
  - intros lc out c Hlc Hmod.
    pose proof (byte_val_range b). pose proof (byte_val_range c).
    destruct (encode_step_4 lc b data Hlc) as (lc' & Hlc' & ->).
    rewrite !decode_sextet by (Z.div_mod_to_equations; lia). unfold decode_char. simpl quad_pos.
    simpl Z.eqb. cbv iota. simpl leftchar. simpl bin_data.
    rewrite join_2 by (Z.div_mod_to_equations; lia).
    replace (Z.land (lc mod 16 * 4 + byte_val b / 64) 3) with (byte_val b / 64).
    + rewrite join_3, IH0 by done. by rewrite <- !app_assoc.
    + change 3 with (2 ^ 2 - 1). rewrite land_mask by done.
      change (2 ^ 2) with 4. Z.div_mod_to_equations; lia.
Qed.

Lemma a2b_base64_b2a data : a2b_base64 (b64encode data) = Ok data.
Proof. apply (decode_encode_loop data). done. Qed.

(** What the encoder writes is ASCII. *)
Lemma encode_loop_ascii data :
  ∀ lc lb, 0 ≤ lc → lb = 0 ∨ lb = 2 ∨ lb = 4 →
  forallb (λ c, (byte_val c <? 128)%Z) (b2a_loop lc lb data) = true.
Proof.
  induction data as [|b data IH]; intros lc lb Hlc Hlb.
  - destruct Hlb as [-> | [-> | ->]]; [done|..].
    + rewrite encode_end_2 by done. simpl. rewrite andb_true_r.
      apply alphabet. Z.div_mod_to_equations; lia.
    + rewrite encode_end_4 by done. simpl. rewrite andb_true_r.
      apply alphabet. Z.div_mod_to_equations; lia.
  - pose proof (byte_val_range b).
    destruct Hlb as [-> | [-> | ->]].
    + destruct (encode_step_0 lc b data Hlc) as (lc' & Hlc' & _ & ->).
      simpl. rewrite IH by auto. rewrite andb_true_r. apply alphabet. Z.div_mod_to_equations; lia.
    + destruct (encode_step_2 lc b data Hlc) as (lc' & Hlc' & _ & ->).
      simpl. rewrite IH by auto. rewrite andb_true_r. apply alphabet. Z.div_mod_to_equations; lia.
    + destruct (encode_step_4 lc b data Hlc) as (lc' & Hlc' & ->).
      simpl. rewrite IH by auto. rewrite andb_true_r.
      apply andb_true_intro. split; apply alphabet; Z.div_mod_to_equations; lia.
Qed.

Lemma encode_decode_utf8 b : encode_utf8 (decode_utf8 b) = b.
Proof. apply list_ascii_of_string_of_list_ascii. Qed.

(** C5.  For every byte sequence, the empty one included, base64-encoding
    it (and taking the result as a [str], as the cells do) and then
    decoding returns exactly the original bytes. *)
Theorem b64decode_b64encode (data : bytes) :
  b64decode (decode_utf8 (b64encode data)) = Ok data.
Proof.
  unfold b64decode. rewrite encode_decode_utf8.
  unfold b64encode at 1. rewrite encode_loop_ascii by (done || by left).
  apply a2b_base64_b2a.
Qed.

End base64_round_trip.

(** ** Failures of external calls *)

Section propagation.
Context (exempt : request → bool).

Lemma silent_propagates {A} (c : M A) : silent c → propagates_except exempt c.
Proof.
  intros Hc svc w. exists []. rewrite Hc, app_nil_r. split; [done|].
  intros i req d Hi. by rewrite lookup_nil in Hi.
Qed.

Lemma silent_ret {A} (a : A) : silent (mret a).
Proof. done. Qed.
Lemma silent_raise {A} e : silent (@raise A e).
Proof. done. Qed.
Lemma silent_lift {A} (r : result A) : silent (lift r).
Proof. done. Qed.
Lemma silent_print line : silent (print line).
Proof. done. Qed.
Lemma silent_display_image path : silent (display_image path).
Proof. done. Qed.
Lemma silent_open_w path : silent (open_w path).
Proof. done. Qed.
Lemma silent_write path data : silent (write path data).
Proof. done. Qed.
Lemma silent_read_rb path : silent (read_rb path).
Proof. intros svc w. unfold read_rb. by destruct (files w !! path). Qed.
Lemma silent_path_exists path : silent (path_exists path).
Proof. done. Qed.
Lemma silent_getitem {A} (l : list A) i : silent (getitem l i).
Proof. unfold getitem. by destruct (l !! i). Qed.

Lemma silent_bind {A B} (m : M A) (k : A → M B) :
  silent m → (∀ a, silent (k a)) → silent (m ≫= k).
Proof.
  intros Hm Hk svc w. rewrite bind_run. specialize (Hm svc w).
  destruct (m svc w) as [w' [a|e]]; simpl in *; [|done].
  by rewrite Hk.
Qed.

Lemma silent_try_except {A} (body : M A) handler :
  silent body → (∀ e, silent (handler e)) → silent (try_except body handler).
Proof.
  intros Hb Hh svc w. unfold try_except. specialize (Hb svc w).
  destruct (body svc w) as [w' [a|e]]; simpl in *; [done|].
  by rewrite Hh.
Qed.

Lemma silent_for_each {A} (l : list A) body :
  (∀ x, silent (body x)) → silent (for_each l body).
Proof.
  intros Hb. induction l as [|x l IH]; [done|].
  simpl. by apply silent_bind.
Qed.

Lemma silent_for_fold {A S} (l : list A) (s : S) body :
  (∀ s x, silent (body s x)) → silent (for_fold l s body).
Proof.
  intros Hb. revert s. induction l as [|x l IH]; intros s; [done|].
  simpl. by apply silent_bind.
Qed.

(** One call. *)
Lemma call_propagates ep args : propagates_except exempt (call ep args).
Proof.
  intros svc w. unfold call.
  destruct (svc (calls w) (Request ep args)) as [r|d] eqn:E; simpl.
  - eexists [_]. split; [done|]. intros [|i] req d' Hi _; simplify_eq/=.
  - eexists [_]. split; [done|]. intros [|i] req d' Hi _; by simplify_eq/=.
Qed.

(** A call whose failure the notebook forgives. *)
Lemma shell_propagates command :
  exempt (Request "shell" (jstr command)) = true →
  propagates_except exempt (shell command).
Proof.
  intros Hex svc w. unfold shell. simpl. eexists [_]. split; [done|].
  intros [|i] req d Hi Hreq; simplify_eq/=. congruence.
Qed.

Lemma wget_propagates url path :
  (∀ args, exempt (Request "shell" args) = true) →
  propagates_except exempt (wget url path).
Proof.
  intros Hex svc w. unfold wget. simpl. eexists [_]. split; [done|].
  intros [|i] req d Hi Hreq; simplify_eq/=. by rewrite Hex in Hreq.
Qed.

Lemma try_call_propagates ep args (handler : exn → M unit) :
  exempt (Request ep args) = true →
  (∀ e, silent (handler e)) →
  propagates_except exempt (A:=unit)
    (try_except (call ep args;; mret ()) handler).
Proof.
  intros Hex Hh svc w. unfold try_except. rewrite bind_run. unfold call.
  destruct (svc (calls w) (Request ep args)) as [r|d] eqn:E; simpl.
  - eexists [_]. split; [done|]. intros [|i] req d' Hi _; simplify_eq/=.
  - rewrite Hh. simpl. eexists [_]. split; [done|].
    intros [|i] req d' Hi Hreq; simplify_eq/=. congruence.
Qed.

(** Sequencing. *)
Lemma bind_propagates {A B} (m : M A) (k : A → M B) :
  propagates_except exempt m →
  (∀ a, propagates_except exempt (k a)) →
  propagates_except exempt (m ≫= k).
Proof.
  intros Hm Hk svc w. rewrite bind_run.
  destruct (Hm svc w) as (evs1 & Hevs1 & Hfail1).
  destruct (m svc w) as [w1 [a|e]]; simpl in *.
  - destruct (Hk a svc w1) as (evs2 & Hevs2 & Hfail2).
    exists (evs1 ++ evs2). split.
    { by rewrite Hevs2, Hevs1, app_assoc. }
    intros i req d Hi Hreq.
    destruct (decide (i < length evs1)%nat) as [Hlt|Hge].
    + rewrite lookup_app_l in Hi by done.
      by destruct (Hfail1 i req d Hi Hreq) as [_ ?].
    + rewrite lookup_app_r in Hi by lia.
      destruct (Hfail2 _ req d Hi Hreq) as [Hlast Hres].
      split; [|done]. rewrite length_app. lia.
  - exists evs1. split; [done|]. intros i req d Hi Hreq.
    destruct (Hfail1 i req d Hi Hreq) as [? [= ->]]. done.
Qed.

Lemma for_each_propagates {A} (l : list A) body :
  (∀ x, propagates_except exempt (body x)) →
  propagates_except exempt (for_each l body).
Proof.
  intros Hb. induction l as [|x l IH].
  - by apply silent_propagates.
  - simpl. by apply bind_propagates.
Qed.

Lemma for_fold_propagates {A S} (l : list A) (s : S) body :
  (∀ s x, propagates_except exempt (body s x)) →
  propagates_except exempt (for_fold l s body).
Proof.
  intros Hb. revert s. induction l as [|x l IH]; intros s.
  - by apply silent_propagates.
  - simpl. by apply bind_propagates.
Qed.

End propagation.

Ltac silence :=
  repeat lazymatch goal with
  | |- silent (mret _) => apply silent_ret
  | |- silent (raise _) => apply silent_raise
  | |- silent (lift _) => apply silent_lift
  | |- silent (print _) => apply silent_print
  | |- silent (display_image _) => apply silent_display_image
  | |- silent (open_w _) => apply silent_open_w
  | |- silent (write _ _) => apply silent_write
  | |- silent (read_rb _) => apply silent_read_rb
  | |- silent (path_exists _) => apply silent_path_exists
  | |- silent (getitem _ _) => apply silent_getitem
  | |- silent (_ ≫= _) => apply silent_bind; [|intros]
  | |- silent (try_except _ _) => apply silent_try_except; [|intros]
  | |- silent (for_each _ _) => apply silent_for_each; intros
  | |- silent (for_fold _ _ _) => apply silent_for_fold; intros
  | |- silent (if ?b then _ else _) => destruct b
  | |- silent (match ?x with _ => _ end) => destruct x
  end.

Ltac propagate :=
  repeat lazymatch goal with
  | |- propagates_except _ (call _ _) => apply call_propagates
  | |- propagates_except _ (shell _) => apply shell_propagates; reflexivity
  | |- propagates_except _ (wget _ _) => apply wget_propagates; reflexivity
  | |- propagates_except _ (try_except (call _ _;; mret ()) _) =>
      apply try_call_propagates; [reflexivity | intros; silence]
  | |- propagates_except _ (_ ≫= _) => apply bind_propagates; [|intros]
  | |- propagates_except _ (for_each _ _) => apply for_each_propagates; intros
  | |- propagates_except _ (for_fold _ _ _) => apply for_fold_propagates; intros
  | |- propagates_except _ (if ?b then _ else _) => destruct b
  | |- propagates_except _ (match ?x with _ => _ end) => destruct x
  | |- propagates_except _ _ => apply silent_propagates; silence
  end.

(** C3, amended.  In every code cell of the three notebooks, and in every
    function they define, a failure raised by an external call propagates
    at once: it is the last call the cell makes and the cell halts raising
    it, uncaught, without retry, partial result or fallback.  The
    exceptions are the calls the notebooks forgive by design: the index
    drop of the Redis notebook, wrapped in [try: ... except: pass], and
    the shell-escape lines, whose exit status is not looked at. *)
Theorem external_failures_propagate A (c : M A) :
  notebook_cell A c → propagates_except forgiven c.
Proof.
  intros Hc. destruct Hc.
  all: unfold json_to_csv_cell, encode_csv_cell,
      redisjson.install_cell, redisjson.create_vectors_cell,
      redisjson.docker_cell, redisjson.connect_cell,
      redisjson.create_index_cell, redisjson.load_data_cell,
      redisjson.semantic_search_cell, redisjson.hybrid_search_cell,
      redisjson.search_cell, redisjson.make_doc, redisjson.get_vector,
      image_rag.install_cell, image_rag.generate_image_cell,
      image_rag.review_cell, image_rag.generate_food_delivery_review,
      image_rag.download_cell, image_rag.merge_cell, image_rag.merge_row,
      image_rag.analyze_image_sentiment, image_rag.encode_image,
      image_rag.create_stores_cell, image_rag.create_store,
      image_rag.upload_cell, image_rag.upload_files_to_vector_store,
      image_rag.upload_row, image_rag.update_row, image_rag.query_cell,
      image_rag.display_cell, image_rag.display_retrieved_images,
      image_rag.display_file, image_rag.eval_runs_cell,
      image_rag.create_eval_run, image_rag.report_url,
      image_rag.create_eval_cell, image_rag.output_items_cell,
      image_rag.delete_cell, csv.writerow.
  all: propagate.
Qed.

Lemma external_failures_propagate_witness :
  propagates_except forgiven (redisjson.create_index_cell sample_doc).
Proof. apply external_failures_propagate. constructor. Defined.

(** C3 as stated fails: the index drop fails, the cell goes on. *)
Lemma index_drop_failure_is_swallowed :
  let run := redisjson.create_index_cell sample_doc fresh_redis empty_world in
  run.2 = Ok (jstr "OK")
  ∧ (calls run.1).*2 = [Failed "Unknown Index name"; Returned (jstr "OK")]
  ∧ endpoint <$> (calls run.1).*1 = ["ft.dropindex"; "ft.create_index"]
  ∧ ¬ propagates_except (λ _, false) (redisjson.create_index_cell sample_doc).
Proof.
  repeat split; try (vm_compute; reflexivity).
  intros H. destruct (H fresh_redis empty_world) as (evs & Hevs & Hfail).
  vm_compute in Hevs. subst evs.
  edestruct (Hfail 0%nat) as [Hlast _]; [reflexivity..|]. discriminate Hlast.
Qed.

(** A response without search annotations: the function prints a notice
    and returns an empty dictionary. *)
Lemma display_without_results k lib mapping svc w :
  image_rag.display_retrieved_images k lib mapping (JObj [("output", JArr [])]) svc w
  = (World (files w) (output w ++ [Printed "No search results found in the response."])
           (calls w), Ok []).
Proof. done. Qed.

(** ** Request composers *)

Lemma call_run ep args svc w :
  call ep args svc w
  = let o := svc (calls w) (Request ep args) in
    (World (files w) (output w) (calls w ++ [(Request ep args, o)]),
     match o with
     | Returned r => Ok r
     | Failed d => Raised (ExternalError d)
     end).
Proof. unfold call. simpl. by destruct (svc _ _). Qed.

Lemma lift_run {A} (r : result A) svc w : lift r svc w = (w, r).
Proof. done. Qed.












(** ** The merge of image sentiments *)

Section merge.
Import image_rag.
Context (lib : library).

(** What a completed turn of the loop did. *)
Lemma merge_row_ok df ir svc w w1 df1 :
  merge_row lib df ir svc w = (w1, Ok df1) →
  ∃ v, merged lib svc ir.2 (Some v) ∧ df1 = at_set df ir.1 "full_sentiment" v.
Proof.
  unfold merge_row. rewrite bind_run, lift_run.
  destruct (series_item ir.2 "image_path") as [v|e] eqn:Himg;
    [|discriminate].
  unfold mbind at 1, result_bind at 1.
  destruct v as [| | | |name]; try discriminate. simpl as_segment. cbv iota.
  rewrite bind_run.
  destruct (analyze_image_sentiment _ svc w) as [wb [sentiment|e]] eqn:Hs;
    [|discriminate].
  rewrite bind_run, lift_run.
  destruct (series_item ir.2 "text") as [text|e] eqn:Htext; [|discriminate].
  rewrite bind_run, lift_run. cbv iota. rewrite bind_run.
  unfold print. simpl. intros [= _ <-].
  eexists. split; [|done]. by exists name, sentiment, text, w, wb.
Qed.

(** The loop, once the column is there: the rows it goes through get
    their merged text, every other value stays. *)
Lemma merge_loop L : ∀ df0 svc w w1 df1,
  NoDup L.*1 →
  "full_sentiment" ∈ columns df0 →
  for_fold L df0 (merge_row lib) svc w = (w1, Ok df1) →
  columns df1 = columns df0
  ∧ length (rows df1) = length (rows df0)
  ∧ ∀ idx r0, rows df0 !! idx = Some r0 →
      ∃ r1, rows df1 !! idx = Some r1
        ∧ (∀ col, col ≠ "full_sentiment" → r1 !! col = r0 !! col)
        ∧ (idx ∉ L.*1 → r1 !! "full_sentiment" = r0 !! "full_sentiment")
        ∧ (∀ s, (idx, s) ∈ L → merged lib svc s (r1 !! "full_sentiment")).
Proof.
  induction L as [|[i s] L IH]; intros df0 svc w w1 df1 Hnodup Hcol Hrun.
  - simpl in Hrun. injection Hrun as _ <-. repeat split; [].
    intros idx r0 Hr0. exists r0. repeat split; [done|].
    intros s Hs. by apply elem_of_nil in Hs.
  - simpl in Hrun. rewrite bind_run in Hrun.
    destruct (merge_row lib df0 (i, s) svc w) as [w0 [d|e]] eqn:Hrow;
      [|discriminate].
    apply merge_row_ok in Hrow as (v & Hmerged & ->). simpl in Hmerged.
    rewrite fmap_cons in Hnodup. apply NoDup_cons in Hnodup as [Hi Hnodup].
    apply IH in Hrun as (Hcols & Hlen & Hrows); [|done|].
    2:{ unfold at_set. by rewrite bool_decide_eq_true_2. }
    unfold at_set in *. rewrite bool_decide_eq_true_2 in * by done.
    simpl in *. rewrite length_alter in Hlen. repeat split; [done..|].
    intros idx r0 Hr0.
    destruct (decide (idx = i)) as [->|Hne].
    + destruct (Hrows i (<["full_sentiment" := v]> r0)) as (r1 & Hr1 & Hother & Hfs & Hin).
      { by rewrite list_lookup_alter_eq, Hr0. }
      exists r1. split; [done|]. split; [|split].
      * intros col Hcol'. by rewrite Hother, lookup_insert_ne.
      * intros Hnot. exfalso. apply Hnot. apply elem_of_cons. by left.
      * intros s' [Heq|Hs']%elem_of_cons.
        -- injection Heq as ->. by rewrite Hfs, lookup_insert_eq.
        -- exfalso. apply Hi. apply list_elem_of_fmap. by exists (i, s').
    + destruct (Hrows idx r0) as (r1 & Hr1 & Hother & Hfs & Hin).
      { by rewrite list_lookup_alter_ne. }
      exists r1. split; [done|]. split; [done|]. split.
      * intros Hnot. apply Hfs. intros Hin'. apply Hnot.
        apply elem_of_cons. by right.
      * intros s' [Heq|Hs']%elem_of_cons; [congruence|by apply Hin].
Qed.

(** The rows the loop goes through. *)
Lemma elem_of_iterrows df idx s :
  (idx, s) ∈ iterrows df
  ↔ ∃ r, rows df !! idx = Some r ∧ s = Series (columns df) r.
Proof.
  unfold iterrows. rewrite elem_of_lookup_imap. split.
  - intros (i & r & [= -> ->] & Hr). eauto.
  - intros (r & Hr & ->). eauto.
Qed.

Lemma iterrows_labels df : (iterrows df).*1 = seq 0 (length (rows df)).
Proof.
  unfold iterrows. rewrite fmap_imap.
  replace (imap _ (rows df)) with (imap (λ (i : nat) (_ : gmap string scalar), i) (rows df)) by done.
  generalize (rows df). intros l. apply list_eq. intros i.
  rewrite list_lookup_imap.
  destruct (l !! i) eqn:E; simpl.
  - apply lookup_lt_Some in E. by rewrite lookup_seq_lt.
  - apply lookup_ge_None in E. by rewrite lookup_seq_ge.
Qed.

Lemma filter_labels_NoDup {A} (f : nat * A → bool) (l : list (nat * A)) :
  NoDup l.*1 → NoDup (List.filter f l).*1.
Proof.
  induction l as [|[i x] l IH]; [done|]. rewrite fmap_cons.
  intros [Hi Hl]%NoDup_cons. simpl. destruct (f (i, x)); [|by apply IH].
  rewrite fmap_cons. apply NoDup_cons. split; [|by apply IH].
  intros (y & Hy & Hin)%list_elem_of_fmap. apply Hi. apply list_elem_of_fmap.
  exists y. split; [done|]. apply list_elem_of_In, filter_In in Hin as [Hin _].
  by apply list_elem_of_In.
Qed.

Lemma elem_of_with_image df idx s :
  (idx, s) ∈ List.filter has_image (iterrows df)
  ↔ ∃ r, rows df !! idx = Some r ∧ s = Series (columns df) r
       ∧ isna (default NaN (r !! "image_path")) = false.
Proof.
  rewrite list_elem_of_In, filter_In, <- list_elem_of_In, elem_of_iterrows.
  unfold has_image. split.
  - intros [(r & Hr & ->) Himg]. exists r. simpl in Himg.
    by apply negb_true_iff in Himg.
  - intros (r & Hr & -> & Himg). split; [eauto|]. simpl. by rewrite Himg.
Qed.

Lemma zip_with_columns {A B C} (f : A → C → A) (h : B → B → C) (g1 g2 : A → B) l :
  zip_with f l (zip_with h (g1 <$> l) (g2 <$> l))
  = (λ r, f r (h (g1 r) (g2 r))) <$> l.
Proof. induction l as [|r l IH]; [done|]. rewrite !fmap_cons. simpl. by f_equal. Qed.

(** The value a row has of a column that is there. *)
Lemma series_item_Ok cols r col v :
  series_item (Series cols r) col = Ok v → v = default NaN (r !! col).
Proof. unfold series_item. simpl. case_bool_decide; congruence. Qed.

Lemma column_Ok df col vs :
  column df col = Ok vs →
  col ∈ columns df
  ∧ vs = (λ r : gmap string scalar, default NaN (r !! col)) <$> rows df.
Proof. unfold column. case_bool_decide; [|done]. by intros [= <-]. Qed.

(** The frame after the loop, the frame not having had the column. *)
Lemma merge_loop_fresh df svc w w1 df1 :
  "full_sentiment" ∉ columns df →
  for_fold (List.filter has_image (iterrows df)) df (merge_row lib) svc w
  = (w1, Ok df1) →
  "full_sentiment" ∈ columns df1 →
  columns df1 = columns df ++ ["full_sentiment"]
  ∧ length (rows df1) = length (rows df)
  ∧ ∀ idx r0, rows df !! idx = Some r0 →
      ∃ r1, rows df1 !! idx = Some r1
        ∧ (∀ col, col ≠ "full_sentiment" → r1 !! col = r0 !! col)
        ∧ (isna (default NaN (r0 !! "image_path")) = true →
           r1 !! "full_sentiment" = None)
        ∧ (isna (default NaN (r0 !! "image_path")) = false →
           merged lib svc (Series (columns df) r0) (r1 !! "full_sentiment")).
Proof.
  intros Hfresh Hrun Hthere.
  pose proof (elem_of_with_image df) as Hin.
  assert (NoDup (List.filter has_image (iterrows df)).*1) as Hnodup.
  { apply filter_labels_NoDup. rewrite iterrows_labels. apply NoDup_seq. }
  destruct (List.filter has_image (iterrows df)) as [|[i s] L].
  { simpl in Hrun. by injection Hrun as _ <-. }
  simpl in Hrun. rewrite bind_run in Hrun.
  destruct (merge_row lib df (i, s) svc w) as [w0 [d|e]] eqn:Hrow;
    [|discriminate].
  apply merge_row_ok in Hrow as (v & Hmerged & ->). simpl in Hmerged.
  rewrite fmap_cons in Hnodup. apply NoDup_cons in Hnodup as [Hi Hnodup].
  unfold at_set in Hrun. rewrite bool_decide_eq_false_2 in Hrun by done.
  apply merge_loop in Hrun as (Hcols & Hlen & Hrows); [|done|].
  2:{ simpl. apply elem_of_app. right. by apply list_elem_of_singleton. }
  simpl in *. rewrite length_alter, length_fmap in Hlen.
  repeat split; [done..|].
  intros idx r0 Hr0.
  destruct (decide (idx = i)) as [->|Hne].
  - destruct (Hrows i (<["full_sentiment" := v]> (delete "full_sentiment" r0)))
      as (r1 & Hr1 & Hother & Hfs & _).
    { by rewrite list_lookup_alter_eq, list_lookup_fmap, Hr0. }
    assert (s = Series (columns df) r0
            ∧ isna (default NaN (r0 !! "image_path")) = false) as [-> Himg].
    { destruct (proj1 (Hin i s)) as (r & Hr & -> & Himg); [by left|].
      by simplify_eq. }
    exists r1. split; [done|]. split; [|split].
    + intros col Hcol. by rewrite Hother, lookup_insert_ne, lookup_delete_ne.
    + congruence.
    + intros _. by rewrite Hfs, lookup_insert_eq.
  - destruct (Hrows idx (delete "full_sentiment" r0))
      as (r1 & Hr1 & Hother & Hfs & Hloop).
    { by rewrite list_lookup_alter_ne, list_lookup_fmap, Hr0. }
    exists r1. split; [done|]. split; [|split].
    + intros col Hcol. by rewrite Hother, lookup_delete_ne.
    + intros Himg. rewrite Hfs; [apply lookup_delete_eq|].
      intros ((idx' & s') & Heq & Hs')%list_elem_of_fmap. simpl in Heq. subst idx'.
      destruct (proj1 (Hin idx s')) as (r & Hr & -> & Himg'); [by right|].
      simplify_eq. congruence.
    + intros Himg. apply Hloop.
      assert ((idx, Series (columns df) r0) ∈ (i, s) :: L) as Hmem.
      { apply Hin. eauto. }
      apply elem_of_cons in Hmem as [Heq|Hmem]; [congruence|done].
Qed.

(** What a completed run of the cell returned. *)
Lemma merge_cell_ok df svc w w' df' :
  merge_cell lib df svc w = (w', Ok df') →
  ∃ w1 df1,
    for_fold (List.filter has_image (iterrows df)) df (merge_row lib) svc w
    = (w1, Ok df1)
    ∧ "full_sentiment" ∈ columns df1
    ∧ df' = DataFrame (columns df1)
              ((λ r : gmap string scalar,
                  <["full_sentiment" :=
                      if isna (default NaN (r !! "full_sentiment"))
                      then default NaN (r !! "text")
                      else default NaN (r !! "full_sentiment")]> r)
               <$> rows df1).
Proof.
  unfold merge_cell. rewrite bind_run, lift_run.
  destruct (column df "image_path") as [images|e]; [|discriminate].
  rewrite bind_run.
  destruct (for_fold _ df (merge_row lib) svc w) as [w1 [df1|e]] eqn:Hloop;
    [|discriminate].
  rewrite bind_run, lift_run.
  destruct (column df1 "full_sentiment") as [full|e] eqn:Hfull; [|discriminate].
  rewrite bind_run, lift_run.
  destruct (column df1 "text") as [text|e] eqn:Htext; [|discriminate].
  apply column_Ok in Hfull as [Hcol ->]. apply column_Ok in Htext as [_ ->].
  cbv zeta. rewrite !bind_run. unfold open_w, write, print. simpl.
  intros [= _ <-]. exists w1, df1. split; [done|]. split; [done|].
  unfold set_column, fillna. rewrite bool_decide_eq_true_2 by done.
  by rewrite zip_with_columns.
Qed.

(** C9.  When the merge cell completes on a frame that came without a
    [full_sentiment] column, the frame it returns has that one column
    more and, row for row, every other value unchanged.  A row without an
    image gets its text as [full_sentiment], unchanged; a row with an
    image gets the sentiment [analyze_image_sentiment] returned for the
    image, prefixed by the row's text and a space when the text is
    present.  So [full_sentiment] is non-null whenever the text or the
    image path was present. *)
Theorem merge_fills_full_sentiment df svc w w' df' :
  "full_sentiment" ∉ columns df →
  merge_cell lib df svc w = (w', Ok df') →
  columns df' = columns df ++ ["full_sentiment"]
  ∧ length (rows df') = length (rows df)
  ∧ ∀ idx row, rows df !! idx = Some row →
      ∃ row', rows df' !! idx = Some row'
        ∧ (∀ col, col ≠ "full_sentiment" → row' !! col = row !! col)
        ∧ let text := default NaN (row !! "text") in
          let image := default NaN (row !! "image_path") in
          let full := default NaN (row' !! "full_sentiment") in
          (isna image = true → full = text)
          ∧ (isna image = false →
             ∃ name sentiment wa wb,
               image = SStr name
               ∧ analyze_image_sentiment (image_file lib name) svc wa
                 = (wb, Ok sentiment)
               ∧ full = SStr (if isna text then sentiment
                              else py_str text +:+ " " +:+ sentiment))
          ∧ (isna text = false ∨ isna image = false → isna full = false).
Proof.
  intros Hfresh (w1 & df1 & Hloop & Hthere & ->)%merge_cell_ok.
  destruct (merge_loop_fresh df svc w w1 df1 Hfresh Hloop Hthere)
    as (Hcols & Hlen & Hrows).
  simpl. rewrite length_fmap. repeat split; [done..|].
  intros idx row Hrow.
  destruct (Hrows idx row Hrow) as (r1 & Hr1 & Hother & Hnone & Hmerged).
  eexists. split; [by rewrite list_lookup_fmap, Hr1|].
  split; [intros col Hcol; by rewrite lookup_insert_ne, Hother|].
  rewrite lookup_insert_eq. simpl.
  rewrite (Hother "text") by done.
  destruct (isna (default NaN (row !! "image_path"))) eqn:Himg.
  - rewrite Hnone by done. simpl.
    split; [done|]. split; [done|]. by intros [?|?].
  - destruct (Hmerged eq_refl) as (name & sentiment & text & wa & wb
                                   & Hname & Hs & Htext & Hfs).
    apply series_item_Ok in Hname, Htext. subst text.
    rewrite Hfs. simpl. split; [done|]. split; [|done].
    intros _. exists name, sentiment, wa, wb. split; [done|]. split; [done|].
    unfold merged_text. by destruct (isna (default NaN (row !! "text"))).
Qed.

End merge.

Lemma merge_fills_full_sentiment_witness :
  ∃ w' df',
    image_rag.merge_cell plain_library reviews sentiment_service stocked_world
    = (w', Ok df')
    ∧ columns df' = columns reviews ++ ["full_sentiment"]
    ∧ length (rows df') = length (rows reviews).
Proof.
  eexists _, _. split; [vm_compute; reflexivity|].
  edestruct (merge_fills_full_sentiment plain_library reviews sentiment_service
               stocked_world) as (Hcols & Hlen & _);
    [compute_done | vm_compute; reflexivity |].
  split; [exact Hcols | exact Hlen].
Defined.

(** The three reviews after the merge. *)
Example merged_reviews :
  (λ df, (λ row : gmap string scalar, row !! "full_sentiment") <$> rows df)
    <$> (image_rag.merge_cell plain_library reviews sentiment_service stocked_world).2
  = Ok [ Some (SStr "The pizza was late. Burnt pizza, negative.");
         Some (SStr "Burnt pizza, negative.");
         Some (SStr "Great spaghetti!") ].
Proof. vm_compute. reflexivity. Qed.

(** ** The cache of the generated image *)

Section image_cache.
Import image_rag.

Lemma encode_utf8_app s t : encode_utf8 (s +:+ t) = encode_utf8 s ++ encode_utf8 t.
Proof. induction s as [|c s IH]; [done|]. simpl. by rewrite <- IH. Qed.

Lemma encode_utf8_inj s t : encode_utf8 s = encode_utf8 t → s = t.
Proof.
  intros H. rewrite <- (string_of_list_ascii_of_string s),
                    <- (string_of_list_ascii_of_string t).
  unfold encode_utf8 in H. by rewrite H.
Qed.

Lemma app_inj_suffix s1 s2 t : s1 +:+ t = s2 +:+ t → s1 = s2.
Proof.
  intros H. apply encode_utf8_inj. apply (app_inv_tail (encode_utf8 t)).
  by rewrite <- !encode_utf8_app, H.
Qed.

Lemma open_w_run path svc w :
  open_w path svc w = (World (<[path := []]> (files w)) (output w) (calls w), Ok ()).
Proof. done. Qed.

Lemma write_run path data svc w :
  write path data svc w
  = (World (<[path := default [] (files w !! path) ++ data]> (files w))
           (output w) (calls w), Ok ()).
Proof. done. Qed.

Lemma print_run line svc w :
  print line svc w = (World (files w) (output w ++ [Printed line]) (calls w), Ok ()).
Proof. done. Qed.

Lemma display_image_run path svc w :
  display_image path svc w
  = (World (files w) (output w ++ [DisplayedImage path]) (calls w), Ok ()).
Proof. done. Qed.

(** Two sessions share the cache file only if they hash the prompt alike. *)
Lemma cache_path_inj k k' :
  cache_path k = cache_path k' → pyhash.hash k prompt = pyhash.hash k' prompt.
Proof.
  unfold cache_path. intros H. apply (inj (String.app _)) in H.
  apply app_inj_suffix in H. by apply (inj pretty) in H.
Qed.

(** The image is in the cache: no call, the file is shown. *)
Lemma generate_image_cached k svc w :
  is_Some (files w !! cache_path k) →
  generate_image_cell k svc w
  = (World (files w)
           (output w ++ [Printed ("Loading from cache: " +:+ cache_path k);
                         DisplayedImage (cache_path k)])
           (calls w), Ok ()).
Proof.
  intros Hc. unfold generate_image_cell. rewrite bind_run. unfold path_exists.
  rewrite bool_decide_eq_true_2 by done. simpl negb. cbv iota.
  rewrite bind_run. unfold print, display_image. simpl.
  by rewrite <- app_assoc.
Qed.

(** The image is not in the cache: one call, and no file but the cache
    file is touched. *)
Lemma generate_image_missing k svc w :
  files w !! cache_path k = None →
  let run := generate_image_cell k svc w in
  calls run.1
  = calls w ++ [(Request "images.generate" generate_request,
                 svc (calls w) (Request "images.generate" generate_request))]
  ∧ (∀ path, path ≠ cache_path k → files run.1 !! path = files w !! path)
  ∧ (run.2 = Ok () → is_Some (files run.1 !! cache_path k)).
Proof.
  intros Hc. unfold generate_image_cell. rewrite bind_run. unfold path_exists.
  rewrite bool_decide_eq_false_2 by (rewrite Hc; by intros [? ?]).
  simpl negb. cbv iota. rewrite !bind_run, call_run. cbv zeta.
  destruct (svc (calls w) _) as [response|d]; [|by simpl].
  rewrite !bind_run, open_w_run. cbv beta iota. rewrite !bind_run, lift_run.
  destruct (_ ≫= _) as [image|e].
  - rewrite !bind_run, write_run. cbv beta iota.
    rewrite print_run, display_image_run. simpl.
    repeat split; [|by rewrite !lookup_insert_eq].
    intros path Hpath. by rewrite !lookup_insert_ne.
  - simpl. repeat split; [|done]. intros path Hpath. by rewrite !lookup_insert_ne.
Qed.

(** C10.  The cache file of the generated image is named after
    [hash(prompt)], which depends on the interpreter session.  Whenever
    two sessions hash the prompt differently, they use different cache
    files: after a run of the cell in the first session has cached the
    image, a second run in that session makes no call, while a run in the
    other session does not find the file and repeats the external call. *)
Theorem cache_file_varies_with_session k k' svc w w1 :
  pyhash.hash k prompt ≠ pyhash.hash k' prompt →
  files w !! cache_path k' = None →
  generate_image_cell k svc w = (w1, Ok ()) →
  cache_path k ≠ cache_path k'
  ∧ is_Some (files w1 !! cache_path k)
  ∧ files w1 !! cache_path k' = None
  ∧ calls (generate_image_cell k svc w1).1 = calls w1
  ∧ calls (generate_image_cell k' svc w1).1
    = calls w1 ++ [(Request "images.generate" generate_request,
                    svc (calls w1) (Request "images.generate" generate_request))].
Proof.
  intros Hhash Hnone Hrun.
  assert (cache_path k ≠ cache_path k') as Hpath.
  { intros H. by apply Hhash, cache_path_inj. }
  assert (is_Some (files w1 !! cache_path k)
          ∧ files w1 !! cache_path k' = None) as [Hsome Hnone'].
  { destruct (files w !! cache_path k) as [image|] eqn:Hc.
    - rewrite generate_image_cached in Hrun by (rewrite Hc; eauto).
      injection Hrun as <-. simpl. rewrite Hc. eauto.
    - destruct (generate_image_missing k svc w Hc) as (_ & Hother & Hok).
      rewrite Hrun in Hother, Hok. simpl in *.
      split; [by apply Hok|]. rewrite Hother; [done|congruence]. }
  split; [done|]. split; [done|]. split; [done|]. split.
  - by rewrite generate_image_cached.
  - by destruct (generate_image_missing k' svc w1 Hnone') as (-> & _).
Qed.

End image_cache.

Lemma cache_file_varies_with_session_witness :
  let k := pyhash.secret_of_seed 1 in
  let k' := pyhash.secret_of_seed 2 in
  let w1 := (image_rag.generate_image_cell k image_service empty_world).1 in
  image_rag.cache_path k ≠ image_rag.cache_path k'
  ∧ is_Some (files w1 !! image_rag.cache_path k)
  ∧ files w1 !! image_rag.cache_path k' = None
  ∧ calls (image_rag.generate_image_cell k image_service w1).1 = calls w1
  ∧ calls (image_rag.generate_image_cell k' image_service w1).1
    = calls w1 ++ [(Request "images.generate" image_rag.generate_request,
                    image_service (calls w1)
                      (Request "images.generate" image_rag.generate_request))].
Proof.
  intros k k' w1.
  apply (cache_file_varies_with_session k k' image_service empty_world w1).
  - vm_compute. discriminate.
  - vm_compute. reflexivity.
  - vm_compute. reflexivity.
Defined.

(** ** The action's endpoint *)

Section service_errors.
Import gateway.

Lemma client_fails r :
  is_success (status_code r) = false →
  client r = inl {| status := status_code r; kind := category_of (status_code r) |}.
Proof. intros Hr. unfold client. by rewrite Hr. Qed.

Lemma client_inl r e :
  client r = inl e → status e = status_code r ∧ kind e = category_of (status_code r).
Proof. unfold client. destruct (is_success _); [done|]. by intros [= <-]. Qed.

(** C7.  Whenever the endpoint returns a non-success status the client
    fails with a [ServiceError] that carries the status and its category,
    and the error of a 400 is a client error and differs from the error
    of a 401, which is an auth error. *)
Theorem non_success_is_a_service_error (r : http_response) :
  is_success (status_code r) = false →
  ∃ e, client r = inl e
       ∧ status e = status_code r
       ∧ kind e = category_of (status_code r)
       ∧ ∀ r' e', client r' = inl e' →
           status_code r = 400 → status_code r' = 401 →
           kind e = ClientError ∧ kind e' = AuthError ∧ e ≠ e'.
Proof.
  intros Hr. eexists. split; [by apply client_fails|]. simpl.
  do 2 (split; [done|]).
  intros r' e' [_ He']%client_inl H400 H401.
  rewrite H400. rewrite H401 in He'. split; [done|]. split; [done|].
  intros Heq. rewrite <- Heq in He'. discriminate.
Qed.

Lemma non_success_is_a_service_error_witness :
  ∃ e, client (HttpResponse 400 (JVal SNone)) = inl e
       ∧ status e = 400
       ∧ kind e = ClientError
       ∧ ∀ r' e', client r' = inl e' →
           400 = 400 → status_code r' = 401 →
           kind e = ClientError ∧ kind e' = AuthError ∧ e ≠ e'.
Proof.
  apply (non_success_is_a_service_error (HttpResponse 400 (JVal SNone))).
  reflexivity.
Defined.

End service_errors.

(** ** Sets of strings

    A set built from a list holds the strings of the list, each once,
    whatever the hashes: the probe sequence of [set_add_entry] finds a
    free slot, and the table stays a hash table. *)

Section probe_sequence.
Import pyhash.

Lemma geometric_pow j : 4 * geometric j = 5 ^ Z.of_nat j - 1.
Proof.
  induction j as [|j IH]; [done|].
  rewrite Nat2Z.inj_succ, Z.pow_succ_r by lia.
  unfold geometric in *. simpl. lia.
Qed.

Lemma lcg_iter n j i :
  Nat.iter j (lcg n) i mod 2 ^ Z.of_nat n
  = (5 ^ Z.of_nat j * i + geometric j) mod 2 ^ Z.of_nat n.
Proof.
  induction j as [|j IH].
  - simpl. f_equal. unfold geometric. simpl. lia.
  - rewrite Nat2Z.inj_succ, Z.pow_succ_r by lia.
    simpl. unfold lcg at 1. rewrite Z.mod_mod by lia.
    rewrite <- Zplus_mod_idemp_l, <- Zmult_mod_idemp_l, IH.
    rewrite Zmult_mod_idemp_l, Zplus_mod_idemp_l.
    f_equal. unfold geometric. simpl. lia.
Qed.

Lemma lcg_range n i : 0 ≤ lcg n i < 2 ^ Z.of_nat n.
Proof. apply Z.mod_pos_bound. lia. Qed.

Lemma lcg_iter_range n j i :
  0 ≤ i < 2 ^ Z.of_nat n → 0 ≤ Nat.iter j (lcg n) i < 2 ^ Z.of_nat n.
Proof. destruct j; [done|]. intros _. simpl. apply lcg_range. Qed.

(** [5 ^ (2 ^ m) = 1 + 2 ^ (m + 2) * odd]. *)
Lemma pow5_pow2 (m : nat) :
  ∃ u, 5 ^ (2 ^ Z.of_nat m) = 1 + 2 ^ (Z.of_nat m + 2) * (2 * u + 1) ∧ 0 ≤ u.
Proof.
  induction m as [|m (u & IH & Hu)].
  - exists 0. done.
  - rewrite Nat2Z.inj_succ, Z.pow_succ_r by lia.
    replace (2 * 2 ^ Z.of_nat m) with (2 ^ Z.of_nat m + 2 ^ Z.of_nat m) by lia.
    rewrite Z.pow_add_r, IH by lia.
    replace (Z.succ (Z.of_nat m) + 2) with (Z.of_nat m + 3) by lia.
    rewrite !Z.pow_add_r by lia.
    set (P := 2 ^ Z.of_nat m). assert (0 < P) by (apply Z.pow_pos_nonneg; lia).
    exists (u + P * (2 * u + 1) * (2 * u + 1)). split; [|nia].
    change (2 ^ 2) with 4. change (2 ^ 3) with 8. ring.
Qed.

(** After [2 ^ m] steps in a table of [2 ^ (m + 1)] slots the sequence is
    half the table further. *)
Lemma lcg_half_turn (m : nat) i :
  0 ≤ i < 2 ^ Z.of_nat (S m) →
  Nat.iter (2 ^ m) (lcg (S m)) i = (i + 2 ^ Z.of_nat m) mod 2 ^ Z.of_nat (S m).
Proof.
  intros Hi.
  rewrite <- (Z.mod_small (Nat.iter _ _ _) (2 ^ Z.of_nat (S m)))
    by (by apply lcg_iter_range).
  rewrite lcg_iter.
  destruct (pow5_pow2 m) as (u & Hu & ?).
  pose proof (geometric_pow (2 ^ m)) as Hg.
  rewrite Nat2Z.inj_pow in *. change (Z.of_nat 2) with 2 in *.
  rewrite Hu in *. rewrite Z.pow_add_r in * by lia. change (2 ^ 2) with 4 in *.
  rewrite Nat2Z.inj_succ, Z.pow_succ_r by lia.
  set (P := 2 ^ Z.of_nat m) in *.
  assert (geometric (2 ^ m) = P * (2 * u + 1)) as -> by lia.
  replace ((1 + P * 4 * (2 * u + 1)) * i + P * (2 * u + 1))
    with (i + P + (2 * i * (2 * u + 1) + u) * (2 * P)) by ring.
  by rewrite Z_mod_plus_full.
Qed.

Lemma lcg_mod (m : nat) j i :
  Nat.iter j (lcg (S m)) i mod 2 ^ Z.of_nat m
  = Nat.iter j (lcg m) (i mod 2 ^ Z.of_nat m) mod 2 ^ Z.of_nat m.
Proof.
  assert (0 < 2 ^ Z.of_nat m) by (apply Z.pow_pos_nonneg; lia).
  assert (0 < 2 ^ Z.of_nat (S m)) by (apply Z.pow_pos_nonneg; lia).
  assert (2 ^ Z.of_nat m | 2 ^ Z.of_nat (S m)).
  { exists 2. rewrite Nat2Z.inj_succ, Z.pow_succ_r; lia. }
  rewrite <- (Z.mod_mod_divide _ (2 ^ Z.of_nat (S m))) by done.
  rewrite !lcg_iter, Z.mod_mod_divide by done.
  symmetry.
  by rewrite <- Zplus_mod_idemp_l, Zmult_mod_idemp_r, Zplus_mod_idemp_l.
Qed.

(** The sequence visits every slot of the table within [2 ^ n] steps. *)
Lemma lcg_covers (n : nat) : ∀ i u,
  0 ≤ i < 2 ^ Z.of_nat n → 0 ≤ u < 2 ^ Z.of_nat n →
  ∃ j, (j < 2 ^ n)%nat ∧ Nat.iter j (lcg n) i = u.
Proof.
  induction n as [|m IH]; intros i u Hi Hu.
  - exists 0%nat. simpl in *. split; lia.
  - assert (0 < 2 ^ Z.of_nat m) by (apply Z.pow_pos_nonneg; lia).
    assert (2 ^ Z.of_nat (S m) = 2 * 2 ^ Z.of_nat m) as HS
      by (rewrite Nat2Z.inj_succ, Z.pow_succ_r; lia).
    destruct (IH (i mod 2 ^ Z.of_nat m) (u mod 2 ^ Z.of_nat m)) as (j & Hj & Hiter);
      [by apply Z.mod_pos_bound..|].
    pose proof (lcg_mod m j i) as Hmod. rewrite Hiter, Z.mod_mod in Hmod by lia.
    pose proof (lcg_iter_range (S m) j i Hi) as Hrange.
    set (y := Nat.iter j (lcg (S m)) i) in *.
    destruct (decide (y = u)) as [Hy|Hy].
    + exists j. split; [simpl; lia|done].
    + exists (2 ^ m + j)%nat. split; [simpl; lia|].
      rewrite Nat.iter_add. fold y. rewrite lcg_half_turn by done.
      rewrite HS in *. clear Hiter IH. revert H Hmod Hy Hrange Hu.
      generalize (2 ^ Z.of_nat m). intros P HP Hmod Hy Hrange Hu.
      assert (∀ x, 0 ≤ x < 2 * P →
                   x mod P = (if decide (x < P) then x else x - P)) as Hhalf.
      { intros x Hx. case_decide.
        - apply Z.mod_small. lia.
        - symmetry. apply (Z.mod_unique_pos _ _ 1). lia. lia. }
      rewrite (Hhalf y), (Hhalf u) in Hmod by done.
      repeat case_decide.
      * lia.
      * rewrite Z.mod_small; lia.
      * symmetry. apply (Z.mod_unique_pos _ _ 1); lia.
      * lia.
Qed.

End probe_sequence.

Section scanning.
Import pyhash.
Context (t : list slot) (h : Z) (key : string).

Lemma scan_FoundUnused probes : ∀ i j,
  scan t i probes h key = FoundUnused j → t !! j = Some Unused.
Proof.
  induction probes as [|probes IH]; intros i j; simpl;
    destruct (t !! i) as [[|h' key']|] eqn:E; try done.
  - by intros [= <-].
  - by destruct (_ && _).
  - by intros [= <-].
  - destruct (_ && _); [done|]. apply IH.
Qed.

Lemma scan_FoundActive probes : ∀ i,
  scan t i probes h key = FoundActive → ∃ j, t !! j = Some (Active h key).
Proof.
  induction probes as [|probes IH]; intros i; simpl;
    destruct (t !! i) as [[|h' key']|] eqn:E; try done.
  - destruct (_ && _) eqn:Hm; [|done]. intros _.
    apply andb_prop in Hm as [->%Z.eqb_eq ->%bool_decide_eq_true]. eauto.
  - destruct (_ && _) eqn:Hm; [|apply IH]. intros _.
    apply andb_prop in Hm as [->%Z.eqb_eq ->%bool_decide_eq_true]. eauto.
Qed.

Lemma scan_NotFound probes i :
  scan t i probes h key = NotFound → t !! i ≠ Some Unused.
Proof. destruct probes; simpl; by destruct (t !! i) as [[|h' key']|]. Qed.

(** Filling a free slot changes no scan that did not end on a free slot. *)
Lemma scan_insert j e probes : ∀ i,
  t !! j = Some Unused →
  (∀ j', scan t i probes h key ≠ FoundUnused j') →
  scan (<[j := e]> t) i probes h key = scan t i probes h key.
Proof.
  intros i Hj. revert i.
  assert (∀ i probes, i = j → scan t i probes h key = FoundUnused j) as Hat.
  { intros i [|?] ->; simpl; by rewrite Hj. }
  induction probes as [|probes IH]; intros i Hr;
    (destruct (decide (i = j)) as [Hij|Hij]; [by destruct (Hr j); apply Hat|]);
    simpl in *; rewrite list_lookup_insert_ne by done;
    destruct (t !! i) as [[|h' key']|] eqn:E; try done.
  destruct (_ && _); [done|]. by apply IH.
Qed.

Lemma scan_insert_found probes : ∀ i j,
  scan t i probes h key = FoundUnused j →
  scan (<[j := Active h key]> t) i probes h key = FoundActive.
Proof.
  assert (∀ j, is_Some (t !! j) →
               <[j := Active h key]> t !! j = Some (Active h key)) as Hins.
  { intros j [? ?%lookup_lt_Some]. by apply list_lookup_insert_eq. }
  induction probes as [|probes IH]; intros i j; simpl;
    destruct (t !! i) as [[|h' key']|] eqn:E; try done.
  - intros [= <-]. rewrite Hins by eauto.
    by rewrite Z.eqb_refl, bool_decide_eq_true_2.
  - by destruct (_ && _).
  - intros [= <-]. rewrite Hins by eauto.
    by rewrite Z.eqb_refl, bool_decide_eq_true_2.
  - destruct (_ && _) eqn:Hm; [done|]. intros Hscan.
    assert (i ≠ j) as Hij.
    { intros ->. apply scan_FoundUnused in Hscan. congruence. }
    rewrite list_lookup_insert_ne, E, Hm by done. by apply IH.
Qed.

End scanning.

Section probing.
Import pyhash.
Context (h : Z) (key : string).

Lemma lookkey_S turns t mask i perturb :
  lookkey (S turns) t mask i perturb h key
  = match scan t (Z.to_nat i) (probes_at mask i) h key with
    | NotFound =>
        lookkey turns t mask (next_probe mask i perturb)
                (Z.shiftr perturb PERTURB_SHIFT) h key
    | found => found
    end.
Proof. done. Qed.

Lemma lookkey_FoundUnused t mask turns : ∀ i perturb j,
  lookkey turns t mask i perturb h key = FoundUnused j → t !! j = Some Unused.
Proof.
  induction turns as [|turns IH]; intros i perturb j; [done|].
  rewrite lookkey_S.
  destruct (scan _ _ _ _ _) eqn:E; [|done|apply IH].
  intros [= <-]. by apply scan_FoundUnused in E.
Qed.

Lemma lookkey_FoundActive t mask turns : ∀ i perturb,
  lookkey turns t mask i perturb h key = FoundActive →
  ∃ j, t !! j = Some (Active h key).
Proof.
  induction turns as [|turns IH]; intros i perturb; [done|].
  rewrite lookkey_S.
  destruct (scan _ _ _ _ _) eqn:E; [done| |apply IH].
  intros _. by apply scan_FoundActive in E.
Qed.

Lemma lookkey_insert t mask j e turns : ∀ i perturb,
  t !! j = Some Unused →
  (∀ j', lookkey turns t mask i perturb h key ≠ FoundUnused j') →
  lookkey turns (<[j := e]> t) mask i perturb h key
  = lookkey turns t mask i perturb h key.
Proof.
  intros i perturb Hj. revert i perturb.
  induction turns as [|turns IH]; intros i perturb; [done|].
  rewrite !lookkey_S. intros Hr.
  rewrite scan_insert; [|done|].
  - destruct (scan _ _ _ _ _) eqn:E; [done..|]. by apply IH.
  - intros j' E. rewrite E in Hr. by destruct (Hr j').
Qed.

Lemma lookkey_insert_found t mask turns : ∀ i perturb j,
  lookkey turns t mask i perturb h key = FoundUnused j →
  lookkey turns (<[j := Active h key]> t) mask i perturb h key = FoundActive.
Proof.
  induction turns as [|turns IH]; intros i perturb j; [done|].
  rewrite !lookkey_S.
  destruct (scan t _ _ _ _) eqn:E.
  - intros [= <-]. by rewrite (scan_insert_found _ _ _ _ _ _ E).
  - done.
  - intros Hl. rewrite scan_insert, E.
    + by apply IH.
    + by eapply lookkey_FoundUnused.
    + intros j'. by rewrite E.
Qed.

End probing.

Section termination.
Import pyhash.
Context (n : nat) (t : list slot) (mask : Z) (h : Z) (key : string).
Context (Hsized : sized n t mask).

Lemma land_u64_mask x : Z.land (u64 x) mask = x mod 2 ^ Z.of_nat n.
Proof.
  destruct Hsized as (Hn & -> & _).
  replace (2 ^ Z.of_nat n - 1) with (Z.ones (Z.of_nat n))
    by (rewrite Z.ones_equiv; lia).
  rewrite Z.land_ones by lia.
  unfold u64. apply Z.mod_mod_divide.
  exists (2 ^ (64 - Z.of_nat n)). rewrite <- Z.pow_add_r by lia. f_equal. lia.
Qed.

Lemma next_probe_range i perturb :
  0 ≤ next_probe mask i perturb < 2 ^ Z.of_nat n.
Proof. unfold next_probe. rewrite land_u64_mask. apply Z.mod_pos_bound. lia. Qed.

Lemma next_probe_0 i : next_probe mask i 0 = lcg n i.
Proof.
  unfold next_probe. rewrite land_u64_mask. unfold lcg.
  change (Z.shiftr 0 PERTURB_SHIFT) with 0. f_equal. lia.
Qed.

Lemma lookkey_NotFound_visits turns : ∀ i j,
  lookkey turns t mask i 0 h key = NotFound →
  (j < turns)%nat →
  t !! Z.to_nat (Nat.iter j (lcg n) i) ≠ Some Unused.
Proof.
  induction turns as [|turns IH]; intros i j; [lia|].
  rewrite lookkey_S.
  destruct (scan _ _ _ _ _) eqn:E; [done..|].
  change (Z.shiftr 0 PERTURB_SHIFT) with 0. rewrite next_probe_0.
  intros Hl Hj. destruct j as [|j].
  - by apply scan_NotFound in E.
  - rewrite Nat.iter_succ_r. apply IH; [done|lia].
Qed.

Lemma lookkey_finds_0 turns i u :
  t !! u = Some Unused →
  0 ≤ i < 2 ^ Z.of_nat n →
  (2 ^ n ≤ turns)%nat →
  lookkey turns t mask i 0 h key ≠ NotFound.
Proof.
  intros Hu Hi Hturns Hl.
  destruct Hsized as (Hn & Hmask & Hlen).
  assert (u < 2 ^ n)%nat as Hlt by (rewrite <- Hlen; by eapply lookup_lt_Some).
  destruct (lcg_covers n i (Z.of_nat u)) as (j & Hj & Hiter); [done| |].
  { split; [lia|]. apply inj_lt in Hlt. by rewrite Nat2Z.inj_pow in Hlt. }
  eapply (lookkey_NotFound_visits _ _ j) in Hl; [|lia].
  by rewrite Hiter, Nat2Z.id in Hl.
Qed.

Lemma lookkey_finds_perturb u (m : nat) : ∀ turns i perturb,
  t !! u = Some Unused →
  0 ≤ i < 2 ^ Z.of_nat n →
  0 ≤ perturb < 2 ^ (5 * Z.of_nat m) →
  (m + 2 ^ n ≤ turns)%nat →
  lookkey turns t mask i perturb h key ≠ NotFound.
Proof.
  induction m as [|m IH]; intros turns i perturb Hu Hi Hp Hturns.
  - assert (perturb = 0) as -> by (simpl in Hp; lia).
    by eapply lookkey_finds_0.
  - destruct turns as [|turns]; [lia|]. rewrite lookkey_S.
    destruct (scan _ _ _ _ _) eqn:E; [done..|].
    apply IH; [done|apply next_probe_range| |lia].
    unfold PERTURB_SHIFT. rewrite Z.shiftr_div_pow2 by lia.
    replace (5 * Z.of_nat (S m)) with (5 + 5 * Z.of_nat m) in Hp by lia.
    rewrite Z.pow_add_r in Hp by lia.
    split; [apply Z.div_pos; lia|]. apply Z.div_lt_upper_bound; lia.
Qed.

(** With a free slot in the table, the probe sequence ends within the
    turns [set_add_entry] allows. *)
Lemma lookkey_finds u :
  t !! u = Some Unused →
  lookkey (probe_turns t) t mask (Z.land (u64 h) mask) (u64 h) h key ≠ NotFound.
Proof.
  intros Hu. apply (lookkey_finds_perturb u 13); [done| | |].
  - rewrite land_u64_mask. apply Z.mod_pos_bound. lia.
  - unfold u64. pose proof (Z.mod_pos_bound h (2 ^ 64)). simpl. lia.
  - unfold probe_turns. destruct Hsized as (_ & _ & ->). lia.
Qed.

End termination.

Section tables.
Import pyhash.
Context (hf : string → Z).

Lemma elem_of_keys_of t key :
  key ∈ keys_of t ↔ ∃ i h, t !! i = Some (Active h key).
Proof.
  unfold keys_of. rewrite list_elem_of_omap. split.
  - intros ([|h key'] & Hin & [= ->]). apply list_elem_of_lookup in Hin as [i ?]. eauto.
  - intros (i & h & Hi). exists (Active h key). split; [|done].
    by eapply list_elem_of_lookup_2.
Qed.

Lemma keys_of_insert t j h key :
  t !! j = Some Unused → keys_of (<[j := Active h key]> t) ≡ₚ key :: keys_of t.
Proof.
  intros Hj. rewrite insert_take_drop by (by eapply lookup_lt_Some).
  rewrite <- (take_drop_middle t j Unused Hj) at 3.
  unfold keys_of. rewrite !omap_app. simpl. by rewrite Permutation_middle.
Qed.

Lemma free_slot t : (length (keys_of t) < length t)%nat → ∃ u, t !! u = Some Unused.
Proof.
  induction t as [|[|h key] t IH]; simpl; [lia| |].
  - intros _. by exists 0%nat.
  - intros Hlt. destruct IH as [u Hu]; [lia|]. by exists (S u).
Qed.

Lemma lookkey_present n t mask key :
  table_ok hf n t mask → key ∈ keys_of t →
  lookkey (probe_turns t) t mask (Z.land (u64 (hf key)) mask) (u64 (hf key))
          (hf key) key = FoundActive.
Proof.
  intros [_ Hh Hf _] (i & h & Hi)%elem_of_keys_of.
  rewrite <- (Hh _ _ _ Hi). by eapply Hf.
Qed.

(** A key the table does not hold goes to a free slot, and the table
    stays a hash table. *)
Lemma lookkey_absent n t mask key :
  table_ok hf n t mask → (length (keys_of t) < length t)%nat → key ∉ keys_of t →
  ∃ j, lookkey (probe_turns t) t mask (Z.land (u64 (hf key)) mask) (u64 (hf key))
               (hf key) key = FoundUnused j
       ∧ t !! j = Some Unused
       ∧ table_ok hf n (<[j := Active (hf key) key]> t) mask.
Proof.
  intros [Hs Hh Hf Hnd] [u Hu]%free_slot Hkey.
  destruct (lookkey _ _ _ _ _ _ _) as [j| |] eqn:E.
  - pose proof (lookkey_FoundUnused _ _ _ _ _ _ _ _ E) as Hj.
    exists j. split; [done|]. split; [done|]. split.
    + destruct Hs as (? & ? & ?). split; [done|]. split; [done|].
      by rewrite length_insert.
    + intros i h' key' Hi. destruct (decide (i = j)) as [->|Hij].
      * rewrite list_lookup_insert_eq in Hi by (by eapply lookup_lt_Some).
        by injection Hi as <- <-.
      * rewrite list_lookup_insert_ne in Hi by done. by eapply Hh.
    + intros i h' key' Hi. unfold probe_turns. rewrite length_insert.
      fold (probe_turns t). destruct (decide (i = j)) as [->|Hij].
      * rewrite list_lookup_insert_eq in Hi by (by eapply lookup_lt_Some).
        injection Hi as <- <-. by apply lookkey_insert_found.
      * rewrite list_lookup_insert_ne in Hi by done.
        rewrite lookkey_insert; [by eapply Hf|done|].
        intros j'. by erewrite Hf.
    + rewrite keys_of_insert by done. by constructor.
  - apply lookkey_FoundActive in E as [j Hj]. destruct Hkey.
    apply elem_of_keys_of. eauto.
  - by eapply lookkey_finds in E.
Qed.

(** [set_insert_clean] takes the slot [lookkey] would. *)
Lemma scan_clean_scan t h key probes : ∀ i,
  key ∉ keys_of t →
  scan t i probes h key
  = match scan_clean t i probes with Some j => FoundUnused j | None => NotFound end.
Proof.
  intros i Hkey. revert i.
  induction probes as [|probes IH]; intros i; simpl;
    destruct (t !! i) as [[|h' key']|] eqn:E; try done.
  all: destruct (_ && _) eqn:Hm; [|done].
  all: apply andb_prop in Hm as [->%Z.eqb_eq ->%bool_decide_eq_true].
  all: destruct Hkey; apply elem_of_keys_of; eauto.
Qed.

Lemma set_insert_clean_at_lookkey t mask h key turns : ∀ i perturb,
  key ∉ keys_of t →
  lookkey turns t mask i perturb h key
  = match set_insert_clean_at turns t mask i perturb with
    | Some j => FoundUnused j
    | None => NotFound
    end.
Proof.
  intros i perturb Hkey. revert i perturb.
  induction turns as [|turns IH]; intros i perturb; [done|].
  rewrite lookkey_S. simpl. unfold probes_at. rewrite scan_clean_scan by done.
  destruct (scan_clean _ _ _); [done|]. apply IH.
Qed.

Lemma set_insert_clean_absent n t mask key :
  table_ok hf n t mask → (length (keys_of t) < length t)%nat → key ∉ keys_of t →
  table_ok hf n (set_insert_clean t mask (Active (hf key) key)) mask
  ∧ keys_of (set_insert_clean t mask (Active (hf key) key)) ≡ₚ key :: keys_of t.
Proof.
  intros Hok Hfree Hkey.
  destruct (lookkey_absent n t mask key) as (j & Hl & Hj & Hok'); [done..|].
  rewrite set_insert_clean_at_lookkey in Hl by done.
  unfold set_insert_clean.
  destruct (set_insert_clean_at _ _ _ _ _) as [j'|]; [|done].
  injection Hl as ->. split; [done|]. by apply keys_of_insert.
Qed.

Lemma rebuild n mask (es : list slot) : ∀ t,
  table_ok hf n t mask → hashed hf es →
  NoDup (keys_of es ++ keys_of t) →
  (length (keys_of es) + length (keys_of t) < length t)%nat →
  let t' := foldl (λ t e, set_insert_clean t mask e) t es in
  table_ok hf n t' mask ∧ keys_of t' ≡ₚ keys_of es ++ keys_of t.
Proof.
  induction es as [|[|h key] es IH]; intros t Hok Hes Hnd Hlen; simpl.
  - done.
  - apply IH; [done| |done..]. intros i ???. by apply (Hes (S i)).
  - assert (h = hf key) as -> by (by apply (Hes 0%nat)).
    simpl in Hnd, Hlen. apply NoDup_cons in Hnd as [Hkey Hnd].
    apply not_elem_of_app in Hkey as [Hkey1 Hkey2].
    destruct (set_insert_clean_absent n t mask key) as [Hok' Hkeys]; [done|lia|done|].
    assert (length (set_insert_clean t mask (Active (hf key) key)) = length t) as Hl.
    { destruct Hok' as [(_ & _ & ->) _ _ _]. by destruct Hok as [(_ & _ & ->) _ _ _]. }
    destruct (IH (set_insert_clean t mask (Active (hf key) key))) as [Hok'' Hkeys''].
    + done.
    + intros i ???. by apply (Hes (S i)).
    + rewrite Hkeys. apply NoDup_app. apply NoDup_app in Hnd as (? & Hdis & ?).
      split; [done|]. split; [|by constructor].
      intros x Hx [->|?]%elem_of_cons; [done|]. by eapply Hdis.
    + rewrite Hl, Hkeys. simpl. lia.
    + split; [done|]. rewrite Hkeys'', Hkeys. by rewrite Permutation_middle.
Qed.

End tables.

Section sets.
Import pyhash.
Context (hf : string → Z).

Lemma grow_spec minused turns : ∀ m : nat,
  (64 ≤ m + turns)%nat → (m ≤ 64)%nat → 0 ≤ minused < 2 ^ 64 →
  ∃ n : nat, (n ≤ 64)%nat ∧ grow turns (2 ^ Z.of_nat m) minused = 2 ^ Z.of_nat n
             ∧ minused < 2 ^ Z.of_nat n.
Proof.
  induction turns as [|turns IH]; intros m Hturns Hm Hminused; simpl.
  - exists m. assert (m = 64%nat) as -> by lia. split; [done|]. split; [done|]. simpl. lia.
  - case_match eqn:E.
    + apply Z.leb_le in E.
      assert (m < 64)%nat.
      { apply Nat2Z.inj_lt. apply (Z.pow_lt_mono_r_iff 2); lia. }
      rewrite Z.shiftl_mul_pow2 by lia.
      replace (2 ^ Z.of_nat m * 2 ^ 1) with (2 ^ Z.of_nat (S m))
        by (rewrite Nat2Z.inj_succ, Z.pow_succ_r; lia).
      apply IH; lia.
    + apply Z.leb_gt in E. exists m. done.
Qed.

Lemma pow2_nat (n : nat) : Z.to_nat (2 ^ Z.of_nat n) = (2 ^ n)%nat.
Proof. rewrite <- (Nat2Z.id (2 ^ n)). by rewrite Nat2Z.inj_pow. Qed.

Lemma pow2_Z (n : nat) : Z.of_nat (2 ^ n) = 2 ^ Z.of_nat n.
Proof. by rewrite Nat2Z.inj_pow. Qed.

Lemma keys_of_replicate n : keys_of (replicate n Unused) = [].
Proof. induction n; [done|]. done. Qed.

Lemma table_ok_empty (n : nat) :
  (n ≤ 64)%nat →
  table_ok hf n (replicate (Z.to_nat (2 ^ Z.of_nat n)) Unused) (2 ^ Z.of_nat n - 1).
Proof.
  intros Hn. split.
  - split; [done|]. split; [done|].
    by rewrite length_replicate, pow2_nat.
  - intros i h key [? ?]%lookup_replicate. done.
  - intros i h key [? ?]%lookup_replicate. done.
  - rewrite keys_of_replicate. constructor.
Qed.

Lemma set_table_resize_ok n so minused :
  table_ok hf n (table so) (mask so) →
  used so = Z.of_nat (length (keys_of (table so))) →
  used so ≤ minused < 2 ^ 64 →
  set_ok hf (set_table_resize so minused)
  ∧ keys_of (table (set_table_resize so minused)) ≡ₚ keys_of (table so).
Proof.
  intros [Hs Hh Hf Hnd] Hused Hminused.
  unfold set_table_resize.
  destruct (grow_spec minused 64 3) as (n' & Hn' & Hgrow & Hlt); [lia..|].
  change (2 ^ Z.of_nat 3) with PySet_MINSIZE in Hgrow. rewrite Hgrow.
  destruct (rebuild hf n' (2 ^ Z.of_nat n' - 1) (table so)
              (replicate (Z.to_nat (2 ^ Z.of_nat n')) Unused))
    as [Hok Hkeys].
  - by apply table_ok_empty.
  - done.
  - by rewrite keys_of_replicate, app_nil_r.
  - rewrite keys_of_replicate, length_replicate. simpl. lia.
  - rewrite keys_of_replicate, app_nil_r in Hkeys.
    split; [|done]. exists n'. simpl. split; [done|].
    rewrite Hkeys. split; [done|]. split; [done|].
    destruct Hok as [(_ & _ & ->) _ _ _]. apply Nat2Z.inj_lt.
    rewrite pow2_Z. lia.
Qed.

(** What [set_add_entry] does to a set: nothing when it holds the key,
    one key more otherwise. *)
Lemma set_add_entry_ok so key :
  set_ok hf so → used so < 2 ^ 61 →
  let so' := set_add_entry so key (hf key) in
  set_ok hf so'
  ∧ keys_of (table so')
    ≡ₚ (if decide (key ∈ keys_of (table so)) then keys_of (table so)
        else key :: keys_of (table so)).
Proof.
  intros Hso Hbound. pose proof Hso as (n & Hok & Hused & Hfill & Hfree).
  unfold set_add_entry. case_decide as Hkey.
  - by rewrite (lookkey_present hf n).
  - destruct (lookkey_absent hf n _ _ key Hok Hfree Hkey) as (j & -> & Hj & Hok').
    pose proof (keys_of_insert (table so) j (hf key) key Hj) as Hkeys.
    cbv zeta. simpl fill. simpl mask. simpl used.
    case_match eqn:E.
    + split; [|done]. apply Z.ltb_lt in E.
      exists n. simpl. rewrite length_insert, Hkeys. simpl length.
      split; [done|]. split; [lia|]. split; [lia|].
      destruct Hok as [(_ & Hmask & Hlen) _ _ _]. rewrite Hlen.
      apply Nat2Z.inj_lt. rewrite pow2_Z. lia.
    + set (so1 := PySet _ _ _ _).
      destruct (set_table_resize_ok n so1
                  (if 50000 <? used so + 1 then (used so + 1) * 2
                   else (used so + 1) * 4)) as [Hso' Hkeys'].
      * done.
      * simpl. rewrite Hkeys. simpl length. lia.
      * simpl. case_match; lia.
      * split; [done|]. by rewrite Hkeys'.
Qed.

(** The keys of the set built from [items] are the items, each once. *)
Lemma set_of_fold items : ∀ so,
  set_ok hf so → used so + Z.of_nat (length items) < 2 ^ 61 →
  let so' := foldl (λ so x, set_add_entry so x (hf x)) so items in
  set_ok hf so' ∧ ∀ x, x ∈ keys_of (table so') ↔ x ∈ keys_of (table so) ∨ x ∈ items.
Proof.
  induction items as [|item items IH]; intros so Hso Hbound; simpl.
  - split; [done|]. intros x. rewrite elem_of_nil. tauto.
  - destruct (set_add_entry_ok so item Hso) as [Hso1 Hkeys1]; [lia|].
    destruct (IH (set_add_entry so item (hf item)) Hso1) as [Hso' Hkeys'].
    + destruct Hso as (_ & _ & Hused & _). destruct Hso1 as (_ & _ & Hused1 & _).
      rewrite Hused1, Hkeys1. case_decide; simpl length in *; lia.
    + split; [done|]. intros x. rewrite Hkeys', Hkeys1, elem_of_cons.
      case_decide; rewrite ?elem_of_cons; [|tauto].
      split; [tauto|]. intros [?|[->|?]]; tauto.
Qed.

Lemma set_ok_empty : set_ok hf empty_set.
Proof.
  exists 3%nat. split; [|by repeat split; simpl; lia].
  apply (table_ok_empty 3). lia.
Qed.

End sets.

(** [{x for x in items}] holds the items, each once, whatever the
    session's secret. *)
Lemma iterate_set_of k items :
  Z.of_nat (length items) < 2 ^ 61 →
  NoDup (pyhash.iterate (pyhash.set_of k items))
  ∧ ∀ x, x ∈ pyhash.iterate (pyhash.set_of k items) ↔ x ∈ items.
Proof.
  intros Hlen.
  destruct (set_of_fold (pyhash.hash k) items pyhash.empty_set) as [(n & Hok & _) Hkeys].
  - apply set_ok_empty.
  - simpl. lia.
  - split; [apply Hok|]. intros x. unfold pyhash.iterate, pyhash.set_of.
    rewrite Hkeys.
    change (pyhash.keys_of (pyhash.table pyhash.empty_set)) with (@nil string). rewrite elem_of_nil. tauto.
Qed.

(** ** Presenters *)

Lemma writer_ret {A} (a : A) : writer (mret a).
Proof. exists [], (Ok a). intros svc w. unfold mret, M_ret. rewrite app_nil_r. by destruct w. Qed.

Lemma writer_raise {A} e : writer (@raise A e).
Proof. exists [], (Raised e). intros svc w. unfold raise. rewrite app_nil_r. by destruct w. Qed.

Lemma writer_lift {A} (r : result A) : writer (lift r).
Proof. exists [], r. intros svc w. unfold lift. rewrite app_nil_r. by destruct w. Qed.

Lemma writer_print line : writer (print line).
Proof. by exists [Printed line], (Ok ()). Qed.

Lemma writer_display_image path : writer (display_image path).
Proof. by exists [DisplayedImage path], (Ok ()). Qed.

Lemma writer_bind {A B} (m : M A) (k : A → M B) :
  writer m → (∀ a, writer (k a)) → writer (m ≫= k).
Proof.
  intros (out & r & Hm) Hk. destruct r as [a|e].
  - destruct (Hk a) as (out' & r' & Hka). exists (out ++ out'), r'.
    intros svc w. rewrite bind_run, Hm, Hka. simpl. by rewrite app_assoc.
  - exists out, (Raised e). intros svc w. by rewrite bind_run, Hm.
Qed.

Lemma writer_try_except {A} (body : M A) handler :
  writer body → (∀ e, writer (handler e)) → writer (try_except body handler).
Proof.
  intros (out & r & Hb) Hh. destruct r as [a|e].
  - exists out, (Ok a). intros svc w. unfold try_except. by rewrite Hb.
  - destruct (Hh e) as (out' & r' & Hhe). exists (out ++ out'), r'.
    intros svc w. unfold try_except. rewrite Hb, Hhe. simpl. by rewrite app_assoc.
Qed.

Lemma writer_for_fold {A S} (l : list A) (s : S) body :
  (∀ s x, writer (body s x)) → writer (for_fold l s body).
Proof.
  intros Hb. revert s. induction l as [|x l IH]; intros s.
  - apply writer_ret.
  - simpl. by apply writer_bind.
Qed.

Ltac present :=
  repeat lazymatch goal with
  | |- writer (mret _) => apply writer_ret
  | |- writer (raise _) => apply writer_raise
  | |- writer (lift _) => apply writer_lift
  | |- writer (print _) => apply writer_print
  | |- writer (display_image _) => apply writer_display_image
  | |- writer (_ ≫= _) => apply writer_bind; [|intros]
  | |- writer (try_except _ _) => apply writer_try_except; [|intros]
  | |- writer (for_fold _ _ _) => apply writer_for_fold; intros
  | |- writer (if ?b then _ else _) => destruct b
  | |- writer (match ?x with _ => _ end) => destruct x
  end.

Lemma display_retrieved_images_writer k lib mapping response :
  writer (image_rag.display_retrieved_images k lib mapping response).
Proof.
  unfold image_rag.display_retrieved_images, image_rag.display_file. present.
Qed.

(** Two runs of a writer, whatever the worlds they start from. *)
Lemma writer_deterministic {A} (c : M A) svc svc' w w' :
  writer c →
  (c svc w).2 = (c svc' w').2
  ∧ (output w = output w' → output (c svc w).1 = output (c svc' w').1).
Proof.
  intros (out & r & Hc). rewrite !Hc. simpl. split; [done|]. by intros ->.
Qed.

Section display.
Import image_rag.
Context (lib : library) (mapping : dict scalar) (cache_dir : string).

Lemma display_file_ok d file svc w w' d' :
  display_file lib mapping cache_dir d file svc w = (w', Ok d') →
  d' = foldl add_entry d (option_list (displayed_entry lib mapping cache_dir file))
  ∧ files w' = files w ∧ calls w' = calls w
  ∧ output w' = output w
      ++ (option_list (displayed_entry lib mapping cache_dir file) ≫= displayed_items).
Proof.
  unfold display_file, displayed_entry.
  destruct (dict_get mapping file) as [v|]; [|intros [= <- <-]; by rewrite app_nil_r].
  destruct (truthy v) eqn:Hv; [|intros [= <- <-]; destruct v; by rewrite ?Hv, app_nil_r].
  destruct v as [|b|z|r|name]; try (by intros [= _ ?]).
  rewrite Hv. intros [= <- <-]. simpl. by rewrite <- app_assoc.
Qed.

Lemma display_loop_ok l : ∀ d svc w w' d',
  for_fold l d (display_file lib mapping cache_dir) svc w = (w', Ok d') →
  d' = foldl add_entry d (omap (displayed_entry lib mapping cache_dir) l)
  ∧ files w' = files w ∧ calls w' = calls w
  ∧ output w' = output w
      ++ (omap (displayed_entry lib mapping cache_dir) l ≫= displayed_items).
Proof.
  induction l as [|file l IH]; intros d svc w w' d'.
  - intros [= <- <-]. by rewrite app_nil_r.
  - simpl for_fold. rewrite bind_run.
    destruct (display_file lib mapping cache_dir d file svc w) as [w1 [d1|e]] eqn:E;
      [|by intros [= _ ?]].
    apply display_file_ok in E as (-> & Hf & Hc & Ho).
    intros (-> & -> & -> & ->)%IH. rewrite Hf, Hc, Ho.
    simpl omap. destruct (displayed_entry lib mapping cache_dir file) as [e|]; simpl.
    + by rewrite <- !app_assoc.
    + by rewrite app_nil_r.
Qed.

Lemma dict_set_fresh {V} (d : dict V) key (v : V) :
  key ∉ d.*1 → dict_set d key v = d ++ [(key, v)].
Proof.
  induction d as [|[k' v'] d IH]; [done|]. simpl.
  intros [? ?]%not_elem_of_cons. rewrite decide_False by done. by rewrite IH.
Qed.

Lemma add_entries_fresh (es : list (string * string)) : ∀ d,
  NoDup (d.*1 ++ es.*1) → foldl add_entry d es = d ++ es.
Proof.
  induction es as [|[key v] es IH]; intros d Hd; [by rewrite app_nil_r|].
  simpl. unfold add_entry at 2. simpl.
  rewrite dict_set_fresh.
  - rewrite IH; [by rewrite <- app_assoc|].
    rewrite fmap_app, <- app_assoc. done.
  - simpl in Hd. apply NoDup_app in Hd as (_ & Hd & _).
    intros Hin. apply (Hd _ Hin). left.
Qed.

Lemma displayed_entry_file file e :
  displayed_entry lib mapping cache_dir file = Some e → e.1 = file.
Proof.
  unfold displayed_entry. destruct (dict_get mapping file) as [[| | | |name]|]; try done.
  destruct (truthy _); [|done]. by intros [= <-].
Qed.

Lemma displayed_entries_NoDup l :
  NoDup l → NoDup (omap (displayed_entry lib mapping cache_dir) l).*1.
Proof.
  induction 1 as [|file l Hfile Hl IH]; [constructor|].
  simpl. destruct (displayed_entry lib mapping cache_dir file) as [e|] eqn:E; [|done].
  simpl. constructor; [|done].
  apply displayed_entry_file in E as ->.
  intros (e' & -> & (file' & Hin & E')%list_elem_of_omap)%list_elem_of_fmap.
  apply displayed_entry_file in E'. by rewrite E' in Hfile.
Qed.

End display.

Section sessions.
Import image_rag.
Context (lib : library) (mapping : dict scalar).

Lemma display_retrieved_images_run k response files svc w :
  annotation_files response = Ok files →
  display_retrieved_images k lib mapping response svc w
  = for_fold (pyhash.iterate (pyhash.set_of k files)) []
             (display_file lib mapping ".local_cache") svc w.
Proof.
  intros Hfiles. unfold display_retrieved_images.
  rewrite bind_run. unfold try_except. rewrite bind_run. unfold lift.
  by rewrite Hfiles.
Qed.

Lemma display_retrieved_images_ok k response files svc w w1 d :
  annotation_files response = Ok files →
  Z.of_nat (length files) < 2 ^ 61 →
  display_retrieved_images k lib mapping response svc w = (w1, Ok d) →
  d = omap (displayed_entry lib mapping ".local_cache")
           (pyhash.iterate (pyhash.set_of k files))
  ∧ output w1 = output w ++ (d ≫= displayed_items).
Proof.
  intros Hfiles Hlen. rewrite (display_retrieved_images_run _ _ files) by done.
  intros (-> & _ & _ & ->)%display_loop_ok.
  destruct (iterate_set_of k files Hlen) as [Hnd _].
  by rewrite add_entries_fresh by (by apply displayed_entries_NoDup).
Qed.

End sessions.

(** X3.  The presenters are deterministic within an interpreter
    session: for the same records the CSV cell gives the same file text,
    the same result and the same printed line whatever the world and the
    services, and for the same response [display_retrieved_images] appends
    the same lines and images and returns the same dictionary.  Across
    sessions, [display_retrieved_images] on a response that cites fewer
    than [2 ^ 61] files displays, when it completes, the same images with
    the same lines and returns the same entries, in an order that may
    differ: the files are gone through in the order of a set of strings,
    which follows the session's hash secret. *)
Theorem presenter_deterministic_within_session :
  (∀ data svc svc' w w',
     let r := json_to_csv_cell data svc w in
     let r' := json_to_csv_cell data svc' w' in
     r.2 = r'.2
     ∧ files r.1 !! csv_file = files r'.1 !! csv_file
     ∧ (output w = output w' → output r.1 = output r'.1))
  ∧ (∀ k lib mapping response,
       writer (image_rag.display_retrieved_images k lib mapping response))
  ∧ (∀ k k' lib mapping response files svc svc' w w' w1 w1' d d',
       image_rag.annotation_files response = Ok files →
       Z.of_nat (length files) < 2 ^ 61 →
       output w = output w' →
       image_rag.display_retrieved_images k lib mapping response svc w = (w1, Ok d) →
       image_rag.display_retrieved_images k' lib mapping response svc' w' = (w1', Ok d') →
       d ≡ₚ d'
       ∧ output w1 = output w ++ (d ≫= image_rag.displayed_items)
       ∧ output w1' = output w ++ (d' ≫= image_rag.displayed_items)
       ∧ output w1 ≡ₚ output w1').
Proof.
  split; [|split].
  - intros [|first rest] svc svc' w w'; cbv zeta.
    + rewrite !json_to_csv_cell_empty. simpl. by rewrite !lookup_insert_eq.
    + rewrite !json_to_csv_cell_run. simpl. rewrite !lookup_insert_eq.
      split; [done|]. split; [done|]. by intros ->.
  - apply display_retrieved_images_writer.
  - intros k k' lib mapping response files svc svc' w w' w1 w1' d d'
      Hfiles Hlen Hout Hrun Hrun'.
    eapply display_retrieved_images_ok in Hrun as [-> Ho]; [|done..].
    eapply display_retrieved_images_ok in Hrun' as [-> Ho']; [|done..].
    destruct (iterate_set_of k files Hlen) as [Hnd Hin].
    destruct (iterate_set_of k' files Hlen) as [Hnd' Hin'].
    assert (pyhash.iterate (pyhash.set_of k files)
            ≡ₚ pyhash.iterate (pyhash.set_of k' files)) as Hperm.
    { apply NoDup_Permutation; [done..|]. intros x. by rewrite Hin, Hin'. }
    assert (∀ f : string → option (string * string),
              omap f (pyhash.iterate (pyhash.set_of k files))
              ≡ₚ omap f (pyhash.iterate (pyhash.set_of k' files))) as Hentries
      by (intros f; by rewrite Hperm).
    split; [done|]. split; [done|]. split; [by rewrite Hout|].
    rewrite Ho, Ho', <- Hout. apply Permutation_app_head.
    by rewrite Hentries.
Qed.

Lemma presenter_deterministic_within_session_witness :
  ∃ w1 w1' d d',
    image_rag.display_retrieved_images (pyhash.secret_of_seed 1) plain_library
      july_mapping july_response no_service empty_world = (w1, Ok d)
    ∧ image_rag.display_retrieved_images (pyhash.secret_of_seed 2) plain_library
        july_mapping july_response no_service empty_world = (w1', Ok d')
    ∧ d ≡ₚ d' ∧ output w1 ≡ₚ output w1'.
Proof.
  eexists _, _, _, _.
  split; [vm_compute; reflexivity|]. split; [vm_compute; reflexivity|].
  destruct presenter_deterministic_within_session as (_ & _ & Hsessions).
  edestruct (Hsessions (pyhash.secret_of_seed 1) (pyhash.secret_of_seed 2)
               plain_library july_mapping july_response
               ["context_1_july.txt"; "context_2_july.txt"; "context_3_july.txt"]
               no_service no_service empty_world empty_world)
    as (Hd & _ & _ & Ho);
    [reflexivity | reflexivity | reflexivity
    | vm_compute; reflexivity | vm_compute; reflexivity |].
  split; [exact Hd | exact Ho].
Defined.

(** Two sessions, one response: the three images are displayed in
    different orders. *)
Lemma displayed_order_differs_across_sessions :
  let run seed :=
    image_rag.display_retrieved_images (pyhash.secret_of_seed seed) plain_library
      july_mapping july_response no_service empty_world in
  output (run 1).1 ≠ output (run 2).1 ∧ (run 1).2 ≠ (run 2).2.
Proof. vm_compute. split; discriminate. Qed.

(** ** What the presenter of the retrieved images shows *)

(** X1.  The set [{result.filename for result in annotations}] holds the
    file names it was built from, each once, whatever the session's hash
    secret: iterating over it gives every name of the list, and none
    twice: it is a permutation of the list without its duplicates (for a
    list of fewer than [2 ^ 61] names). *)
Theorem set_of_holds_each_item_once k items :
  Z.of_nat (length items) < 2 ^ 61 →
  pyhash.iterate (pyhash.set_of k items) ≡ₚ remove_dups items.
Proof.
  intros Hlen. destruct (iterate_set_of k items Hlen) as [Hnd Hin].
  apply NoDup_Permutation; [done|apply NoDup_remove_dups|].
  intros x. by rewrite Hin, elem_of_remove_dups.
Qed.

Lemma set_of_holds_each_item_once_witness :
  pyhash.iterate (pyhash.set_of (pyhash.secret_of_seed 1) ["a"; "b"; "a"])
  ≡ₚ remove_dups ["a"; "b"; "a"].
Proof.
  apply (set_of_holds_each_item_once (pyhash.secret_of_seed 1) ["a"; "b"; "a"]).
  reflexivity.
Defined.

Section displayed.
Import image_rag.
Context (lib : library) (mapping : dict scalar).

Lemma displayed_entry_Some file e :
  displayed_entry lib mapping ".local_cache" file = Some e ↔
  ∃ name, dict_get mapping file = Some (SStr name) ∧ name ≠ ""
          ∧ e = (file, path_join lib (path_join lib ".local_cache" "images") name).
Proof.
  unfold displayed_entry. split.
  - destruct (dict_get mapping file) as [[| | | |name]|]; try done. simpl.
    case_bool_decide; [done|]. intros [= <-]. eauto.
  - intros (name & -> & Hname & ->). simpl. by rewrite bool_decide_eq_false_2.
Qed.

(** X2.  When [display_retrieved_images] completes, it has displayed
    the image of every cited file that [IMAGE_ID_MAPPING] files under a
    non-empty image name, once each however often the file is cited, and
    nothing else: the dictionary it returns has those files as its keys,
    each with the path of its image, the output is a line and an image
    for each entry in the dictionary's order, no file is written and no
    call is made. *)
Theorem displays_each_cited_image_once k response cited svc w w1 d :
  annotation_files response = Ok cited →
  Z.of_nat (length cited) < 2 ^ 61 →
  display_retrieved_images k lib mapping response svc w = (w1, Ok d) →
  NoDup d.*1
  ∧ (∀ file path,
       (file, path) ∈ d ↔
       file ∈ cited
       ∧ ∃ name, dict_get mapping file = Some (SStr name) ∧ name ≠ ""
                 ∧ path = path_join lib (path_join lib ".local_cache" "images") name)
  ∧ output w1 = output w ++ (d ≫= displayed_items)
  ∧ files w1 = files w
  ∧ calls w1 = calls w.
Proof.
  intros Hfiles Hlen Hrun.
  destruct (display_retrieved_images_writer k lib mapping response)
    as (out & r & Hw).
  pose proof (Hw svc w) as Hw'. rewrite Hrun in Hw'. injection Hw' as -> _.
  eapply display_retrieved_images_ok in Hrun as [-> Ho]; [|done..].
  destruct (iterate_set_of k cited Hlen) as [Hnd Hin].
  split; [by apply displayed_entries_NoDup|].
  split; [|done].
  intros file path. rewrite list_elem_of_omap. split.
  - intros (f & Hf & He). pose proof (displayed_entry_file _ _ _ _ _ He) as Hfile.
    simpl in Hfile. subst f. apply Hin in Hf. split; [done|].
    apply displayed_entry_Some in He as (name & ? & ? & [= ->]). eauto.
  - intros (Hf & name & Hname & Hne & ->). exists file. split; [by apply Hin|].
    apply displayed_entry_Some. eauto.
Qed.

End displayed.

Lemma displays_each_cited_image_once_witness :
  ∃ w1 d,
    image_rag.display_retrieved_images (pyhash.secret_of_seed 2) plain_library
      july_mapping july_response no_service empty_world = (w1, Ok d)
    ∧ NoDup d.*1
    ∧ output w1 = output empty_world ++ (d ≫= image_rag.displayed_items).
Proof.
  eexists _, _. split; [vm_compute; reflexivity|].
  edestruct (displays_each_cited_image_once plain_library july_mapping
               (pyhash.secret_of_seed 2) july_response
               ["context_1_july.txt"; "context_2_july.txt"; "context_3_july.txt"]
               no_service empty_world)
    as (Hnd & _ & Ho & _);
    [reflexivity | reflexivity | vm_compute; reflexivity |].
  split; [exact Hnd | exact Ho].
Defined.

(** ** A response without search results *)

Section no_results.
Import image_rag.









End no_results.


(** ** The two cells of the SQL notebook, one after the other *)

Lemma b64decode_encoded (content : bytes) :
  base64.b64decode (decode_utf8 (base64.b64encode content)) = Ok content.
Proof.
  unfold base64.b64decode. rewrite encode_decode_utf8.
  unfold base64.b64encode at 1. rewrite encode_loop_ascii by (done || by left).
  apply a2b_base64_b2a.
Qed.

Lemma encode_csv_cell_run content svc w :
  files w !! csv_file = Some content →
  encode_csv_cell svc w
  = (World (files w)
           (output w ++ [Printed "Base64 Encoded CSV:";
                         Printed (decode_utf8 (base64.b64encode content))])
           (calls w),
     Ok (decode_utf8 (base64.b64encode content))).
Proof.
  intros Hfile. unfold encode_csv_cell. rewrite bind_run. unfold read_rb.
  rewrite Hfile. rewrite bind_run. unfold print at 1. cbn [files output calls].
  rewrite bind_run. unfold print. cbn [files output calls].
  unfold mret, M_ret. by rewrite <- app_assoc.
Qed.

(** X5.  The cell "Base64-encode the CSV file" raises
    [FileNotFoundError] and prints nothing when [output.csv] is missing;
    otherwise it prints the heading and the encoded string, changes no
    file, makes no call, and the string decodes to exactly the bytes of
    the file. *)
Theorem encode_csv_cell_returns_the_file svc w :
  match files w !! csv_file with
  | None => encode_csv_cell svc w = (w, Raised (FileNotFoundError csv_file))
  | Some content =>
      ∃ encoded_string,
        encode_csv_cell svc w
        = (World (files w)
                 (output w ++ [Printed "Base64 Encoded CSV:"; Printed encoded_string])
                 (calls w), Ok encoded_string)
        ∧ base64.b64decode encoded_string = Ok content
  end.
Proof.
  destruct (files w !! csv_file) as [content|] eqn:Hfile.
  - eexists. split; [by apply encode_csv_cell_run|]. apply b64decode_encoded.
  - unfold encode_csv_cell. rewrite bind_run. unfold read_rb. by rewrite Hfile.
Qed.

(** X6.  The two cells of the middleware, one after the other: the
    string the second cell returns, base64-decoded and read as CSV, is the
    header of the first record's keys followed by one row of values for
    each record, in order. *)
Theorem encoded_csv_decodes_to_the_table first rest svc svc' w :
  let data := first :: rest in
  let w1 := (json_to_csv_cell data svc w).1 in
  ∃ encoded_string,
    (encode_csv_cell svc' w1).2 = Ok encoded_string
    ∧ (content ← base64.b64decode encoded_string; csv.read content)
      = Ok ((encode_utf8 <$> keys first)
            :: ((λ r : record, encode_utf8 ∘ csv.field_text <$> values r) <$> data)).
Proof.
  intros data w1. subst w1 data. rewrite json_to_csv_cell_run. cbn [fst].
  eexists. split.
  - erewrite encode_csv_cell_run; [done|]. apply lookup_insert_eq.
  - rewrite b64decode_encoded. apply (read_written (table_of first (first :: rest))).
Qed.

(** X7.  The cell "Convert records into a CSV format" makes no external
    call and touches no file but [output.csv]; what it leaves in
    [output.csv] does not depend on what was there (the file is
    truncated, not appended to), so running the cell again leaves the
    files as they are. *)
Theorem json_to_csv_cell_overwrites data svc svc' w w' :
  let w1 := (json_to_csv_cell data svc w).1 in
  calls w1 = calls w
  ∧ (∀ path, path ≠ csv_file → files w1 !! path = files w !! path)
  ∧ files (json_to_csv_cell data svc' w').1 !! csv_file = files w1 !! csv_file
  ∧ files (json_to_csv_cell data svc' w1).1 = files w1.
Proof.
  destruct data as [|first rest]; cbv zeta.
  - rewrite !json_to_csv_cell_empty. cbn [fst files calls].
    split; [done|]. split; [intros path Hpath; by rewrite lookup_insert_ne|].
    split; [by rewrite !lookup_insert_eq|]. by rewrite insert_insert_eq.
  - rewrite !json_to_csv_cell_run. cbn [fst files calls].
    split; [done|]. split; [intros path Hpath; by rewrite lookup_insert_ne|].
    split; [by rewrite !lookup_insert_eq|]. by rewrite insert_insert_eq.
Qed.

(** ** The index of the Redis notebook *)

Section redis.
Import redisjson.

(** X8.  The cell "Create Index" issues the index drop and then the
    index creation, whatever the drop answers; the schema's [DIM] is the
    length of the first document's vector, and the cell ends as the
    creation ends. *)
Theorem index_is_created_whatever_the_drop doc_1 v items svc w :
  subscript doc_1 "vector" = Ok v → as_list v = Ok items →
  let dropped := svc (calls w) drop_request in
  let log := calls w ++ [(drop_request, dropped)] in
  let created := svc log (create_request (length items)) in
  create_index_cell doc_1 svc w
  = (World (files w) (output w) (log ++ [(create_request (length items), created)]),
     match created with
     | Returned r => Ok r
     | Failed d => Raised (ExternalError d)
     end).
Proof.
  intros Hv Hitems. cbv zeta. unfold create_index_cell.
  rewrite bind_run. unfold lift at 1. rewrite Hv. simpl. rewrite Hitems. simpl.
  rewrite bind_run. unfold try_except. rewrite bind_run, call_run. cbv zeta.
  fold drop_request.
  destruct (svc (calls w) drop_request) eqn:Hdrop; cbv beta iota;
    unfold mret, M_ret; cbv beta iota;
    rewrite call_run; cbv zeta; cbn [files output calls]; done.
Qed.

Lemma index_is_created_whatever_the_drop_witness :
  create_index_cell sample_doc fresh_redis empty_world
  = (World ∅ []
           [(drop_request, Failed "Unknown Index name");
            (create_request 2, Returned (jstr "OK"))],
     Ok (jstr "OK")).
Proof.
  apply (index_is_created_whatever_the_drop sample_doc
           (JArr [JVal (SFloat "0.1"); JVal (SFloat "0.2")])
           [JVal (SFloat "0.1"); JVal (SFloat "0.2")] fresh_redis empty_world);
    reflexivity.
Defined.

End redis.

(** ** [text.replace] *)

Lemma replace_newlines_length text :
  String.length (replace_newlines text) = String.length text.
Proof. induction text as [|c text IH]; [done|]. simpl. by rewrite IH. Qed.

Lemma replace_newlines_get text : ∀ i,
  String.get i (replace_newlines text)
  = (λ c, if Ascii.eqb c "010" then " "%char else c) <$> String.get i text.
Proof.
  induction text as [|c text IH]; intros i; [done|].
  destruct i as [|i]; [done|]. simpl. apply IH.
Qed.

Section embedding.
Import redisjson.

(** X9.  [get_vector] makes one call, to the embeddings endpoint, with
    the text in which every line feed is replaced by a space: the text
    sent has the length of the text given, no line feed, and the same
    character wherever the text given has no line feed. *)
Theorem get_vector_sends_one_line text svc w :
  ∃ sent answer,
    calls (get_vector text svc w).1
    = calls w ++ [(Request "openai.Embedding.create"
                     (JObj [("input", JArr [jstr sent]);
                            ("model", jstr "text-embedding-3-small")]), answer)]
    ∧ String.length sent = String.length text
    ∧ ∀ i, String.get i sent ≠ Some "010"%char
           ∧ (String.get i text ≠ Some "010"%char → String.get i sent = String.get i text)
           ∧ (String.get i text = Some "010"%char → String.get i sent = Some " "%char).
Proof.
  exists (replace_newlines text), (svc (calls w) (Request "openai.Embedding.create"
    (JObj [("input", JArr [jstr (replace_newlines text)]);
           ("model", jstr "text-embedding-3-small")]))).
  split.
  - unfold get_vector. rewrite bind_run, call_run. cbv zeta.
    destruct (svc _ _); [|done]. unfold lift. done.
  - split; [apply replace_newlines_length|]. intros i.
    rewrite replace_newlines_get.
    destruct (String.get i text) as [c|]; simpl; [|done].
    destruct (Ascii.eqb c "010") eqn:Hc.
    + apply Ascii.eqb_eq in Hc as ->. done.
    + apply Ascii.eqb_neq in Hc. split; [congruence|]. split; [done|]. congruence.
Qed.

End embedding.

(** ** [str.strip] *)





(** ** Images sent to the model *)

Section images.
Import image_rag.

(** X10.  [encode_image] raises [FileNotFoundError] when the file is
    missing; otherwise it returns a string that base64-decodes to exactly
    the bytes of the file, and leaves the world as it is. *)
Theorem encode_image_returns_the_file image_path svc w :
  match files w !! image_path with
  | None => encode_image image_path svc w = (w, Raised (FileNotFoundError image_path))
  | Some content =>
      ∃ base64_image,
        encode_image image_path svc w = (w, Ok base64_image)
        ∧ base64.b64decode base64_image = Ok content
  end.
Proof.
  unfold encode_image. rewrite bind_run. unfold read_rb.
  destruct (files w !! image_path) as [content|]; [|done].
  eexists. split; [done|]. apply b64decode_encoded.
Qed.


End images.


(** ** The generated image, and frames without images *)

Section images2.
Import image_rag.

(** X12.  When the image service answers and the answer cannot be
    decoded, the cell that generates the image raises, and leaves an empty
    cache file behind: the file is opened before the answer is decoded.
    Any later run in the session then loads the empty file from the cache
    and makes no call. *)
Theorem undecodable_image_is_cached_empty k svc w response e :
  files w !! cache_path k = None →
  svc (calls w) (Request "images.generate" generate_request) = Returned response →
  image_of response = Raised e →
  let run := generate_image_cell k svc w in
  run.2 = Raised e
  ∧ files run.1 !! cache_path k = Some []
  ∧ output run.1 = output w
  ∧ ∀ svc',
      generate_image_cell k svc' run.1
      = (World (files run.1)
               (output w ++ [Printed ("Loading from cache: " +:+ cache_path k);
                             DisplayedImage (cache_path k)])
               (calls run.1), Ok ()).
Proof.
  intros Hc Hsvc Himage. cbv zeta.
  assert (generate_image_cell k svc w
          = (World (<[cache_path k := []]> (files w)) (output w)
                   (calls w ++ [(Request "images.generate" generate_request,
                                 Returned response)]), Raised e)) as ->.
  { unfold generate_image_cell. rewrite bind_run. unfold path_exists.
    rewrite bool_decide_eq_false_2 by (rewrite Hc; by intros [? ?]).
    simpl negb. cbv iota. rewrite !bind_run, call_run. cbv zeta. rewrite Hsvc.
    rewrite !bind_run, open_w_run. cbv beta iota. rewrite !bind_run, lift_run.
    fold (image_of response). by rewrite Himage. }
  cbn [fst snd files output calls].
  split; [done|]. split; [apply lookup_insert_eq|]. split; [done|].
  intros svc'. rewrite generate_image_cached; [done|].
  cbn [files]. rewrite lookup_insert_eq. by eexists.
Qed.

Lemma undecodable_image_is_cached_empty_witness :
  let k := pyhash.secret_of_seed 1 in
  let run := generate_image_cell k broken_image_service empty_world in
  run.2 = Raised (BinasciiError "Incorrect padding")
  ∧ files run.1 !! cache_path k = Some []
  ∧ output run.1 = output empty_world
  ∧ ∀ svc',
      generate_image_cell k svc' run.1
      = (World (files run.1)
               (output empty_world ++ [Printed ("Loading from cache: " +:+ cache_path k);
                                       DisplayedImage (cache_path k)])
               (calls run.1), Ok ()).
Proof.
  intros k.
  apply (undecodable_image_is_cached_empty k broken_image_service empty_world
           (JObj [("data", JArr [JObj [("b64_json", jstr "QUJ")]])])).
  - vm_compute. reflexivity.
  - reflexivity.
  - vm_compute. reflexivity.
Defined.


(** X13.  On a frame in which no row has an image (and that has no
    [full_sentiment] column yet) the merge cell raises
    [KeyError: 'full_sentiment']: the loop that creates the column does
    not run.  No call is made, nothing is printed, no file is written. *)
Theorem merge_without_images_raises lib df svc w :
  "image_path" ∈ columns df →
  "full_sentiment" ∉ columns df →
  (∀ row, row ∈ rows df → isna (default NaN (row !! "image_path")) = true) →
  merge_cell lib df svc w = (w, Raised (KeyError "full_sentiment")).
Proof.
  intros Himg Hfull Hrows. unfold merge_cell.
  rewrite bind_run, lift_run. unfold column at 1.
  rewrite bool_decide_eq_true_2 by done. cbv beta iota.
  assert (List.filter has_image (iterrows df) = []) as ->.
  { destruct (List.filter has_image (iterrows df)) as [|[idx s] l] eqn:E; [done|].
    assert ((idx, s) ∈ List.filter has_image (iterrows df)) as Hin
      by (rewrite E; left).
    apply elem_of_with_image in Hin as (r & Hr & _ & Hna).
    rewrite Hrows in Hna; [done|]. by eapply list_elem_of_lookup_2. }
  simpl for_fold. rewrite bind_run. unfold mret at 1, M_ret at 1. cbv beta iota.
  rewrite bind_run, lift_run. unfold column. by rewrite bool_decide_eq_false_2.
Qed.

Lemma merge_without_images_raises_witness :
  merge_cell plain_library text_reviews no_service empty_world
  = (empty_world, Raised (KeyError "full_sentiment")).
Proof.
  apply (merge_without_images_raises plain_library text_reviews no_service empty_world).
  - compute_done.
  - compute_done.
  - intros row ->%list_elem_of_singleton. reflexivity.
Defined.

End images2.

(** ** The generated image in the cache *)

Section generated.
Import image_rag.

(** X21.  On a cache miss with an answer that decodes, the cell that
    generates the image makes one call, stores exactly the decoded bytes
    in the cache file, prints that the image was generated and cached and
    displays the file. *)
Theorem generated_image_is_cached k svc w response image :
  files w !! cache_path k = None →
  svc (calls w) (Request "images.generate" generate_request) = Returned response →
  image_of response = Ok image →
  generate_image_cell k svc w
  = (World (<[cache_path k := image]> (files w))
           (output w ++ [Printed ("Generated and cached: " +:+ cache_path k);
                         DisplayedImage (cache_path k)])
           (calls w ++ [(Request "images.generate" generate_request, Returned response)]),
     Ok ()).
Proof.
  intros Hc Hsvc Himage.
  unfold generate_image_cell. rewrite bind_run. unfold path_exists.
  rewrite bool_decide_eq_false_2 by (rewrite Hc; by intros [? ?]).
  simpl negb. cbv iota. rewrite !bind_run, call_run. cbv zeta. rewrite Hsvc.
  rewrite !bind_run, open_w_run. cbv beta iota. rewrite !bind_run, lift_run.
  fold (image_of response). rewrite Himage. cbv beta iota.
  rewrite bind_run, write_run. cbv beta iota. rewrite print_run. cbv beta iota.
  rewrite display_image_run. cbn [files output calls].
  by rewrite lookup_insert_eq, insert_insert_eq, <- app_assoc.
Qed.

Lemma generated_image_is_cached_witness :
  let k := pyhash.secret_of_seed 1 in
  generate_image_cell k image_service empty_world
  = (World (<[cache_path k := encode_utf8 "ABC"]> ∅)
           ([] ++ [Printed ("Generated and cached: " +:+ cache_path k);
                   DisplayedImage (cache_path k)])
           ([] ++ [(Request "images.generate" generate_request,
                    Returned (JObj [("data", JArr [JObj [("b64_json", jstr "QUJD")]])]))]),
     Ok ()).
Proof.
  intros k.
  apply (generated_image_is_cached k image_service empty_world
           (JObj [("data", JArr [JObj [("b64_json", jstr "QUJD")]])])
           (encode_utf8 "ABC")).
  - vm_compute. reflexivity.
  - reflexivity.
  - vm_compute. reflexivity.
Defined.

End generated.

(** ** The shape of base64 text *)

Section base64_shape.
Import base64.

Lemma b2a_loop_length data : ∀ lc lb,
  0 ≤ lc → lb = 0 ∨ lb = 2 ∨ lb = 4 →
  Z.of_nat (length (b2a_loop lc lb data))
  = 4 * ((Z.of_nat (length data) + lb / 2 + 2) / 3) - lb / 2.
Proof.
  induction data as [|c data IH]; intros lc lb Hlc Hlb.
  - destruct Hlb as [-> | [-> | ->]]; [done|..].
    + by rewrite encode_end_2.
    + by rewrite encode_end_4.
  - destruct Hlb as [-> | [-> | ->]].
    + destruct (encode_step_0 lc c data Hlc) as (lc' & Hlc' & _ & ->).
      cbn [length]. rewrite !Nat2Z.inj_succ, IH by (done || (right; by left)).
      change (2 / 2) with 1. change (0 / 2) with 0.
      Z.div_mod_to_equations. lia.
    + destruct (encode_step_2 lc c data Hlc) as (lc' & Hlc' & _ & ->).
      cbn [length]. rewrite !Nat2Z.inj_succ, IH by (done || (right; by right)).
      change (2 / 2) with 1. change (4 / 2) with 2.
      Z.div_mod_to_equations. lia.
    + destruct (encode_step_4 lc c data Hlc) as (lc' & Hlc' & ->).
      cbn [length]. rewrite !Nat2Z.inj_succ, IH by (done || by left).
      change (0 / 2) with 0. change (4 / 2) with 2.
      Z.div_mod_to_equations. lia.
Qed.

Lemma b2a_alphabet i : b2a i ∈ table_b2a_base64 ∨ b2a i = BASE64_PAD.
Proof.
  unfold b2a. destruct (table_b2a_base64 !! Z.to_nat i) as [c|] eqn:E; [|by right].
  left. by eapply list_elem_of_lookup_2.
Qed.

Lemma b2a_loop_alphabet data : ∀ lc lb,
  0 ≤ lc → lb = 0 ∨ lb = 2 ∨ lb = 4 →
  Forall (λ c, c ∈ table_b2a_base64 ∨ c = BASE64_PAD) (b2a_loop lc lb data).
Proof.
  induction data as [|c data IH]; intros lc lb Hlc Hlb.
  - destruct Hlb as [-> | [-> | ->]]; [constructor|..].
    + rewrite encode_end_2 by done.
      apply Forall_cons; split; [apply b2a_alphabet|].
      do 2 (apply Forall_cons; split; [by right|]). by apply Forall_nil.
    + rewrite encode_end_4 by done.
      apply Forall_cons; split; [apply b2a_alphabet|].
      apply Forall_cons; split; [by right|]. by apply Forall_nil.
  - destruct Hlb as [-> | [-> | ->]].
    + destruct (encode_step_0 lc c data Hlc) as (lc' & Hlc' & _ & ->).
      apply Forall_cons; split; [apply b2a_alphabet|]. apply IH; [done|right; by left].
    + destruct (encode_step_2 lc c data Hlc) as (lc' & Hlc' & _ & ->).
      apply Forall_cons; split; [apply b2a_alphabet|]. apply IH; [done|right; by right].
    + destruct (encode_step_4 lc c data Hlc) as (lc' & Hlc' & ->).
      do 2 (apply Forall_cons; split; [apply b2a_alphabet|]). apply IH; [done|by left].
Qed.

(** X22.  The base64 text of [n] bytes has [4 * ceil (n / 3)]
    characters, each of the base64 alphabet or the padding character. *)
Theorem b64encode_shape (data : bytes) :
  Z.of_nat (length (b64encode data)) = 4 * ((Z.of_nat (length data) + 2) / 3)
  ∧ Forall (λ c, c ∈ table_b2a_base64 ∨ c = BASE64_PAD) (b64encode data).
Proof.
  unfold b64encode. split.
  - rewrite b2a_loop_length by (done || by left). change (0 / 2) with 0.
    rewrite Z.add_0_r. lia.
  - apply b2a_loop_alphabet; [done|by left].
Qed.

End base64_shape.

(** ** Dictionaries *)

Section dictionaries.
Import image_rag.

Lemma dict_get_set {V} (d : dict V) key v key' :
  dict_get (dict_set d key v) key'
  = if decide (key = key') then Some v else dict_get d key'.
Proof.
  induction d as [|[k0 v0] d IH]; simpl.
  - by destruct (decide (key = key')).
  - destruct (decide (k0 = key)) as [->|Hk0]; simpl.
    + by destruct (decide (key = key')).
    + rewrite IH. destruct (decide (k0 = key')) as [->|?]; [|done].
      by rewrite decide_False.
Qed.

Lemma keys_dict_set {V} (d : dict V) key v :
  keys (dict_set d key v) = if decide (key ∈ keys d) then keys d else keys d ++ [key].
Proof.
  unfold keys. induction d as [|[k0 v0] d IH]; [done|].
  cbn [dict_set]. destruct (decide (k0 = key)) as [->|Hk0]; rewrite !fmap_cons; cbn [fst].
  - by rewrite decide_True by left.
  - rewrite IH. destruct (decide (key ∈ d.*1)) as [Hin|Hin].
    + by rewrite decide_True by (by right).
    + rewrite decide_False; [done|]. by intros [?|?]%elem_of_cons.
Qed.

Lemma dict_set_NoDup {V} (d : dict V) key v :
  NoDup (keys d) → NoDup (keys (dict_set d key v)).
Proof.
  intros Hd. rewrite keys_dict_set. case_decide; [done|].
  apply NoDup_app. split; [done|]. split; [|apply NoDup_singleton].
  by intros x Hx ->%list_elem_of_singleton.
Qed.

Lemma dict_get_Some_keys {V} (d : dict V) key v :
  dict_get d key = Some v → key ∈ keys d.
Proof.
  induction d as [|[k0 v0] d IH]; simpl; [done|].
  destruct (decide (k0 = key)) as [->|?]; [left|right; by apply IH].
Qed.

Section filling.
Context {A V : Type} (f : A → string) (g : A → V).

(** A dictionary filled from a list, as a comprehension fills it. *)
Lemma dict_fill_NoDup (l : list A) : ∀ d,
  NoDup (keys d) → NoDup (keys (foldl (λ m x, dict_set m (f x) (g x)) d l)).
Proof.
  induction l as [|x l IH]; intros d Hd; [done|]. simpl.
  by apply IH, dict_set_NoDup.
Qed.

Lemma dict_fill_get (l : list A) : ∀ d key v,
  dict_get (foldl (λ m x, dict_set m (f x) (g x)) d l) key = Some v →
  dict_get d key = Some v ∨ ∃ x, x ∈ l ∧ f x = key ∧ g x = v.
Proof.
  induction l as [|x l IH]; intros d key v; simpl; [by left|].
  intros [Hd|(y & Hy & ? & ?)]%IH.
  - rewrite dict_get_set in Hd. case_decide as Hk; [|by left].
    injection Hd as <-. right. exists x. split; [left|done].
  - right. exists y. split; [by right|done].
Qed.

Lemma dict_fill_distinct (l : list A) : ∀ d x,
  NoDup (f <$> l) → x ∈ l →
  dict_get (foldl (λ m x, dict_set m (f x) (g x)) d l) (f x) = Some (g x).
Proof.
  induction l as [|y l IH] using rev_ind; intros d x Hnd Hx;
    [by apply elem_of_nil in Hx|].
  rewrite foldl_app. simpl. rewrite dict_get_set.
  rewrite fmap_app in Hnd. apply NoDup_app in Hnd as (Hnd & Hdis & _).
  apply elem_of_app in Hx as [Hx|Hx].
  - rewrite decide_False; [by apply IH|].
    intros Heq. apply (Hdis (f x)); [by apply list_elem_of_fmap_2|].
    rewrite <- Heq. simpl. left.
  - apply list_elem_of_singleton in Hx as ->. by rewrite decide_True.
Qed.

End filling.
End dictionaries.

Section mapping.
Import image_rag.

Lemma mapping_step_raised L e : foldl mapping_step (Raised e) L = Raised e.
Proof. induction L as [|ir L IH]; [done|]. cbn [foldl]. apply IH. Qed.

Lemma mapping_step_Ok acc ir m :
  mapping_step (Ok acc) ir = Ok m →
  m = dict_set acc (context_name ir) (image_of_row ir)
  ∧ "id" ∈ labels ir.2 ∧ "month" ∈ labels ir.2.
Proof.
  unfold mapping_step, context_name, series_get, series_item, image_of_row. simpl.
  repeat case_bool_decide; simpl; try done. by intros [= <-].
Qed.

Lemma mapping_fold L : ∀ acc m,
  foldl mapping_step (Ok acc) L = Ok m →
  m = foldl (λ m ir, dict_set m (context_name ir) (image_of_row ir)) acc L.
Proof.
  induction L as [|ir L IH]; intros acc m; [simpl; by intros [= <-]|].
  cbn [foldl]. destruct (mapping_step (Ok acc) ir) as [m1|e] eqn:E.
  - apply mapping_step_Ok in E as (-> & _). apply IH.
  - by rewrite mapping_step_raised.
Qed.

Lemma image_id_mapping_Ok df m :
  image_id_mapping df = Ok m →
  m = foldl (λ m ir, dict_set m (context_name ir) (image_of_row ir)) []
            (List.filter has_image (iterrows df)).
Proof.
  unfold image_id_mapping. destruct (column df "image_path"); [|done].
  apply mapping_fold.
Qed.

(** ** Retrieval: from the uploaded file to the displayed image *)

(** X14.  [IMAGE_ID_MAPPING] has distinct keys; each key is the name
    under which [upload_files_to_vector_store] uploads some row, and its
    value is that row's image, which is not null.  When the rows with an
    image have distinct file names, the mapping files the image of every
    such row under the row's file name. *)
Theorem image_id_mapping_files_the_images df m :
  image_id_mapping df = Ok m →
  NoDup (keys m)
  ∧ (∀ file v,
       dict_get m file = Some v →
       isna v = false
       ∧ ∃ idx row, rows df !! idx = Some row
                    ∧ context_name (idx, Series (columns df) row) = file
                    ∧ row !! "image_path" = Some v)
  ∧ (NoDup (context_name <$> List.filter has_image (iterrows df)) →
     ∀ idx row v,
       rows df !! idx = Some row → row !! "image_path" = Some v → isna v = false →
       dict_get m (context_name (idx, Series (columns df) row)) = Some v).
Proof.
  intros ->%image_id_mapping_Ok. split; [|split].
  - apply dict_fill_NoDup. constructor.
  - intros file v [Hnil|([idx s] & Hin & Hname & Hv)]%dict_fill_get; [done|].
    apply elem_of_with_image in Hin as (row & Hrow & -> & Himg).
    unfold image_of_row in Hv. simpl in Hv. subst v. split; [done|].
    exists idx, row. split; [done|]. split; [done|].
    destruct (row !! "image_path"); [done|]. done.
  - intros Hnd idx row v Hrow Hv Hna.
    rewrite (dict_fill_distinct context_name image_of_row _ []
               (idx, Series (columns df) row) Hnd).
    + unfold image_of_row. simpl. by rewrite Hv.
    + apply elem_of_with_image. exists row. by rewrite Hv.
Qed.

End mapping.

Lemma image_id_mapping_files_the_images_witness :
  let m := [("context_1_june.txt", SStr "1.png"); ("context_2_july.txt", SStr "2.png")] in
  image_rag.image_id_mapping reviews = Ok m ∧ NoDup (keys m).
Proof.
  intros m. split; [vm_compute; reflexivity|].
  edestruct (image_id_mapping_files_the_images reviews m) as (Hkeys & _);
    [vm_compute; reflexivity|].
  exact Hkeys.
Defined.

Section retrieval.
Import image_rag.

(** X15.  From upload to display: when a response cites the file
    uploaded for a row that has an image, [display_retrieved_images]
    displays that row's image (the rows with an image having distinct
    file names). *)
Theorem cited_review_shows_its_image k lib df m response cited svc w w1 d idx row name :
  image_id_mapping df = Ok m →
  NoDup (context_name <$> List.filter has_image (iterrows df)) →
  rows df !! idx = Some row →
  row !! "image_path" = Some (SStr name) → name ≠ "" →
  annotation_files response = Ok cited →
  Z.of_nat (length cited) < 2 ^ 61 →
  context_name (idx, Series (columns df) row) ∈ cited →
  display_retrieved_images k lib m response svc w = (w1, Ok d) →
  let image_path := path_join lib (path_join lib ".local_cache" "images") name in
  (context_name (idx, Series (columns df) row), image_path) ∈ d
  ∧ DisplayedImage image_path ∈ output w1.
Proof.
  intros Hm Hnd Hrow Himg Hname Hcited Hlen Hin Hrun.
  assert (dict_get m (context_name (idx, Series (columns df) row)) = Some (SStr name))
    as Hget.
  { apply image_id_mapping_Ok in Hm as ->.
    rewrite (dict_fill_distinct context_name image_of_row _ []
               (idx, Series (columns df) row) Hnd).
    - unfold image_of_row. simpl. by rewrite Himg.
    - apply elem_of_with_image. exists row. by rewrite Himg. }
  eapply display_retrieved_images_ok in Hrun as [-> Ho]; [|done..].
  destruct (iterate_set_of k cited Hlen) as [_ Hiter].
  set (file := context_name (idx, Series (columns df) row)) in *.
  set (image_path := path_join lib (path_join lib ".local_cache" "images") name).
  assert ((file, image_path)
          ∈ omap (displayed_entry lib m ".local_cache")
                 (pyhash.iterate (pyhash.set_of k cited))) as Hd.
  { apply list_elem_of_omap. exists file. split; [by apply Hiter|].
    apply displayed_entry_Some. eauto. }
  split; [done|]. rewrite Ho. apply elem_of_app. right.
  apply list_elem_of_bind. exists (file, image_path). split; [|done].
  unfold displayed_items. simpl. right. left.
Qed.

End retrieval.

Lemma cited_review_shows_its_image_witness :
  ∃ w1 d,
    image_rag.display_retrieved_images (pyhash.secret_of_seed 1) plain_library
      [("context_1_june.txt", SStr "1.png"); ("context_2_july.txt", SStr "2.png")]
      july_response no_service empty_world = (w1, Ok d)
    ∧ (image_rag.context_name
         (1%nat, Series (columns reviews)
                   {[ "id" := SInt 2; "month" := SStr "july";
                      "image_path" := SStr "2.png"; "label" := SStr "positive" ]}),
       path_join plain_library (path_join plain_library ".local_cache" "images") "2.png")
      ∈ d
    ∧ DisplayedImage
        (path_join plain_library (path_join plain_library ".local_cache" "images") "2.png")
      ∈ output w1.
Proof.
  eexists _, _. split; [vm_compute; reflexivity|].
  apply (cited_review_shows_its_image (pyhash.secret_of_seed 1) plain_library reviews
           [("context_1_june.txt", SStr "1.png"); ("context_2_july.txt", SStr "2.png")]
           july_response
           ["context_1_july.txt"; "context_2_july.txt"; "context_3_july.txt"]
           no_service empty_world _ _ 1%nat
           {[ "id" := SInt 2; "month" := SStr "july";
              "image_path" := SStr "2.png"; "label" := SStr "positive" ]} "2.png").
  - vm_compute. reflexivity.
  - compute_done.
  - reflexivity.
  - vm_compute. reflexivity.
  - discriminate.
  - reflexivity.
  - reflexivity.
  - compute_done.
  - vm_compute. reflexivity.
Defined.

Section evaluation.
Import image_rag.

Lemma iterrows_data df : (λ ir : nat * series, data ir.2) <$> iterrows df = rows df.
Proof.
  unfold iterrows. rewrite fmap_imap. simpl.
  generalize (rows df). intros l. apply list_eq. intros i.
  rewrite list_lookup_imap. by destruct (l !! i).
Qed.

Lemma iterrows_Forall df : Forall (λ ir, labels ir.2 = columns df) (iterrows df).
Proof.
  apply Forall_forall. by intros [idx s] (r & _ & ->)%elem_of_iterrows.
Qed.

Lemma iterrows_nil df : iterrows df = [] ↔ rows df = [].
Proof. unfold iterrows. by destruct (rows df). Qed.

Lemma series_item_decide s col :
  series_item s col
  = if decide (col ∈ labels s) then Ok (default NaN (data s !! col))
    else Raised (KeyError col).
Proof. unfold series_item. by repeat case_decide; case_bool_decide. Qed.

Lemma prepare_rows cols text_col label_col (irs : list (nat * series)) :
  Forall (λ ir, labels ir.2 = cols) irs →
  foldr (λ (ir : nat * series) (acc : result (list json)),
           text ← series_item ir.2 text_col;
           label ← series_item ir.2 label_col;
           items ← acc;
           Ok (JObj [("item", JObj [("input", jstr (py_str text));
                                    ("ground_truth", JVal label)])] :: items))
        (Ok []) irs
  = match irs with
    | [] => Ok []
    | _ :: _ =>
        if decide (text_col ∈ cols) then
          if decide (label_col ∈ cols)
          then Ok (evaluation_item text_col label_col
                     <$> ((λ ir : nat * series, data ir.2) <$> irs))
          else Raised (KeyError label_col)
        else Raised (KeyError text_col)
    end.
Proof.
  intros Hall. destruct Hall as [|ir irs Hir Hirs]; [done|].
  cbn [foldr].
  rewrite (series_item_decide ir.2 text_col), (series_item_decide ir.2 label_col), Hir.
  destruct (decide (text_col ∈ cols)) as [Ht|Ht]; [|done].
  destruct (decide (label_col ∈ cols)) as [Hl|Hl]; [|done].
  cbn [mbind result_bind]. rewrite fmap_cons.
  match goal with
  | |- context [foldr ?f _ irs] =>
      assert (foldr f (Ok []) irs
              = Ok (evaluation_item text_col label_col
                      <$> ((λ ir : nat * series, data ir.2) <$> irs))) as ->; [|done]
  end.
  induction Hirs as [|ir' irs' Hir' Hirs' IH]; [done|].
  cbn [foldr]. rewrite IH.
  rewrite (series_item_decide ir'.2 text_col), (series_item_decide ir'.2 label_col), Hir'.
  by rewrite !decide_True by done.
Qed.

(** ** Evaluation *)

(** X16.  [prepare_evaluation_data] returns one item for each row, in
    order, with [str()] of the text as input (so [nan] for a missing
    text) and the label as ground truth.  On a frame with rows it raises
    [KeyError] for a missing text column, then for a missing label
    column; on a frame without rows it returns the empty list whatever
    the columns. *)
Theorem prepare_evaluation_data_spec df text_col label_col :
  prepare_evaluation_data df text_col label_col
  = match rows df with
    | [] => Ok []
    | _ :: _ =>
        if decide (text_col ∈ columns df) then
          if decide (label_col ∈ columns df)
          then Ok (evaluation_item text_col label_col <$> rows df)
          else Raised (KeyError label_col)
        else Raised (KeyError text_col)
    end.
Proof.
  unfold prepare_evaluation_data.
  rewrite (prepare_rows (columns df)) by apply iterrows_Forall.
  rewrite iterrows_data. pose proof (iterrows_nil df) as [Hnil Hnil'].
  destruct (iterrows df), (rows df); try done.
  - by specialize (Hnil eq_refl).
  - by specialize (Hnil' eq_refl).
Qed.

End evaluation.

Section uploading.
Import image_rag.
Context (vector_store_id : json) (column_name : string).

Lemma upload_row_Ok ids ir svc w w' ids' :
  upload_row vector_store_id column_name ids ir svc w = (w', Ok ids') →
  ∃ content file id,
    (v ← series_item ir.2 column_name; context_of v) = Ok content
    ∧ getattr file "id" = Ok id
    ∧ w' = World (files w) (output w)
                 (calls w ++ [(Request "vector_stores.files.upload"
                                 (upload_request vector_store_id (context_name ir) content),
                               Returned file)])
    ∧ ids' = ids ++ [id].
Proof.
  unfold upload_row. rewrite bind_run, lift_run.
  destruct (_ ≫= _) as [content|e] eqn:Hcontent; [|done].
  cbv beta iota. rewrite bind_run, call_run. cbv zeta.
  destruct (svc _ _) as [file|d] eqn:Hsvc; [|done].
  rewrite bind_run, lift_run.
  destruct (getattr file "id") as [id|e] eqn:Hid; [|done].
  intros [= <- <-]. by exists content, file, id.
Qed.

Lemma upload_loop irs : ∀ ids svc w w' ids',
  for_fold irs ids (upload_row vector_store_id column_name) svc w = (w', Ok ids') →
  ∃ (uploads : list event) (new_ids : list json),
    calls w' = calls w ++ uploads ∧ files w' = files w ∧ output w' = output w
    ∧ ids' = ids ++ new_ids
    ∧ length uploads = length irs ∧ length new_ids = length irs
    ∧ ∀ j ir, irs !! j = Some ir →
        ∃ content file id,
          (v ← series_item ir.2 column_name; context_of v) = Ok content
          ∧ getattr file "id" = Ok id
          ∧ uploads !! j
            = Some (Request "vector_stores.files.upload"
                      (upload_request vector_store_id (context_name ir) content),
                    Returned file)
          ∧ new_ids !! j = Some id.
Proof.
  induction irs as [|ir irs IH]; intros ids svc w w' ids'.
  - intros [= <- <-]. exists [], []. rewrite !app_nil_r. by repeat split.
  - simpl for_fold. rewrite bind_run.
    destruct (upload_row _ _ _ _ _ _) as [w1 [ids1|e]] eqn:E; [|done].
    apply upload_row_Ok in E as (content & file & id & Hcontent & Hid & -> & ->).
    intros (uploads & new_ids & Hcalls & Hfiles & Hout & -> & Hlen & Hlen' & Hall)%IH.
    cbn [calls files output] in *.
    eexists (_ :: uploads), (id :: new_ids).
    rewrite Hcalls, <- !app_assoc. simpl. rewrite Hlen, Hlen'.
    repeat split; [done..|].
    intros [|j] ir' Hj.
    + injection Hj as <-. by exists content, file, id.
    + by apply Hall.
Qed.

Lemma update_row_Ok file_ids ir svc w w' :
  update_row vector_store_id file_ids ir svc w = (w', Ok ()) →
  ∃ file_id month answer,
    file_ids !! ir.1 = Some file_id
    ∧ series_item ir.2 "month" = Ok month
    ∧ w' = World (files w) (output w)
                 (calls w ++ [(update_request vector_store_id file_id month, Returned answer)]).
Proof.
  unfold update_row, getitem. rewrite bind_run.
  destruct (file_ids !! ir.1) as [file_id|]; [|done].
  unfold mret at 1, M_ret at 1. cbv beta iota. rewrite bind_run, lift_run.
  destruct (series_item ir.2 "month") as [month|e]; [|done].
  cbv beta iota. rewrite bind_run, call_run. cbv zeta.
  destruct (svc _ _) as [answer|d] eqn:Hsvc; [|done].
  intros [= <-]. by exists file_id, month, answer.
Qed.

Lemma update_loop file_ids irs : ∀ svc w w',
  for_each irs (update_row vector_store_id file_ids) svc w = (w', Ok ()) →
  ∃ updates : list event,
    calls w' = calls w ++ updates ∧ files w' = files w ∧ output w' = output w
    ∧ length updates = length irs
    ∧ ∀ j ir, irs !! j = Some ir →
        ∃ file_id month answer,
          file_ids !! ir.1 = Some file_id
          ∧ series_item ir.2 "month" = Ok month
          ∧ updates !! j = Some (update_request vector_store_id file_id month, Returned answer).
Proof.
  induction irs as [|ir irs IH]; intros svc w w'.
  - intros [= <-]. exists []. rewrite app_nil_r. by repeat split.
  - simpl for_each. rewrite bind_run.
    destruct (update_row _ _ _ _ _) as [w1 [[]|e]] eqn:E; [|done].
    apply update_row_Ok in E as (file_id & month & answer & Hid & Hmonth & ->).
    intros (updates & Hcalls & Hfiles & Hout & Hlen & Hall)%IH.
    cbn [calls files output] in *.
    eexists (_ :: updates). rewrite Hcalls, <- !app_assoc. simpl. rewrite Hlen.
    repeat split; [done..|].
    intros [|j] ir' Hj.
    + injection Hj as <-. by exists file_id, month, answer.
    + by apply Hall.
Qed.

Lemma series_item_labels s col v : series_item s col = Ok v → col ∈ labels s.
Proof. unfold series_item. by case_bool_decide. Qed.

Lemma iterrows_lookup df idx :
  iterrows df !! idx = (λ row, (idx, Series (columns df) row)) <$> rows df !! idx.
Proof. unfold iterrows. by rewrite list_lookup_imap. Qed.

(** ** Populating the vector stores *)

(** X17.  When [upload_files_to_vector_store] completes it has uploaded
    one file for each row, in row order, and only then updated the
    attributes of each file, in row order: the update for a row carries
    the id the upload for that row returned, and the row's month.  No
    file is written and nothing is printed; a frame with rows has the
    requested column and a [month] column. *)
Theorem uploads_precede_updates df svc w w' :
  upload_files_to_vector_store vector_store_id df column_name svc w = (w', Ok ()) →
  ∃ uploads updates : list event,
    calls w' = calls w ++ uploads ++ updates
    ∧ files w' = files w ∧ output w' = output w
    ∧ length uploads = length (rows df) ∧ length updates = length (rows df)
    ∧ ∀ idx row, rows df !! idx = Some row →
        ∃ content file id answer,
          context_of (default NaN (row !! column_name)) = Ok content
          ∧ uploads !! idx
            = Some (Request "vector_stores.files.upload"
                      (upload_request vector_store_id
                         (context_name (idx, Series (columns df) row)) content),
                    Returned file)
          ∧ getattr file "id" = Ok id
          ∧ updates !! idx
            = Some (update_request vector_store_id id (default NaN (row !! "month")), Returned answer)
          ∧ column_name ∈ columns df ∧ "month" ∈ columns df.
Proof.
  unfold upload_files_to_vector_store. rewrite bind_run.
  destruct (for_fold _ _ _ _ _) as [w1 [file_ids|e]] eqn:Hup; [|done].
  apply upload_loop in Hup
    as (uploads & new_ids & Hcalls & Hfiles & Hout & -> & Hlen & Hlen' & Hups).
  intros (updates & Hcalls' & Hfiles' & Hout' & Hlen'' & Hupd)%update_loop.
  assert (length (iterrows df) = length (rows df)) as Hrows
    by (unfold iterrows; apply length_imap).
  exists uploads, updates. rewrite Hcalls', Hcalls, Hfiles', Hout', app_assoc.
  repeat split; [done|done|congruence|congruence|].
  intros idx row Hrow.
  assert (iterrows df !! idx = Some (idx, Series (columns df) row)) as Hir
    by (by rewrite iterrows_lookup, Hrow).
  destruct (Hups _ _ Hir) as (content & file & id & Hcontent & Hid & Hu & Hnew).
  destruct (Hupd _ _ Hir) as (file_id & month & answer & Hfid & Hmonth & Hd).
  simpl in Hfid, Hmonth, Hcontent. rewrite Hnew in Hfid. injection Hfid as <-.
  pose proof (series_item_labels _ _ _ Hmonth) as Hm.
  apply series_item_Ok in Hmonth as ->.
  destruct (series_item _ column_name) as [v|] eqn:Hv; [|done].
  pose proof (series_item_labels _ _ _ Hv) as Hc.
  apply series_item_Ok in Hv as ->. simpl in Hcontent.
  by exists content, file, id, answer.
Qed.

End uploading.

Lemma uploads_precede_updates_witness :
  ∃ w' uploads updates,
    image_rag.upload_files_to_vector_store (jstr "vs_1") textless_frame "full_sentiment"
      file_store empty_world = (w', Ok ())
    ∧ calls w' = calls empty_world ++ uploads ++ updates
    ∧ length uploads = 1%nat ∧ length updates = 1%nat.
Proof.
  edestruct (uploads_precede_updates (jstr "vs_1") "full_sentiment" textless_frame
               file_store empty_world)
    as (uploads & updates & Hcalls & _ & _ & Hup & Hupd & _);
    [vm_compute; reflexivity|].
  eexists _, uploads, updates. split; [vm_compute; reflexivity|].
  split; [exact Hcalls|]. split; [exact Hup | exact Hupd].
Defined.

(** ** The results of an evaluation run *)

Section results.
Import image_rag.

Lemma failed_row_spec sample :
  match passed sample with
  | Ok true => failed_row sample = Ok None
  | Ok false => (∃ row, failed_row sample = Ok (Some row))
                ∨ (∃ e, failed_row sample = Raised e)
  | Raised e => failed_row sample = Raised e
  end.
Proof.
  unfold failed_row. destruct (passed sample) as [[]|e]; [done| |done].
  cbn [mbind result_bind].
  destruct (subscript sample "sample") as [s|]; [|right; by eexists].
  cbn [mbind result_bind].
  destruct (subscript s "input") as [i|]; [|right; by eexists].
  cbn [mbind result_bind].
  destruct (subscript s "output") as [o|]; [|right; by eexists].
  left. by eexists.
Qed.

Lemma count_and_failed data : ∀ p failed,
  count_passed data = Ok p →
  foldr (λ sample (acc : result (list json)),
           row ← failed_row sample;
           (λ rows, option_list row ++ rows) <$> acc) (Ok []) data = Ok failed →
  0 ≤ p ∧ p + Z.of_nat (length failed) = Z.of_nat (length data).
Proof.
  induction data as [|item data IH]; intros p failed.
  - intros [= <-] [= <-]. done.
  - cbn [foldr count_passed]. fold (count_passed data).
    pose proof (failed_row_spec item) as Hrow.
    destruct (passed item) as [[]|e]; [| |done].
    + rewrite Hrow. cbn [mbind result_bind].
      destruct (count_passed data) as [n|], (foldr _ _ data) as [rows|];
        cbn [fmap result_fmap]; try done.
      intros [= <-] [= <-]. destruct (IH n rows eq_refl eq_refl).
      simpl length. lia.
    + destruct Hrow as [[row ->]|[e ->]]; [|by destruct (count_passed data)].
      cbn [mbind result_bind].
      destruct (count_passed data) as [n|], (foldr _ _ data) as [rows|];
        cbn [fmap result_fmap]; try done.
      intros [= <-] [= <-]. destruct (IH n rows eq_refl eq_refl).
      simpl length. lia.
Qed.

(** X18.  The passed and the failed samples of a run add up: when the
    count of passed output items and the table of failed samples are both
    computed, the passed count is between zero and the total, and the
    total is the passed count plus the number of rows of the table. *)
Theorem passed_and_failed_add_up output_items p total failed :
  passed_and_total output_items = Ok (p, total) →
  failed_samples output_items = Ok failed →
  0 ≤ p ≤ total ∧ p + Z.of_nat (length failed) = total.
Proof.
  unfold passed_and_total, failed_samples.
  destruct (subscript output_items "data") as [data|]; [|done]. cbn [mbind result_bind].
  destruct (py_iter data) as [items|]; [|done]. cbn [mbind result_bind].
  destruct (count_passed items) as [n|] eqn:Hn; [|done]. cbn [mbind result_bind].
  intros [= <- <-] Hfailed.
  destruct (count_and_failed items n failed Hn Hfailed). lia.
Qed.

End results.

Lemma passed_and_failed_add_up_witness :
  ∃ failed,
    image_rag.passed_and_total two_output_items = Ok (1, 2)
    ∧ image_rag.failed_samples two_output_items = Ok failed
    ∧ 0 ≤ 1 ≤ 2 ∧ 1 + Z.of_nat (length failed) = 2.
Proof.
  eexists. split; [reflexivity|]. split; [reflexivity|].
  apply (passed_and_failed_add_up two_output_items); reflexivity.
Defined.

Section searching.
Import redisjson.
Context (lib : library).

Lemma print_docs docs : ∀ svc w w',
  for_each docs (λ doc,
    distance ← lift (score ← subscript doc "vector_score"; round3 lib score);
    content ← lift (subscript doc "content");
    print ("distance:" +:+ distance +:+ " content:" +:+ format_value lib content +:+ NL))
    svc w = (w', Ok ()) →
  ∃ lines,
    w' = World (files w) (output w ++ (Printed <$> lines)) (calls w)
    ∧ Forall2 (λ doc line, result_line lib doc = Ok line) docs lines.
Proof.
  induction docs as [|doc docs IH]; intros svc w w'.
  - intros [= <-]. exists []. simpl. rewrite app_nil_r. by destruct w.
  - simpl for_each. rewrite !bind_run, lift_run. unfold result_line at 1.
    destruct (_ ≫= _) as [distance|e] eqn:Hd; [|done]. cbv beta iota.
    rewrite bind_run, lift_run.
    destruct (subscript doc "content") as [content|e] eqn:Hc; [|done].
    cbv beta iota. rewrite print_run.
    intros (lines & -> & Hall)%IH. cbn [files output calls].
    exists (("distance:" +:+ distance +:+ " content:" +:+ format_value lib content +:+ NL)
            :: lines).
    split; [by rewrite <- app_assoc|]. constructor; [|done].
    unfold result_line. rewrite Hd, Hc. done.
Qed.

(** ** The search cells *)

(** X19.  When a search cell completes it has made two calls, the
    embedding of the query text and the search, and has printed one line
    for each document of the answer, in the answer's order, with the
    rounded distance and the content of the document. *)
Theorem search_prints_a_line_per_document text query svc w w' :
  search_cell lib text query svc w = (w', Ok ()) →
  ∃ embedding search results docs lines,
    calls w' = calls w ++ [embedding; (search, Returned results)]
    ∧ endpoint embedding.1 = "openai.Embedding.create"
    ∧ endpoint search = "ft.search"
    ∧ (d ← getattr results "docs"; as_list d) = Ok docs
    ∧ Forall2 (λ doc line, result_line lib doc = Ok line) docs lines
    ∧ output w' = output w ++ (Printed <$> lines)
    ∧ files w' = files w.
Proof.
  unfold search_cell, get_vector. rewrite !bind_run, call_run. cbv zeta.
  destruct (svc (calls w) _) as [r|d] eqn:Hembed; [|done].
  rewrite lift_run. destruct (_ ≫= _) as [v|e]; [|done]. cbv beta iota.
  rewrite bind_run, lift_run.
  destruct (float32_tobytes lib v) as [vec|e]; [|done]. cbv beta iota.
  rewrite bind_run, call_run. cbv zeta. cbn [files output calls].
  destruct (svc (_ ++ _) _) as [results|d] eqn:Hsearch; [|done]. cbv beta iota.
  rewrite bind_run, lift_run.
  destruct (_ ≫= _) as [docs|e] eqn:Hdocs; [|done]. cbv beta iota.
  intros (lines & -> & Hall)%print_docs. cbn [files output calls].
  eexists (_, _), _, results, docs, lines. rewrite <- app_assoc.
  split; [done|]. by repeat split.
Qed.

End searching.

Lemma search_prints_a_line_per_document_witness :
  ∃ w' lines,
    redisjson.semantic_search_cell plain_library "Radcliffe yet to answer GB call"
      search_service empty_world = (w', Ok ())
    ∧ output w' = output empty_world ++ (Printed <$> lines).
Proof.
  edestruct (search_prints_a_line_per_document plain_library
               "Radcliffe yet to answer GB call"
               "*=>[KNN 3 @vector $query_vec AS vector_score]"
               search_service empty_world)
    as (? & ? & ? & docs & lines & _ & _ & _ & Hdocs & Hlines & Hout & _);
    [vm_compute; reflexivity|].
  eexists _, lines. split; [vm_compute; reflexivity|]. exact Hout.
Defined.

Section merge_effects.
Import image_rag.
Context (lib : library).

Lemma analyze_effects image_path svc w w' sentiment :
  analyze_image_sentiment image_path svc w = (w', Ok sentiment) →
  ∃ ev, w' = World (files w) (output w) (calls w ++ [ev])
        ∧ endpoint ev.1 = "responses.create".
Proof.
  unfold analyze_image_sentiment, encode_image. rewrite !bind_run. unfold read_rb.
  destruct (files w !! image_path) as [content|] eqn:Hfile; [|done].
  unfold mret, M_ret. cbv beta iota. rewrite bind_run, call_run. cbv zeta.
  destruct (svc _ _) as [response|d] eqn:Hsvc; [|done].
  rewrite lift_run. destruct (_ ≫= _); [|done]. intros [= <- _].
  by eexists (_, _).
Qed.

Lemma merge_row_effects df ir svc w w1 df1 :
  merge_row lib df ir svc w = (w1, Ok df1) →
  ∃ ev, endpoint ev.1 = "responses.create"
        ∧ w1 = World (files w)
                     (output w ++ [Printed ("Processed " +:+ py_str (image_of_row ir))])
                     (calls w ++ [ev]).
Proof.
  unfold merge_row. rewrite bind_run, lift_run.
  destruct (series_item ir.2 "image_path") as [v|e] eqn:Himg; [|discriminate].
  unfold mbind at 1, result_bind at 1.
  destruct v as [| | | |name]; try discriminate. simpl as_segment. cbv iota.
  rewrite bind_run.
  destruct (analyze_image_sentiment _ svc w) as [wb [sentiment|e]] eqn:Hs;
    [|discriminate].
  apply analyze_effects in Hs as (ev & -> & Hev).
  rewrite bind_run, lift_run.
  destruct (series_item ir.2 "text") as [text|e] eqn:Htext; [|discriminate].
  rewrite bind_run, lift_run. cbv iota. rewrite bind_run, print_run.
  cbn [files output calls]. intros [= <- _]. exists ev. split; [done|].
  destruct ir as [idx [cols r]]. apply series_item_Ok in Himg.
  unfold image_of_row. simpl in *. by rewrite <- Himg.
Qed.

Lemma merge_loop_effects L : ∀ df0 svc w w1 df1,
  for_fold L df0 (merge_row lib) svc w = (w1, Ok df1) →
  ∃ evs, calls w1 = calls w ++ evs
         ∧ length evs = length L
         ∧ Forall (λ ev : event, endpoint ev.1 = "responses.create") evs
         ∧ output w1
           = output w ++ ((λ ir, Printed ("Processed " +:+ py_str (image_of_row ir))) <$> L)
         ∧ files w1 = files w.
Proof.
  induction L as [|ir L IH]; intros df0 svc w w1 df1.
  - intros [= <- _]. exists []. rewrite !app_nil_r. by repeat split.
  - simpl for_fold. rewrite bind_run.
    destruct (merge_row lib df0 ir svc w) as [wa [dfa|e]] eqn:E; [|done].
    apply merge_row_effects in E as (ev & Hev & ->).
    intros (evs & Hcalls & Hlen & Hall & Hout & Hfiles)%IH.
    cbn [files output calls] in *. exists (ev :: evs).
    rewrite Hcalls, Hout, <- !app_assoc. simpl. rewrite Hlen.
    repeat split; [by constructor|done].
Qed.

(** ** What the merge cell does to the world *)

(** X20.  When the merge cell completes it has made one call to the
    model for each row that has an image, printed one [Processed] line
    for each such row in row order and then the [Saved results] line, and
    the file [df_full_sentiment.csv] holds the CSV of the frame the cell
    returns; no other file is touched. *)
Theorem merge_cell_effects df svc w w' df' :
  merge_cell lib df svc w = (w', Ok df') →
  let image_rows := List.filter has_image (iterrows df) in
  let output_path := path_join lib ".local_cache" "df_full_sentiment.csv" in
  ∃ evs,
    calls w' = calls w ++ evs
    ∧ length evs = length image_rows
    ∧ Forall (λ ev : event, endpoint ev.1 = "responses.create") evs
    ∧ output w'
      = output w
        ++ ((λ ir, Printed ("Processed " +:+ py_str (image_of_row ir))) <$> image_rows)
        ++ [Printed (NL +:+ "Saved results to " +:+ output_path)]
    ∧ files w' = <[output_path := to_csv lib df']> (files w).
Proof.
  unfold merge_cell. rewrite bind_run, lift_run.
  destruct (column df "image_path") as [images|e]; [|discriminate].
  rewrite bind_run.
  destruct (for_fold _ df (merge_row lib) svc w) as [w1 [df1|e]] eqn:Hloop;
    [|discriminate].
  apply merge_loop_effects in Hloop as (evs & Hcalls & Hlen & Hall & Hout & Hfiles).
  rewrite bind_run, lift_run.
  destruct (column df1 "full_sentiment") as [full|e] eqn:Hfull; [|discriminate].
  rewrite bind_run, lift_run.
  destruct (column df1 "text") as [text|e] eqn:Htext; [|discriminate].
  cbv zeta. rewrite !bind_run, open_w_run. cbv beta iota.
  rewrite !bind_run, write_run. cbv beta iota. rewrite bind_run, print_run.
  cbn [files output calls]. intros [= <- <-]. cbn [files output calls].
  exists evs. rewrite Hcalls, Hout, Hfiles, lookup_insert_eq, insert_insert_eq.
  simpl. rewrite <- app_assoc. by repeat split.
Qed.

End merge_effects.

Lemma merge_cell_effects_witness :
  ∃ w' df' evs,
    image_rag.merge_cell plain_library reviews sentiment_service stocked_world
    = (w', Ok df')
    ∧ calls w' = calls stocked_world ++ evs
    ∧ length evs = 2%nat.
Proof.
  edestruct (merge_cell_effects plain_library reviews sentiment_service stocked_world)
    as (evs & Hcalls & Hlen & _);
    [vm_compute; reflexivity|].
  eexists _, _, evs. split; [vm_compute; reflexivity|].
  split; [exact Hcalls | exact Hlen].
Defined.

(** ** The download cell *)

Section downloading.
Import image_rag.





End downloading.

(** ** The number of displayed images *)

Section counting.
Import image_rag.
Context (lib : library) (mapping : dict scalar).

(** X24.  The cell that displays the retrieved images ends by printing
    how many it displayed, and that number is the number of distinct
    cited files that have an image: it does not depend on the session,
    nor on how often a file is cited. *)
Theorem displayed_count_is_the_cited_images k response cited svc w w1 d :
  annotation_files response = Ok cited →
  Z.of_nat (length cited) < 2 ^ 61 →
  display_cell k lib mapping response svc w = (w1, Ok d) →
  let with_image file := bool_decide (is_Some (displayed_entry lib mapping ".local_cache" file)) in
  length d = length (List.filter with_image (remove_dups cited))
  ∧ last (output w1)
    = Some (Printed ("Displayed " +:+ pretty (Z.of_nat (length d)) +:+ " images")).
Proof.
  intros Hcited Hlen. unfold display_cell. rewrite bind_run.
  destruct (display_retrieved_images k lib mapping response svc w)
    as [w0 [d0|e]] eqn:Hrun; [|done].
  eapply display_retrieved_images_ok in Hrun as [-> _]; [|done..].
  rewrite bind_run, print_run. cbv beta iota. intros [= <- <-]. cbn [output].
  split; [|by rewrite last_snoc].
  destruct (iterate_set_of k cited Hlen) as [Hnd Hin].
  assert (pyhash.iterate (pyhash.set_of k cited) ≡ₚ remove_dups cited) as ->.
  { apply NoDup_Permutation; [done|apply NoDup_remove_dups|].
    intros x. by rewrite Hin, elem_of_remove_dups. }
  generalize (remove_dups cited). intros l.
  induction l as [|file l IH]; [done|]. cbn [omap list_omap List.filter].
  destruct (displayed_entry lib mapping ".local_cache" file) as [e|].
  - rewrite bool_decide_eq_true_2 by (by eexists). simpl. by rewrite IH.
  - by rewrite bool_decide_eq_false_2 by (by intros [? ?]).
Qed.

End counting.

Lemma displayed_count_is_the_cited_images_witness :
  ∃ w1 d,
    image_rag.display_cell (pyhash.secret_of_seed 1) plain_library july_mapping
      july_response no_service empty_world = (w1, Ok d)
    ∧ last (output w1)
      = Some (Printed ("Displayed " +:+ pretty (Z.of_nat (length d)) +:+ " images")).
Proof.
  eexists _, _. split; [vm_compute; reflexivity|].
  edestruct (displayed_count_is_the_cited_images plain_library july_mapping
               (pyhash.secret_of_seed 1) july_response
               ["context_1_july.txt"; "context_2_july.txt"; "context_3_july.txt"]
               no_service empty_world)
    as [_ Hlast];
    [reflexivity | reflexivity | vm_compute; reflexivity |].
  exact Hlast.
Defined.
